(** * django-tagulous: tag options and tag field managers

    A shallow embedding of [tagulous/models/options.py] and
    [tagulous/models/managers.py].

    Python objects are modelled by records, the [__dict__] of a [TagOptions]
    object and the dictionaries of [set_tag_list] by [gmap]s (their iteration
    order is fixed but arbitrary, like the hash order of a Python 2 dict),
    the tag table by a list of rows, the many-to-many relation of an
    instance by a [gset] of primary keys.  Methods that read or write the
    manager, the instance or the database are functions from a state to an
    outcome (a value or a raised exception) and the state reached. *)

From stdpp Require Import gmap strings list fin_maps.
From Stdlib Require Import ZArith Lia Ascii String.

Open Scope string_scope.
Open Scope list_scope.

(** ** Exceptions and outcomes *)

Inductive exn : Type :=
| AttributeError (name : string)
| KeyError (name : string)
| ValueError
| ValidationError
| DoesNotExist
| MultipleObjectsReturned
| TypeError.

Inductive outcome (A : Type) : Type :=
| Ok (a : A)
| Raise (e : exn).
Arguments Ok {A} a.
Arguments Raise {A} e.

(** A method over a state [S]: the outcome and the state it leaves
    behind.  A raised exception keeps the state reached when it was raised. *)
Definition M (S A : Type) : Type := S → outcome A * S.

Definition ret {S A} (a : A) : M S A := fun s => (Ok a, s).
Definition raise {S A} (e : exn) : M S A := fun s => (Raise e, s).
Definition bind {S A B} (m : M S A) (k : A → M S B) : M S B :=
  fun s => match m s with
           | (Ok a, s') => k a s'
           | (Raise e, s') => (Raise e, s')
           end.
Definition gets {S A} (f : S → A) : M S A := fun s => (Ok (f s), s).
Definition modify {S} (f : S → S) : M S unit := fun s => (Ok tt, f s).

Notation "'do' x <- m ; k" := (bind m (fun x => k))
  (at level 10, x name, m at level 100, k at level 200, only parsing).
Notation "'run' m ; k" := (bind m (fun _ => k))
  (at level 10, m at level 100, k at level 200, only parsing).

(** [for x in l: body x] *)
Fixpoint for_each {S A} (l : list A) (body : A → M S unit) : M S unit :=
  match l with
  | [] => ret tt
  | x :: l' => run body x; for_each l' body
  end.

(** ** Strings *)

Definition quote_char : ascii := ascii_of_nat 34.

(** [value.replace(quote, empty)]: every double-quote character is dropped. *)
Fixpoint remove_quotes (s : string) : string :=
  match s with
  | EmptyString => EmptyString
  | String c s' =>
      if decide (c = quote_char) then remove_quotes s'
      else String c (remove_quotes s')
  end.

(** ** Case folding *)

(** The managers fold case in two ways, and neither is written in the
    source files: [unicode.lower()] is the interpreter's, and the comparison
    behind a [name__iexact] lookup is the database's, which depends on its
    collation. The two need not agree. A [Folding] gives both. [lower] is
    [unicode.lower()], with the three facts about it that the managers rely
    on: lowering twice is lowering once, lowering goes character by
    character and neither makes nor unmakes a double-quote character, and
    only the empty string lowers to the empty string. [iexact_key] is the
    key under which the database compares names without regard to case: a
    record matches a name under [name__iexact] when their keys are equal. *)
Class Folding : Type := {
  lower : string → string;
  iexact_key : string → string;
  lower_idemp : ∀ s, lower (lower s) = lower s;
  lower_quotes : ∀ s, lower (remove_quotes s) = remove_quotes (lower s);
  lower_empty : ∀ s, lower s = EmptyString ↔ s = EmptyString
}.

(** ** Tag options ([options.py]) *)

(** The values an option can hold, and [VAttr]: what reading finds on the
    class, a method or another attribute, known here by its name. *)
Inductive value : Type :=
| VNone
| VBool (b : bool)
| VInt (z : Z)
| VStr (s : string)
| VList (l : list string)
| VAttr (name : string).

Module TagOptions.

Definition PROPERTIES : list string := ["_initial"; "initial_string"].

(** The attributes that reading finds on the class: those that the class
    statement of [options.py] makes, its methods and its docstring, and those
    that every instance of a class has from [object]. *)
Definition CLASS_ATTRIBUTES : list string :=
  ["__init__"; "__setattr__"; "__getattr__"; "_get_items"; "items";
   "field_items"; "__add__"; "__doc__"; "__module__"].
Definition OBJECT_ATTRIBUTES : list string :=
  ["__class__"; "__delattr__"; "__dict__"; "__format__"; "__getattribute__";
   "__hash__"; "__new__"; "__reduce__"; "__reduce_ex__"; "__repr__";
   "__sizeof__"; "__str__"; "__subclasshook__"; "__weakref__"].

Section Options.

(** [constants.OPTION_DEFAULTS] and the two helpers of [tagulous.utils] are
    not part of the files at hand: they are parameters of the model.
    [render_tags] iterates over its argument, and raises when the value it
    is given cannot be iterated. *)
Variable OPTION_DEFAULTS : gmap string value.
Variable parse_tags : string → list string.
Variable render_tags : value → outcome string.

(** The state of a [TagOptions] object is its [__dict__]. *)
Abbreviation dict := (gmap string value).

Definition __setattr__ (name : string) (v : value) : M dict unit :=
  if decide (name = "initial") then
    match v with
    | VStr s =>
        modify (fun d =>
          <["initial" := VList (parse_tags s)]> (<["initial_string" := VStr s]> d))
    | _ =>
        match render_tags v with
        | Ok s =>
            modify (fun d =>
              <["initial" := v]> (<["initial_string" := VStr s]> d))
        | Raise e => raise e
        end
    end
  else if decide (name ∈ dom OPTION_DEFAULTS) then
    modify (fun d => <[name := v]> d)
  else raise (AttributeError name).

(** [__getattr__] is what Python calls when the name is not found in the
    object's [__dict__]. *)
Definition __getattr__ (name : string) : M dict value :=
  fun d =>
    if decide (name ∈ PROPERTIES) then
      match d !! name with
      | Some v => (Ok v, d)
      | None => (Raise (KeyError name), d)
      end
    else
      match OPTION_DEFAULTS !! name with
      | None => (Raise (AttributeError name), d)
      | Some dflt => (Ok (default dflt (d !! name)), d)
      end.

(** Reading [options.name]: the instance dictionary first, then the class,
    then [__getattr__]. An option is not named [__dict__], [__class__] or
    [__weakref__], the three names that Python asks the class for even
    before the instance dictionary. *)
Definition getattr (name : string) : M dict value :=
  fun d =>
    match d !! name with
    | Some v => (Ok v, d)
    | None =>
        if decide (name ∈ CLASS_ATTRIBUTES ++ OBJECT_ATTRIBUTES)
        then (Ok (VAttr name), d)
        else __getattr__ name d
    end.

(** [__init__] with keyword arguments [kwargs], on a fresh object. *)
Definition __init__ (kwargs : gmap string value) : outcome unit * dict :=
  for_each (map_to_list kwargs) (fun kv => __setattr__ kv.1 kv.2) ∅.

Definition _get_items (with_defaults : bool) (keys : list string)
  : M dict (gmap string value) :=
  fun d =>
    if with_defaults then
      (foldr (fun name acc =>
                match acc, OPTION_DEFAULTS !! name with
                | Ok m, Some dflt => Ok (<[name := default dflt (d !! name)]> m)
                | Ok _, None => Raise (KeyError name)
                | Raise e, _ => Raise e
                end) (Ok ∅) (reverse keys), d)
    else
      (Ok (filter (fun kv => kv.1 ∈ keys) d), d).

Definition items (with_defaults : bool) : M dict (gmap string value) :=
  _get_items with_defaults (map fst (map_to_list OPTION_DEFAULTS)).

(** [self + options]: the outcome and the [__dict__] of the new object. *)
Definition __add__ (self options : dict) : outcome unit * dict :=
  match items false self, items false options with
  | (Ok dct, _), (Ok upd, _) => __init__ (upd ∪ dct)
  | (Raise e, _), _ => (Raise e, ∅)
  | _, (Raise e, _) => (Raise e, ∅)
  end.

(** The names a [TagOptions] object may hold. *)
Definition recognized (name : string) : Prop :=
  name ∈ dom OPTION_DEFAULTS ∨ name = "initial" ∨ name = "initial_string".

Definition valid (d : dict) : Prop := ∀ name, name ∈ dom d → recognized name.

End Options.
End TagOptions.

(** ** The tag model and its table *)

(** A tag object in memory: [pk] is [None] until the tag is saved. *)
Record Tag : Type := mkTag {
  pk : option positive;
  name : string;
  protected : bool
}.

(** A row of the tag table. *)
Record TagRow : Type := mkRow {
  row_pk : positive;
  row_name : string;
  row_count : Z;
  row_protected : bool
}.

Abbreviation table := (list TagRow).

Global Instance Tag_eq_dec : EqDecision Tag.
Proof. solve_decision. Defined.
Global Instance TagRow_eq_dec : EqDecision TagRow.
Proof. solve_decision. Defined.

Definition of_row (r : TagRow) : Tag :=
  {| pk := Some (row_pk r); name := row_name r; protected := row_protected r |}.

(** [tag_model.objects.get(...)] on the rows that satisfy the condition. *)
Definition objects_get (matching : list TagRow) : outcome Tag :=
  match matching with
  | [] => Raise DoesNotExist
  | [r] => Ok (of_row r)
  | _ :: _ :: _ => Raise MultipleObjectsReturned
  end.

(** [get(name=n)] and [get(name__iexact=n)] *)
Definition get_name (n : string) (t : table) : outcome Tag :=
  objects_get (filter (fun r => row_name r = n) t).
Definition get_name__iexact `{Folding} (n : string) (t : table) : outcome Tag :=
  objects_get (filter (fun r => iexact_key (row_name r) = iexact_key n) t).
Definition get_pk (p : positive) (t : table) : outcome Tag :=
  objects_get (filter (fun r => row_pk r = p) t).

(** The lookup the managers make: exact when the field is case sensitive,
    case-insensitive otherwise. *)
Definition lookup_name `{Folding} (case_sensitive : bool) (n : string)
    (t : table) : outcome Tag :=
  if case_sensitive then get_name n t else get_name__iexact n t.

(** The primary key an insertion gets. *)
Definition fresh_pk (t : table) : positive :=
  (1 + foldr Pos.max 1 (row_pk <$> t))%positive.

(** Modelled from the spec: the tag model is not among the source files.
    A tag record carries a usage counter, zero for a new record, that
    [increment] raises by one and [decrement] lowers by one; a tag object
    without a primary key has no record to count on. *)
Definition insert_row (n : string) (prot : bool) (t : table) : Tag * table :=
  let p := fresh_pk t in
  ({| pk := Some p; name := n; protected := prot |},
   t ++ [{| row_pk := p; row_name := n; row_count := 0; row_protected := prot |}]).

Definition change_count (delta : Z) (p : positive) (t : table) : table :=
  (fun r => if decide (row_pk r = p)
            then {| row_pk := row_pk r; row_name := row_name r;
                    row_count := row_count r + delta;
                    row_protected := row_protected r |}
            else r) <$> t.

Definition increment (tag : Tag) (t : table) : table :=
  match pk tag with
  | Some p => change_count 1 p t
  | None => t
  end.

Definition decrement (tag : Tag) (t : table) : table :=
  match pk tag with
  | Some p => change_count (-1) p t
  | None => t
  end.

(** [tag.save()]: an insertion for a tag without a primary key, an update of
    its record otherwise.  The tag object gets the primary key. *)
Definition save_tag (tag : Tag) (t : table) : Tag * table :=
  match pk tag with
  | None => insert_row (name tag) (protected tag) t
  | Some p =>
      (tag,
       (fun r => if decide (row_pk r = p)
                 then {| row_pk := p; row_name := name tag;
                         row_count := row_count r;
                         row_protected := protected tag |}
                 else r) <$> t)
  end.

(** The count of the record with primary key [p], if there is one. *)
Definition count_of (p : positive) (t : table) : option Z :=
  row_count <$> head (filter (fun r => row_pk r = p) t).


(** The tag options a manager reads. [max_count] is falsy when it is zero. *)
Record Options : Type := mkOptions {
  case_sensitive : bool;
  force_lowercase : bool;
  max_count : Z
}.

(** ** Manager for [SingleTagField] *)

(** What [set] can be given: a falsy value, a string or a tag object. *)
Inductive set_value : Type :=
| SNone
| SStr (s : string)
| STag (t : Tag).

Module SingleTagManager.

(** The model instance, as far as the foreign key goes: the [attname]
    attribute (absent, or holding [None] or a primary key) and the cache
    of the foreign key descriptor (absent, or holding [None] or a tag). *)
Record Instance : Type := mkInstance {
  attname : option (option positive);
  cache : option (option Tag)
}.

Record Manager : Type := mkManager {
  changed : bool;
  tag_name : option string;
  tag_cache : option Tag;
  removed_tag : option Tag
}.

Record World : Type := mkWorld {
  db : table;
  instance : Instance;
  manager : Manager
}.

Definition set_db (f : table → table) (w : World) : World :=
  mkWorld (f (db w)) (instance w) (manager w).
Definition set_instance (f : Instance → Instance) (w : World) : World :=
  mkWorld (db w) (f (instance w)) (manager w).
Definition set_manager (f : Manager → Manager) (w : World) : World :=
  mkWorld (db w) (instance w) (f (manager w)).

Definition with_changed (b : bool) (m : Manager) : Manager :=
  mkManager b (tag_name m) (tag_cache m) (removed_tag m).
Definition with_tag_name (n : option string) (m : Manager) : Manager :=
  mkManager (changed m) n (tag_cache m) (removed_tag m).
Definition with_tag_cache (c : option Tag) (m : Manager) : Manager :=
  mkManager (changed m) (tag_name m) c (removed_tag m).
Definition with_removed_tag (r : option Tag) (m : Manager) : Manager :=
  mkManager (changed m) (tag_name m) (tag_cache m) r.

(** Truth value of [self.tag_name]: [None] and the empty string are falsy. *)
Definition truthy_name (n : option string) : bool :=
  match n with
  | None | Some EmptyString => false
  | Some _ => true
  end.

(** The foreign key descriptor of the framework: [__get__] answers from the
    cache, or loads the tag that [attname] names and caches it; [__set__]
    stores the primary key of the value and seeds the cache with it. *)
Definition descriptor__get__ : M World (option Tag) :=
  fun w =>
    match cache (instance w) with
    | Some rel => (Ok rel, w)
    | None =>
        match attname (instance w) with
        | Some (Some p) =>
            match get_pk p (db w) with
            | Ok t => (Ok (Some t),
                       set_instance (fun i => mkInstance (attname i) (Some (Some t))) w)
            | Raise e => (Raise e, w)
            end
        | _ => (Ok None, set_instance (fun i => mkInstance (attname i) (Some None)) w)
        end
    end.

Definition descriptor__set__ (v : option Tag) : M World unit :=
  modify (set_instance (fun _ => mkInstance (Some (v ≫= pk)) (Some v))).

Section Methods.

Context `{Folding}.
Variable tag_options : Options.
(** [self.field.required] *)
Variable required : bool.

Definition flush_actual : M World unit :=
  modify (set_instance (fun i => mkInstance (attname i) None)).

Definition get_actual : M World (option Tag) :=
  do a <- gets (fun w => attname (instance w));
  match a with
  | Some _ => descriptor__get__
  | None => ret None
  end.

Definition set_actual (v : option Tag) : M World unit := descriptor__set__ v.

Definition __init__ (d : table) (i : Instance) : outcome unit * World :=
  (do actual <- get_actual;
   modify (set_manager (fun _ => mkManager false (name <$> actual) actual None)))
    (mkWorld d i (mkManager false None None None)).

Definition get : M World (option Tag) :=
  do c <- gets (fun w => changed (manager w));
  if c then
    do n <- gets (fun w => tag_name (manager w));
    match n with
    | Some tn =>
        if truthy_name n then
          do found <- gets (fun w => lookup_name (case_sensitive tag_options) tn (db w));
          match found with
          | Ok tag => ret (Some tag)
          | Raise DoesNotExist =>
              do tc <- gets (fun w => tag_cache (manager w));
              run (match tc with
                   | None => modify (set_manager (with_tag_cache (Some (mkTag None tn false))))
                   | Some _ => ret tt
                   end);
              gets (fun w => tag_cache (manager w))
          | Raise e => raise e
          end
        else ret None
    | None => ret None
    end
  else get_actual.

(** The first half of [set]: the tag name that the value stands for. *)
Definition parsed_tag_name (v : set_value) : option string :=
  match v with
  | SNone => Some EmptyString
  | SStr EmptyString => Some EmptyString
  | SStr s =>
      let s := if force_lowercase tag_options then lower s else s in
      match remove_quotes s with
      | EmptyString => None
      | n => Some n
      end
  | STag t => Some (name t)
  end.

Definition set (v : set_value) : M World unit :=
  let tag_name' := parsed_tag_name v in
  do cur <- gets (fun w => tag_name (manager w));
  if decide (cur = tag_name') then ret tt
  else
    modify (set_manager (fun m =>
      with_tag_cache None (with_tag_name tag_name' (with_changed true m)))).

(** [new_tag.save()] where [new_tag] has no primary key: such a tag is the
    object that [get] keeps in [tag_cache], so the primary key it gets is
    seen through [tag_cache] too. *)
Definition save_new_tag (t : Tag) : M World Tag :=
  fun w =>
    let '(t', d) := save_tag t (db w) in
    (Ok t', set_manager (with_tag_cache (Some t')) (set_db (fun _ => d) w)).

Definition pre_save_handler : M World unit :=
  do new_tag <- get;
  if bool_decide (new_tag = None) && required then raise ValidationError
  else
    do c <- gets (fun w => changed (manager w));
    if negb c then ret tt
    else
      run flush_actual;
      do old <- get_actual;
      run modify (set_manager (with_removed_tag old));
      do new_tag <- match new_tag with
                    | Some t =>
                        do t <- match pk t with
                                | None => save_new_tag t
                                | Some _ => ret t
                                end;
                        run modify (set_db (increment t));
                        ret (Some t)
                    | None => ret None
                    end;
      run set_actual new_tag;
      modify (set_manager (with_changed false)).

Definition post_save_handler : M World unit :=
  do r <- gets (fun w => removed_tag (manager w));
  match r with
  | Some t => modify (set_db (decrement t))
  | None => ret tt
  end.

Definition post_delete_handler : M World unit :=
  run flush_actual;
  do old_tag <- get_actual;
  match old_tag with
  | Some t =>
      run modify (set_db (decrement t));
      run set_actual None;
      do c <- gets (fun w => changed (manager w));
      run (if negb c then modify (set_manager (with_tag_name (Some (name t))))
           else ret tt);
      run modify (set_manager (with_tag_cache None));
      modify (set_manager (with_changed true))
  | None => ret tt
  end.

End Methods.
End SingleTagManager.

(** ** Manager mixin for [TagField] *)

(** What [add] and [remove] can be given: a tag name or a tag object. *)
Inductive tag_arg : Type :=
| AStr (s : string)
| ATag (t : Tag).

(** [Model.__eq__]: two tag objects are equal when their primary keys are;
    the managers only test membership against tags loaded from the table. *)
Definition tag_eqb (a b : Tag) : bool :=
  match pk a, pk b with
  | Some x, Some y => bool_decide (x = y)
  | _, _ => false
  end.

(** [tag in tags] *)
Definition tag_in (a : Tag) (l : list Tag) : bool := existsb (tag_eqb a) l.

(** [dict(pairs)]: a later pair overrides an earlier one with the same key. *)
Definition dict_of {V} (pairs : list (string * V)) : gmap string V :=
  foldl (fun m kv => <[kv.1 := kv.2]> m) ∅ pairs.

(** A loop that threads local variables [acc] through its body. *)
Fixpoint for_fold {S A B} (l : list A) (acc : B) (body : A → B → M S B)
  : M S B :=
  match l with
  | [] => ret acc
  | x :: l' => do acc' <- body x acc; for_fold l' acc' body
  end.

Module RelatedManagerTagMixin.

Record Manager : Type := mkManager {
  instance : bool;          (* truth value of [self.instance] *)
  tags : list Tag;
  changed : bool
}.

(** The tag table, the tags related to the instance (the rows of the
    many-to-many table that belong to it) and the manager. *)
Record World : Type := mkWorld {
  db : table;
  rel : gset positive;
  manager : Manager
}.

Definition set_db (f : table → table) (w : World) : World :=
  mkWorld (f (db w)) (rel w) (manager w).
Definition set_rel (f : gset positive → gset positive) (w : World) : World :=
  mkWorld (db w) (f (rel w)) (manager w).
Definition set_manager (f : Manager → Manager) (w : World) : World :=
  mkWorld (db w) (rel w) (f (manager w)).

Definition with_tags (l : list Tag) (m : Manager) : Manager :=
  mkManager (instance m) l (changed m).
Definition with_changed (b : bool) (m : Manager) : Manager :=
  mkManager (instance m) (tags m) b.

(** The related manager of the framework: [all], and the original [add],
    [remove] and [clear], which write the relation only. *)
Definition all (w : World) : list Tag :=
  of_row <$> filter (fun r => row_pk r ∈ rel w) (db w).

Definition _old_add (ts : list Tag) : M World unit :=
  modify (set_rel (fun s => s ∪ list_to_set (omap pk ts))).
Definition _old_remove (ts : list Tag) : M World unit :=
  modify (set_rel (fun s => s ∖ list_to_set (omap pk ts))).
Definition _old_clear : M World unit :=
  modify (set_rel (fun _ => ∅)).

(** [tag_model.objects.create(name=n, protected=False)] *)
Definition create (n : string) : M World Tag :=
  fun w => let '(t, d) := insert_row n false (db w) in (Ok t, set_db (fun _ => d) w).

Section Methods.

Context `{Folding}.
Variable tag_options : Options.
(** [tagulous.utils.parse_tags] is not among the source files. *)
Variable parse_tags : string → list string.

Definition cmp_name (n : string) : string :=
  if case_sensitive tag_options then n else lower n.

Definition reload : M World unit :=
  modify (fun w => set_manager (fun m => with_changed false (with_tags (all w) m)) w).

Definition __init_tagulous__ (d : table) (r : gset positive) (inst : bool)
  : outcome unit * World :=
  reload (mkWorld d r (mkManager inst [] false)).

Fixpoint _ensure_tags_db (ts : list Tag) : M World (list Tag) :=
  match ts with
  | [] => ret []
  | tag :: rest =>
      do db_tag <- match pk tag with
                   | Some _ => ret tag
                   | None =>
                       do found <- gets (fun w =>
                         lookup_name (case_sensitive tag_options) (name tag) (db w));
                       match found with
                       | Ok t => ret t
                       | Raise DoesNotExist => create (name tag)
                       | Raise e => raise e
                       end
                   end;
      do db_tags <- _ensure_tags_db rest;
      ret (db_tag :: db_tags)
  end.

(** The body of the first loop of [_add]: strings become tag objects. *)
Definition to_new_tag (tag : tag_arg) (new_tags : list Tag)
  : M World (list Tag) :=
  match tag with
  | AStr s => do t <- create s; ret (new_tags ++ [t])
  | ATag t => ret (new_tags ++ [t])
  end.

Definition _add (objs : list tag_arg) : M World unit :=
  do new_tags <- for_fold objs [] to_new_tag;
  run reload;
  do current_count <- gets (fun w => List.length (tags (manager w)));
  if bool_decide (max_count tag_options ≠ 0%Z)
     && bool_decide (max_count tag_options
                     < Z.of_nat current_count + Z.of_nat (List.length new_tags))%Z
  then raise ValueError
  else
    do db_tags <- _ensure_tags_db new_tags;
    run _old_add db_tags;
    for_each new_tags (fun tag =>
      run modify (set_manager (fun m => with_tags (tags m ++ [tag]) m));
      modify (set_db (increment tag))).

(** The body of the first loop of [_remove]: a string that names no tag is
    skipped. *)
Definition to_rm_tag (tag : tag_arg) (rm_tags : list Tag)
  : M World (list Tag) :=
  match tag with
  | AStr s =>
      do found <- gets (fun w => get_name s (db w));
      match found with
      | Ok t => ret (rm_tags ++ [t])
      | Raise DoesNotExist => ret rm_tags
      | Raise e => raise e
      end
  | ATag t => ret (rm_tags ++ [t])
  end.

Definition _remove (objs : list tag_arg) : M World unit :=
  do rm_tags <- for_fold objs [] to_rm_tag;
  run reload;
  do cur <- gets (fun w => tags (manager w));
  let rm_tags := List.filter (fun tag => tag_in tag rm_tags) cur in
  run modify (set_manager (with_tags
        (List.filter (fun tag => negb (tag_in tag rm_tags)) cur)));
  do db_tags <- _ensure_tags_db rm_tags;
  run _old_remove db_tags;
  for_each rm_tags (fun tag => modify (set_db (decrement tag))).

Definition _clear : M World unit :=
  run reload;
  run _old_clear;
  do cur <- gets (fun w => tags (manager w));
  run for_each cur (fun tag => modify (set_db (decrement tag)));
  modify (set_manager (with_tags [])).

(** The bodies of the two loops of [save]; [add] and [remove] are [_add]
    and [_remove], switched into place by the descriptor. *)
Definition add_if_new (new_tag : Tag) : M World unit :=
  do ts <- gets (fun w => tags (manager w));
  if negb (tag_in new_tag ts) then _add [ATag new_tag] else ret tt.

Definition remove_if_old (new_tags : list Tag) (old_tag : Tag) : M World unit :=
  if negb (tag_in old_tag new_tags) then _remove [ATag old_tag] else ret tt.

Definition save (force : bool) : M World unit :=
  do c <- gets (fun w => changed (manager w));
  if negb c && negb force then ret tt
  else
    do cur <- gets (fun w => tags (manager w));
    do new_tags <- _ensure_tags_db cur;
    run reload;
    run for_each new_tags add_if_new;
    do old_tags <- gets (fun w => tags (manager w));
    run for_each old_tags (remove_if_old new_tags);
    run modify (set_manager (with_tags new_tags));
    modify (set_manager (with_changed false)).

Definition get_tag_list : M World (list string) :=
  do i <- gets (fun w => instance (manager w));
  if negb i then raise (AttributeError "get_tag_list")
  else gets (fun w => name <$> tags (manager w)).

(** The body of the first loop of [set_tag_list], over the items of
    [old_tags]: its local variables are [new_tags] and [cmp_new_names]. *)
Definition see_staying (item : string * Tag)
    (vars : list Tag * gmap string string)
  : M World (list Tag * gmap string string) :=
  let '(cmp_old_name, old_tag) := item in
  let '(new_tags, cmp_new_names) := vars in
  if decide (cmp_old_name ∈ dom cmp_new_names)
  then ret (new_tags ++ [old_tag], delete cmp_old_name cmp_new_names)
  else run modify (set_manager (with_changed true));
       ret (new_tags, cmp_new_names).

(** The body of its second loop, over the names left in [cmp_new_names]. *)
Definition find_or_make (tag_name : string) (new_tags : list Tag)
  : M World (list Tag) :=
  do found <- gets (fun w =>
    lookup_name (case_sensitive tag_options) tag_name (db w));
  do tag <- match found with
            | Ok t => ret t
            | Raise DoesNotExist => ret (mkTag None tag_name false)
            | Raise e => raise e
            end;
  run modify (set_manager (with_changed true));
  ret (new_tags ++ [tag]).

Definition set_tag_list (tag_names : list string) : M World unit :=
  do i <- gets (fun w => instance (manager w));
  if negb i then raise (AttributeError "set_tag_list")
  else if bool_decide (max_count tag_options ≠ 0%Z)
          && bool_decide (max_count tag_options < Z.of_nat (List.length tag_names))%Z
  then raise ValueError
  else
    let tag_names :=
      if force_lowercase tag_options then lower <$> tag_names else tag_names in
    do cur <- gets (fun w => tags (manager w));
    let old_tags := dict_of ((fun tag => (cmp_name (name tag), tag)) <$> cur) in
    let cmp_new_names := dict_of ((fun n => (cmp_name n, n)) <$> tag_names) in
    do staying <- for_fold (map_to_list old_tags) ([], cmp_new_names) see_staying;
    do new_tags <- for_fold ((map_to_list staying.2).*2) staying.1 find_or_make;
    modify (set_manager (with_tags new_tags)).

Definition set_tag_string (tag_string : string) : M World unit :=
  do i <- gets (fun w => instance (manager w));
  if negb i then raise (AttributeError "set_tag_string")
  else set_tag_list (parse_tags tag_string).

(** [BaseTagManager.__eq__] as the related manager inherits it, [other]
    being the string that the other value formats to. The loop that answers
    [False] at the first tag it misses is [forallb]. *)
Definition __eq__ (other : string) : M World bool :=
  let lower_flag :=
    force_lowercase tag_options || negb (case_sensitive tag_options) in
  let other_str := if lower_flag then lower other else other in
  let other_tags := parse_tags other_str in
  do self_tags <- get_tag_list;
  if bool_decide (List.length other_tags ≠ List.length self_tags) then ret false
  else
    ret (forallb (fun tag =>
                    let tag := if lower_flag then lower tag else tag in
                    bool_decide (tag ∈ other_tags))
           self_tags).

Definition __ne__ (other : string) : M World bool :=
  do b <- __eq__ other;
  ret (negb b).

End Methods.
End RelatedManagerTagMixin.

(** ** Vocabulary of the statements *)

Section Vocabulary.

Context `{Folding}.
Variable tag_options : Options.

(** The tag a name stands for: the record that the lookup finds, or an
    unsaved tag of that name. *)
Definition resolved (t : table) (n : string) : Tag :=
  match lookup_name (case_sensitive tag_options) n t with
  | Ok tag => tag
  | Raise _ => mkTag None n false
  end.

(** The lookup of a name does not find several records. *)
Definition unambiguous (t : table) (n : string) : Prop :=
  lookup_name (case_sensitive tag_options) n t ≠ Raise MultipleObjectsReturned.

(** A record matches a name under the case rule of the field. *)
Definition matches (n : string) (r : TagRow) : Prop :=
  if case_sensitive tag_options then row_name r = n
  else iexact_key (row_name r) = iexact_key n.

(** The records that match a name: those among which the lookups of the
    field look. *)
Definition matching (n : string) (t : table) : list TagRow :=
  if case_sensitive tag_options
  then filter (fun r => row_name r = n) t
  else filter (fun r => iexact_key (row_name r) = iexact_key n) t.


(** The lookup of a name agrees with the comparison that the manager makes:
    a record that it finds has the comparison name of the name looked up.
    The lookup is the database's and the comparison the interpreter's; with
    a case sensitive field they always agree. *)
Definition lookup_agrees (t : table) (n : string) : Prop :=
  ∀ tag, lookup_name (case_sensitive tag_options) n t = Ok tag →
         RelatedManagerTagMixin.cmp_name tag_options (name tag)
         = RelatedManagerTagMixin.cmp_name tag_options n.

(** The names [set_tag_list] works on. *)
Definition normalized (tag_names : list string) : list string :=
  if force_lowercase tag_options then lower <$> tag_names else tag_names.

(** The comparison names of a list of tags. *)
Definition cmp_names (ts : list Tag) : list string :=
  (fun tag => RelatedManagerTagMixin.cmp_name tag_options (name tag)) <$> ts.

(** The last tag of a list that has a given comparison name. *)
Definition last_tag_named (k : string) (ts : list Tag) : option Tag :=
  last (filter (fun tag => RelatedManagerTagMixin.cmp_name tag_options (name tag) = k) ts).

(** The last name of a list that has a given comparison name. *)
Definition last_name_like (k : string) (ns : list string) : option string :=
  last (filter (fun n => RelatedManagerTagMixin.cmp_name tag_options n = k) ns).

(** The dictionaries of [set_tag_list]: the old tags of the manager by
    comparison name, the new names by comparison name, and the new names
    that are left when the first loop is over. *)
Definition old_tags_of (w : RelatedManagerTagMixin.World) : gmap string Tag :=
  dict_of ((fun tag => (RelatedManagerTagMixin.cmp_name tag_options (name tag), tag))
             <$> RelatedManagerTagMixin.tags (RelatedManagerTagMixin.manager w)).
Definition cmp_new_names_of (tag_names : list string) : gmap string string :=
  dict_of ((fun n => (RelatedManagerTagMixin.cmp_name tag_options n, n))
             <$> normalized tag_names).
Definition names_left (w : RelatedManagerTagMixin.World)
    (tag_names : list string) : gmap string string :=
  foldl (fun m k => delete k m) (cmp_new_names_of tag_names)
    (map_to_list (old_tags_of w)).*1.

End Vocabulary.

(** [self.changed = True] *)
Definition mark_changed (w : RelatedManagerTagMixin.World)
  : RelatedManagerTagMixin.World :=
  RelatedManagerTagMixin.set_manager (RelatedManagerTagMixin.with_changed true) w.

(** The primary keys of a list of tags. *)
Definition pks (ts : list Tag) : gset positive := list_to_set (omap pk ts).

(** A table is well formed when no two rows share a primary key. *)
Definition wf_table (t : table) : Prop := NoDup (row_pk <$> t).

(** No two rows have one name, as the lookups of the field compare names. *)
Definition names_unique `{Folding} (case_sensitive : bool) (t : table) : Prop :=
  NoDup ((fun r => if case_sensitive then row_name r
                   else iexact_key (row_name r)) <$> t).

(** The primary keys of the rows of a table. *)
Definition table_pks (t : table) : gset positive := list_to_set (row_pk <$> t).

(** The relation of the instance refers to tag records only. *)
Definition wf_rel (w : RelatedManagerTagMixin.World) : Prop :=
  RelatedManagerTagMixin.rel w ⊆ table_pks (RelatedManagerTagMixin.db w).

(** What the first loop of [save] keeps: the table and the relation are
    well formed, and the tags of the manager are saved tags, those of the
    relation. *)
Definition save_inv (w : RelatedManagerTagMixin.World) : Prop :=
  wf_table (RelatedManagerTagMixin.db w) ∧ wf_rel w ∧
  pks (RelatedManagerTagMixin.tags (RelatedManagerTagMixin.manager w))
  = RelatedManagerTagMixin.rel w ∧
  Forall (fun t => is_Some (pk t))
    (RelatedManagerTagMixin.tags (RelatedManagerTagMixin.manager w)).

(** ** Sample data *)

(** A folding to run the model on: the interpreter and the database both
    lowercase the ASCII letters and leave every other character alone. *)
Definition lower_ascii (c : ascii) : ascii :=
  let n := nat_of_ascii c in
  if (65 <=? n)%nat && (n <=? 90)%nat then ascii_of_nat (n + 32) else c.

Fixpoint ascii_lower (s : string) : string :=
  match s with
  | EmptyString => EmptyString
  | String c s' => String (lower_ascii c) (ascii_lower s')
  end.

#[export] Instance ascii_folding : Folding | 100.
Proof.
  refine {| lower := ascii_lower; iexact_key := ascii_lower |}.
  - induction s as [|c s IH]; [done|]. cbn [ascii_lower]. f_equal; [|done].
    destruct c as [[] [] [] [] [] [] [] []]; reflexivity.
  - induction s as [|c s IH]; [done|]. cbn [ascii_lower remove_quotes].
    destruct (decide (c = quote_char)) as [->|Hc].
    + rewrite decide_True by reflexivity. done.
    + rewrite decide_False.
      * cbn [ascii_lower]. by rewrite IH.
      * intros Hq. apply Hc. revert Hq.
        destruct c as [[] [] [] [] [] [] [] []]; vm_compute; congruence.
  - intros s. by destruct s.
Defined.

Definition sample_options : Options :=
  {| case_sensitive := false; force_lowercase := false; max_count := 0 |}.

(** Options of a field that takes one tag at most. *)
Definition single_tag_options : Options :=
  {| case_sensitive := false; force_lowercase := false; max_count := 1 |}.

Definition sample_table : table :=
  [ {| row_pk := 1; row_name := "a"; row_count := 1; row_protected := false |};
    {| row_pk := 2; row_name := "b"; row_count := 0; row_protected := false |} ].

(** A single tag manager on an instance that has no tag. *)
Definition single_untagged : SingleTagManager.World :=
  (SingleTagManager.__init__ sample_table
     (SingleTagManager.mkInstance (Some None) None)).2.

(** A single tag manager on an instance tagged [a]. *)
Definition single_tagged_a : SingleTagManager.World :=
  (SingleTagManager.__init__ sample_table
     (SingleTagManager.mkInstance (Some (Some 1%positive)) None)).2.

(** The same, after [set] with the name [b]. *)
Definition single_a_pending_b : SingleTagManager.World :=
  (SingleTagManager.set sample_options (SStr "b") single_tagged_a).2.

(** Saving the instance: the framework calls [pre_save_handler], writes
    the row of the instance, and calls [post_save_handler]. *)
Definition save_instance `{Folding} (o : Options) (required : bool)
  : M SingleTagManager.World unit :=
  run SingleTagManager.pre_save_handler o required;
  SingleTagManager.post_save_handler.

(** The instance tagged [a] is given the tag [b] and saved. *)
Definition single_saved_b : SingleTagManager.World :=
  (save_instance sample_options false single_a_pending_b).2.

(** A sample of option defaults, to run the model on. *)
Definition sample_defaults : gmap string value :=
  <["initial" := VStr EmptyString]>
    (<["case_sensitive" := VBool false]>
       (<["force_lowercase" := VBool false]> (<["max_count" := VInt 0]> ∅))).

(** Stand-ins for [parse_tags] and [render_tags], to run the model on: a tag
    string holds one tag, a list of tags is rendered with commas between
    them, and a value that is no list cannot be iterated. *)
Definition sample_parse_tags (s : string) : list string := [s].
Definition sample_render_tags (v : value) : outcome string :=
  match v with
  | VList l => Ok (String.concat ", " l)
  | _ => Raise TypeError
  end.

(** A table where two tags differ by case only. *)
Definition cased_table : table :=
  [ {| row_pk := 1; row_name := "Foo"; row_count := 1; row_protected := false |};
    {| row_pk := 2; row_name := "foo"; row_count := 1; row_protected := false |};
    {| row_pk := 3; row_name := "bar"; row_count := 0; row_protected := false |} ].

(** The manager of an instance tagged [Foo] and [foo]. *)
Definition related_Foo_foo : RelatedManagerTagMixin.World :=
  (RelatedManagerTagMixin.__init_tagulous__ cased_table
     {[1%positive; 2%positive]} true).2.

(** The manager of an instance tagged [Foo]. *)
Definition related_Foo : RelatedManagerTagMixin.World :=
  (RelatedManagerTagMixin.__init_tagulous__ cased_table {[1%positive]} true).2.

(** Options of a case sensitive field. *)
Definition cased_options : Options :=
  {| case_sensitive := true; force_lowercase := false; max_count := 0 |}.

(** The instance tagged [Foo] is to be tagged [bar] and [new] instead. *)
Definition related_wants_bar_new : RelatedManagerTagMixin.World :=
  (RelatedManagerTagMixin.set_tag_list cased_options ["bar"; "new"] related_Foo).2.

(** On a field that takes one tag, the instance tagged [Foo] is to be
    tagged [bar] instead. *)
Definition related_wants_bar : RelatedManagerTagMixin.World :=
  (RelatedManagerTagMixin.set_tag_list single_tag_options ["bar"] related_Foo).2.

(** * Part II: properties *)


(** ** The monad *)

Lemma for_each_app {S A} (l1 l2 : list A) (body : A → M S unit) s :
  for_each (l1 ++ l2) body s =
  match for_each l1 body s with
  | (Ok _, s') => for_each l2 body s'
  | (Raise e, s') => (Raise e, s')
  end.
Proof.
  revert s. induction l1 as [|x l1 IH]; intros s; simpl; [done|].
  unfold bind. destruct (body x s) as [[[]|e] s']; [apply IH|done].
Qed.

Lemma for_each_cons {S A} (x : A) (l : list A) (body : A → M S unit) s :
  for_each (x :: l) body s =
  match body x s with
  | (Ok _, s') => for_each l body s'
  | (Raise e, s') => (Raise e, s')
  end.
Proof. reflexivity. Qed.

Lemma for_fold_cons {S A B} (x : A) (l : list A) (acc : B)
    (body : A → B → M S B) s :
  for_fold (x :: l) acc body s =
  match body x acc s with
  | (Ok acc', s') => for_fold l acc' body s'
  | (Raise e, s') => (Raise e, s')
  end.
Proof. reflexivity. Qed.

(** A property of the state that every step of a loop keeps is kept by the
    loop, whatever its outcome. *)
Lemma for_each_invariant {S A} (P : S → Prop) (l : list A) (body : A → M S unit) :
  (∀ x s, P s → P (body x s).2) →
  ∀ s, P s → P (for_each l body s).2.
Proof.
  intros Hbody. induction l as [|x l IH]; intros s Hs; simpl; [done|].
  unfold bind. specialize (Hbody x s Hs).
  destruct (body x s) as [[[]|e] s']; simpl in *; [by apply IH|done].
Qed.

(** ** Tag options *)

Lemma initial_no_attribute :
  "initial" ∉ TagOptions.CLASS_ATTRIBUTES ++ TagOptions.OBJECT_ATTRIBUTES.
Proof. intros H%list_elem_of_In. simpl in H. intuition discriminate. Qed.

Lemma initial_string_no_attribute :
  "initial_string" ∉ TagOptions.CLASS_ATTRIBUTES ++ TagOptions.OBJECT_ATTRIBUTES.
Proof. intros H%list_elem_of_In. simpl in H. intuition discriminate. Qed.

Section OptionsFacts.

Import TagOptions.

Variable OPTION_DEFAULTS : gmap string value.
Variable parse_tags : string → list string.
Variable render_tags : value → outcome string.

(** What the model asks of the constants: [initial] is an option, and
    neither the names of [PROPERTIES] nor the attributes of the class are. *)
Hypothesis initial_is_option : is_Some (OPTION_DEFAULTS !! "initial").
Hypothesis properties_not_options :
  Forall (fun p => OPTION_DEFAULTS !! p = None) PROPERTIES.
Hypothesis attributes_not_options :
  Forall (fun a => OPTION_DEFAULTS !! a = None)
    (CLASS_ATTRIBUTES ++ OBJECT_ATTRIBUTES).

Local Abbreviation setattr := (__setattr__ OPTION_DEFAULTS parse_tags render_tags).
Local Abbreviation init := (__init__ OPTION_DEFAULTS parse_tags render_tags).
Local Abbreviation add := (__add__ OPTION_DEFAULTS parse_tags render_tags).
Local Abbreviation getattr := (getattr OPTION_DEFAULTS).
Local Abbreviation valid := (valid OPTION_DEFAULTS).

Lemma valid_empty : valid ∅.
Proof. intros n Hn. by rewrite dom_empty_L in Hn. Qed.

Lemma valid_insert n v d :
  recognized OPTION_DEFAULTS n → valid d → valid (<[n := v]> d).
Proof.
  intros Hn Hd k. rewrite dom_insert_L, elem_of_union, elem_of_singleton.
  intros [->|Hk]; [done|by apply Hd].
Qed.

Lemma setattr_valid n v d : valid d → valid (setattr n v d).2.
Proof.
  intros Hd. unfold __setattr__.
  destruct (decide (n = "initial")) as [->|Hn].
  - destruct v; simpl; try destruct (render_tags _) as [s|e]; simpl; try done;
      (apply valid_insert; [right; by left|];
       apply valid_insert; [right; by right|done]).
  - destruct (decide (n ∈ dom OPTION_DEFAULTS)); simpl; [|done].
    apply valid_insert; [by left|done].
Qed.

Lemma setattr_unknown n v d :
  n ≠ "initial" → n ∉ dom OPTION_DEFAULTS →
  setattr n v d = (Raise (AttributeError n), d).
Proof.
  intros Hn Hd. unfold __setattr__.
  destruct (decide (n = "initial")); [done|].
  by destruct (decide (n ∈ dom OPTION_DEFAULTS)).
Qed.

Lemma init_valid kwargs : valid (init kwargs).2.
Proof.
  unfold __init__.
  apply (for_each_invariant valid); [|apply valid_empty].
  intros [n v] d Hd. by apply setattr_valid.
Qed.

Lemma add_valid a b : valid (add a b).2.
Proof.
  unfold __add__, items, _get_items. apply init_valid.
Qed.

Lemma getattr_option n d :
  n ∈ dom OPTION_DEFAULTS →
  ∃ dflt, OPTION_DEFAULTS !! n = Some dflt ∧
          getattr n d = (Ok (default dflt (d !! n)), d).
Proof.
  intros [dflt Hn]%elem_of_dom. exists dflt. split; [done|].
  unfold TagOptions.getattr. destruct (d !! n) as [v|] eqn:Hd; [done|].
  destruct (decide (n ∈ CLASS_ATTRIBUTES ++ OBJECT_ATTRIBUTES)) as [Ha|_].
  { rewrite Forall_forall in attributes_not_options.
    apply attributes_not_options in Ha. congruence. }
  unfold __getattr__. destruct (decide (n ∈ PROPERTIES)) as [Hp|_].
  - rewrite Forall_forall in properties_not_options.
    apply properties_not_options in Hp. congruence.
  - by rewrite Hn, Hd.
Qed.

Lemma getattr_attribute n d :
  valid d → n ∈ CLASS_ATTRIBUTES ++ OBJECT_ATTRIBUTES →
  getattr n d = (Ok (VAttr n), d).
Proof.
  intros Hd Ha. unfold TagOptions.getattr.
  destruct (d !! n) as [v|] eqn:Hdn; [|by rewrite decide_True].
  exfalso. destruct (Hd n) as [Ho|[-> | ->]]; [by apply elem_of_dom| | |].
  - rewrite Forall_forall in attributes_not_options.
    apply attributes_not_options in Ha.
    apply elem_of_dom in Ho as [x Hx]. congruence.
  - by apply initial_no_attribute.
  - by apply initial_string_no_attribute.
Qed.

Lemma getattr_other n d :
  valid d → n ∉ dom OPTION_DEFAULTS → n ∉ PROPERTIES →
  n ∉ CLASS_ATTRIBUTES ++ OBJECT_ATTRIBUTES →
  getattr n d = (Raise (AttributeError n), d).
Proof.
  intros Hd Hn Hp Ha. unfold TagOptions.getattr.
  destruct (d !! n) as [v|] eqn:Hdn.
  - exfalso. destruct (Hd n) as [?|[-> | ->]]; [by apply elem_of_dom|done| |].
    + apply Hn. by apply elem_of_dom.
    + apply Hp. unfold PROPERTIES. apply list_elem_of_In. simpl. tauto.
  - rewrite decide_False by done.
    unfold __getattr__. destruct (decide (n ∈ PROPERTIES)); [done|].
    apply not_elem_of_dom in Hn. by rewrite Hn.
Qed.

(** C10, as the code has it. A [TagOptions] object stores only recognized
    names, whatever [__init__], [__setattr__] and [__add__] do; setting a
    name that is neither [initial] nor an option raises [AttributeError] and
    stores nothing; reading an option succeeds with the stored value, or the
    default when unset; reading an attribute of the class succeeds too, with
    that attribute; reading any other name outside [PROPERTIES] raises
    [AttributeError]. *)
Theorem tag_options_recognized_names :
  (∀ kwargs, valid (init kwargs).2) ∧
  (∀ n v d, valid d → valid (setattr n v d).2) ∧
  (∀ a b, valid (add a b).2) ∧
  (∀ n v d, n ≠ "initial" → n ∉ dom OPTION_DEFAULTS →
     setattr n v d = (Raise (AttributeError n), d)) ∧
  (∀ n d, n ∈ dom OPTION_DEFAULTS →
     ∃ dflt, OPTION_DEFAULTS !! n = Some dflt ∧
             getattr n d = (Ok (default dflt (d !! n)), d)) ∧
  (∀ n d, valid d → n ∈ CLASS_ATTRIBUTES ++ OBJECT_ATTRIBUTES →
     getattr n d = (Ok (VAttr n), d)) ∧
  (∀ n d, valid d → n ∉ dom OPTION_DEFAULTS → n ∉ PROPERTIES →
     n ∉ CLASS_ATTRIBUTES ++ OBJECT_ATTRIBUTES →
     getattr n d = (Raise (AttributeError n), d)).
Proof.
  split; [exact init_valid|].
  split; [exact setattr_valid|].
  split; [exact add_valid|].
  split; [exact setattr_unknown|].
  split; [exact getattr_option|].
  split; [exact getattr_attribute|exact getattr_other].
Qed.

End OptionsFacts.

Lemma sample_attributes_not_options :
  Forall (fun a => sample_defaults !! a = None)
    (TagOptions.CLASS_ATTRIBUTES ++ TagOptions.OBJECT_ATTRIBUTES).
Proof. repeat constructor. Qed.

Lemma tag_options_recognized_names_witness :
  is_Some (sample_defaults !! "initial") ∧
  Forall (fun p => sample_defaults !! p = None) TagOptions.PROPERTIES ∧
  TagOptions.getattr sample_defaults "max_count" ∅ = (Ok (VInt 0), ∅) ∧
  TagOptions.__setattr__ sample_defaults sample_parse_tags sample_render_tags
    "colour" VNone ∅ = (Raise (AttributeError "colour"), ∅).
Proof.
  assert (Hi : is_Some (sample_defaults !! "initial")) by (eexists; reflexivity).
  assert (Hp : Forall (fun p => sample_defaults !! p = None) TagOptions.PROPERTIES)
    by (repeat constructor).
  pose proof (tag_options_recognized_names sample_defaults
                sample_parse_tags sample_render_tags Hi Hp
                sample_attributes_not_options)
    as (_ & _ & _ & Hset & Hget & _).
  split; [exact Hi|]. split; [exact Hp|]. split.
  - destruct (Hget "max_count" ∅) as (dflt & Hd & ->).
    + apply elem_of_dom. eexists. reflexivity.
    + vm_compute in Hd. by injection Hd as <-.
  - apply Hset; [done|]. apply not_elem_of_dom. reflexivity.
Defined.

(** C10 as stated fails for the names that the class itself gives: [items]
    is neither an option nor one of [PROPERTIES], and the object stores only
    recognized names, yet reading it answers the method and does not raise
    [AttributeError]. *)
Lemma reading_a_method_succeeds :
  TagOptions.valid sample_defaults ∅ ∧
  "items" ∉ dom sample_defaults ∧ "items" ∉ TagOptions.PROPERTIES ∧
  TagOptions.getattr sample_defaults "items" ∅ = (Ok (VAttr "items"), ∅) ∧
  TagOptions.getattr sample_defaults "items" ∅
  ≠ (Raise (AttributeError "items"), ∅).
Proof.
  split; [intros n Hn; by rewrite dom_empty_L in Hn|].
  split; [apply not_elem_of_dom; reflexivity|].
  split; [intros H%list_elem_of_In; simpl in H; intuition discriminate|].
  split; [reflexivity|discriminate].
Qed.

(** ** The tag table *)

Ltac unfold_monad :=
  unfold bind, gets, ret, modify, raise in *; simpl in *.

Lemma filter_fmap_stable {A} (P : A → Prop) `{!∀ x, Decision (P x)}
    (f : A → A) (l : list A) :
  (∀ x, P (f x) ↔ P x) → filter P (f <$> l) = f <$> filter P l.
Proof.
  intros Hiff. induction l as [|x l IH]; [done|].
  rewrite fmap_cons, !filter_cons.
  destruct (decide (P (f x))) as [H1|H1], (decide (P x)) as [H2|H2];
    rewrite ?fmap_cons, IH; try done; exfalso.
  - apply H2, Hiff, H1.
  - apply H1, Hiff, H2.
Qed.

Lemma objects_get_fmap (f : TagRow → TagRow) (l : list TagRow) :
  (∀ r, of_row (f r) = of_row r) → objects_get (f <$> l) = objects_get l.
Proof.
  intros Hf. destruct l as [|r [|r' l]]; simpl; [done| |done].
  by rewrite Hf.
Qed.

(** Changing a count changes no answer of a lookup. *)
Lemma lookup_name_change_count `{!Folding} cs n delta p t :
  lookup_name cs n (change_count delta p t) = lookup_name cs n t.
Proof.
  unfold lookup_name, get_name, get_name__iexact, change_count.
  destruct cs.
  - rewrite filter_fmap_stable; [apply objects_get_fmap|];
      intros r; by destruct (decide (row_pk r = p)).
  - rewrite filter_fmap_stable; [apply objects_get_fmap|];
      intros r; by destruct (decide (row_pk r = p)).
Qed.

Lemma get_pk_change_count q delta p t :
  get_pk q (change_count delta p t) = get_pk q t.
Proof.
  unfold get_pk, change_count.
  rewrite filter_fmap_stable; [apply objects_get_fmap|];
    intros r; by destruct (decide (row_pk r = p)).
Qed.

Lemma count_of_change_count q delta p t :
  count_of q (change_count delta p t) =
  (fun c => if decide (q = p) then (c + delta)%Z else c) <$> count_of q t.
Proof.
  unfold count_of, change_count.
  rewrite filter_fmap_stable
    by (intros r; by destruct (decide (row_pk r = p))).
  destruct (filter (fun r => row_pk r = q) t) as [|r l] eqn:Hf; [done|].
  assert (Hr : row_pk r = q).
  { assert (r ∈ filter (fun r => row_pk r = q) t) as Hin
      by (rewrite Hf; left).
    by apply list_elem_of_filter in Hin as [? _]. }
  simpl. subst q.
  by destruct (decide (row_pk r = p)).
Qed.

Lemma lookup_name_found `{!Folding} cs n t tag :
  lookup_name cs n t = Ok tag →
  ∃ r, r ∈ t ∧ tag = of_row r ∧
       (if cs then row_name r = n
        else iexact_key (row_name r) = iexact_key n).
Proof.
  unfold lookup_name, get_name, get_name__iexact, objects_get.
  destruct cs.
  - destruct (filter _ t) as [|r [|? ?]] eqn:Hf; intros [= <-].
    assert (r ∈ filter (fun r => row_name r = n) t) as Hin
      by (rewrite Hf; left).
    apply list_elem_of_filter in Hin as [? ?]. eauto.
  - destruct (filter _ t) as [|r [|? ?]] eqn:Hf; intros [= <-].
    assert (r ∈ filter (fun r => iexact_key (row_name r) = iexact_key n) t)
      as Hin
      by (rewrite Hf; left).
    apply list_elem_of_filter in Hin as [? ?]. eauto.
Qed.

Lemma lookup_name_pk `{!Folding} cs n t tag :
  lookup_name cs n t = Ok tag → is_Some (pk tag).
Proof. intros (r & _ & -> & _)%lookup_name_found. by eexists. Qed.

Lemma fresh_pk_gt (t : table) r : r ∈ t → (row_pk r < fresh_pk t)%positive.
Proof.
  unfold fresh_pk. induction t as [|x t IH]; [by intros ?%elem_of_nil|].
  rewrite fmap_cons. simpl. intros [->|Hin]%elem_of_cons; [lia|].
  specialize (IH Hin). lia.
Qed.

Lemma change_count_absent delta p (t : table) :
  (∀ r, r ∈ t → row_pk r ≠ p) → change_count delta p t = t.
Proof.
  intros Hp. unfold change_count.
  rewrite <- (list_fmap_id t) at 2. apply list_fmap_ext.
  intros _ r Hr%list_elem_of_lookup_2. simpl.
  by rewrite decide_False by by apply Hp.
Qed.

(** Counting a record that was just inserted. *)
Lemma increment_inserted n prot (t : table) :
  increment (insert_row n prot t).1 (insert_row n prot t).2
  = t ++ [mkRow (fresh_pk t) n 1 prot].
Proof.
  unfold insert_row, increment. simpl. unfold change_count.
  rewrite fmap_app. simpl. rewrite decide_True by done. f_equal.
  apply (change_count_absent 1 (fresh_pk t)).
  intros r Hr%fresh_pk_gt. lia.
Qed.

(** ** Manager for [SingleTagField] *)

Arguments SingleTagManager.truthy_name : simpl never.
Arguments lookup_name : simpl never.
Arguments get_pk : simpl never.
Arguments change_count : simpl never.
Arguments count_of : simpl never.
Arguments insert_row : simpl never.

Section SingleFacts.

Import SingleTagManager.

Context `{!Folding}.
Variable tag_options : Options.

Local Abbreviation get := (get tag_options).
Local Abbreviation set := (set tag_options).
Local Abbreviation pre_save_handler := (pre_save_handler tag_options).

(** [get] answers [None] only when the pending name is empty or when no tag
    is stored; it then leaves the manager, the table and [attname] alone. *)
Lemma get_None w w' :
  get w = (Ok None, w') →
  manager w' = manager w ∧ db w' = db w ∧
  attname (instance w') = attname (instance w).
Proof.
  unfold SingleTagManager.get, get_actual, descriptor__get__. unfold_monad.
  destruct (changed (manager w)).
  - destruct (tag_name (manager w)) as [tn|]; [|by intros [= <-]].
    destruct (truthy_name (Some tn)); [|by intros [= <-]].
    destruct (lookup_name _ tn (db w)) as [tag|[]]; try by intros [=].
    destruct (tag_cache (manager w)) eqn:Htc; simpl; rewrite ?Htc; by intros [=].
  - destruct (attname (instance w)) as [[p|]|] eqn:Ha.
    + destruct (cache (instance w)) as [rel|].
      * intros ?; by simplify_eq.
      * rewrite Ha. destruct (get_pk p (db w)); by intros [=].
    + destruct (cache (instance w)) as [rel|].
      * intros ?; by simplify_eq.
      * rewrite Ha. intros ?; simplify_eq. simpl. by rewrite Ha.
    + intros ?; by simplify_eq.
Qed.

(** C9. When [get] resolves to no tag and the field is required,
    [pre_save_handler] raises [ValidationError], whether the field has been
    changed or not, and leaves the manager, the table and the stored
    primary key as they were. *)
Theorem pre_save_required_raises w w' :
  get w = (Ok None, w') →
  pre_save_handler true w = (Raise ValidationError, w') ∧
  manager w' = manager w ∧ db w' = db w ∧
  attname (instance w') = attname (instance w).
Proof.
  intros Hget. split; [|by apply get_None].
  unfold SingleTagManager.pre_save_handler, bind. by rewrite Hget.
Qed.

Lemma get_pk_found p t tag :
  get_pk p t = Ok tag → pk tag = Some p.
Proof.
  unfold get_pk, objects_get.
  destruct (filter _ t) as [|r [|? ?]] eqn:Hf; intros [= <-].
  assert (r ∈ filter (fun r => row_pk r = p) t) as Hin by (rewrite Hf; left).
  apply list_elem_of_filter in Hin as [<- _]. done.
Qed.

Lemma change_count_inverse delta p t :
  change_count delta p (change_count (- delta) p t) = t.
Proof.
  unfold change_count. rewrite <- list_fmap_compose.
  rewrite <- (list_fmap_id t) at 2. apply list_fmap_ext.
  intros _ [q n c pr] _. simpl.
  destruct (decide (q = p)) as [->|]; simpl.
  - rewrite decide_True by done. f_equal. lia.
  - by rewrite decide_False.
Qed.

Lemma truthy_name_Some n : n ≠ EmptyString → truthy_name (Some n) = true.
Proof. by destruct n. Qed.

(** What [post_delete_handler] does when a tag is stored. *)
Lemma post_delete_stored w p t :
  attname (instance w) = Some (Some p) →
  get_pk p (db w) = Ok t →
  post_delete_handler w =
  (Ok tt,
   mkWorld (decrement t (db w))
     (mkInstance (Some None) (Some None))
     (mkManager true
        (if changed (manager w) then tag_name (manager w) else Some (name t))
        None (removed_tag (manager w)))).
Proof.
  intros Ha Hp.
  unfold post_delete_handler, flush_actual, get_actual, descriptor__get__,
    set_actual, descriptor__set__.
  unfold_monad. rewrite Ha. simpl. rewrite Ha, Hp. simpl.
  by destruct (changed (manager w)).
Qed.

(** What it does when none is. *)
Lemma post_delete_not_stored w :
  attname (instance w) = None ∨ attname (instance w) = Some None →
  ∃ w', post_delete_handler w = (Ok tt, w') ∧
        manager w' = manager w ∧ db w' = db w ∧
        attname (instance w') = attname (instance w).
Proof.
  intros Ha.
  unfold post_delete_handler, flush_actual, get_actual, descriptor__get__.
  unfold_monad. destruct Ha as [Ha|Ha]; rewrite Ha; simpl; rewrite ?Ha;
    eexists; (split; [done|]); simpl; by rewrite ?Ha.
Qed.

(** Saving the instance after [post_delete_handler] puts the tag back. *)
Lemma pre_save_after_post_delete required w w' p t :
  attname (instance w) = Some (Some p) →
  get_pk p (db w) = Ok t →
  changed (manager w) = false →
  name t ≠ EmptyString →
  lookup_name (case_sensitive tag_options) (name t) (db w) = Ok t →
  post_delete_handler w = (Ok tt, w') →
  pre_save_handler required w' =
  (Ok tt,
   mkWorld (db w)
     (mkInstance (Some (Some p)) (Some (Some t)))
     (mkManager false (Some (name t)) None None)).
Proof.
  intros Ha Hp Hc Hn Hl Hdel.
  rewrite (post_delete_stored w p t Ha Hp), Hc in Hdel.
  injection Hdel as <-.
  pose proof (get_pk_found _ _ _ Hp) as Hpk.
  unfold SingleTagManager.pre_save_handler, SingleTagManager.get, flush_actual,
    get_actual, descriptor__get__, set_actual, descriptor__set__, decrement,
    increment.
  unfold_monad. rewrite (truthy_name_Some _ Hn), Hpk. cbn.
  rewrite lookup_name_change_count, Hl. cbn.
  rewrite Hpk. unfold set_manager, set_instance, set_db. cbn. rewrite Hpk.
  pose proof (change_count_inverse 1 p (db w)) as Hinv.
  change (- (1))%Z with (-1)%Z in Hinv. by rewrite Hinv.
Qed.

(** C6, as the code has it.  With a tag stored, [post_delete_handler]
    lowers its count by one, clears the stored association and marks the
    manager changed, with the old tag's name unless a change was pending
    already, in which case the pending name stays; when no change was
    pending, the name of the old tag is not empty and the lookup of that
    name under the case rule of the field finds the old tag, saving the
    instance again restores the association and the count.  With no tag
    stored it changes neither the manager, nor the table, nor the stored
    primary key. *)
Theorem post_delete_handler_spec w :
  (∀ p t,
     attname (instance w) = Some (Some p) →
     get_pk p (db w) = Ok t →
     ∃ w', post_delete_handler w = (Ok tt, w') ∧
       db w' = change_count (-1) p (db w) ∧
       (∀ q, count_of q (db w') =
             (fun c => if decide (q = p) then (c + -1)%Z else c)
               <$> count_of q (db w)) ∧
       attname (instance w') = Some None ∧
       changed (manager w') = true ∧
       tag_name (manager w') =
         (if changed (manager w) then tag_name (manager w)
          else Some (name t)) ∧
       (changed (manager w) = false →
        name t ≠ EmptyString →
        lookup_name (case_sensitive tag_options) (name t) (db w) = Ok t →
        ∀ required, ∃ w'',
          pre_save_handler required w' = (Ok tt, w'') ∧
          attname (instance w'') = Some (Some p) ∧ db w'' = db w)) ∧
  (attname (instance w) = None ∨ attname (instance w) = Some None →
   ∃ w', post_delete_handler w = (Ok tt, w') ∧
         manager w' = manager w ∧ db w' = db w ∧
         attname (instance w') = attname (instance w)).
Proof.
  split; [|apply post_delete_not_stored].
  intros p t Ha Hp. eexists. split; [by apply (post_delete_stored w p t)|].
  pose proof (get_pk_found _ _ _ Hp) as Hpk. simpl.
  unfold decrement. rewrite Hpk.
  split; [done|]. split; [intros q; apply count_of_change_count|].
  split; [done|]. split; [done|]. split; [done|].
  intros Hc Hn Hl required. eexists. split.
  - eapply pre_save_after_post_delete; eauto.
    rewrite (post_delete_stored w p t Ha Hp). unfold decrement.
    by rewrite Hpk.
  - done.
Qed.

(** What [set] computes is what it stores, and it writes the manager only. *)
Lemma set_spec v w :
  ∃ w', set v w = (Ok tt, w') ∧ db w' = db w ∧ instance w' = instance w ∧
        tag_name (manager w') = parsed_tag_name tag_options v.
Proof.
  unfold SingleTagManager.set. unfold_monad.
  destruct (decide (tag_name (manager w) = parsed_tag_name tag_options v));
    eexists; (split; [done|]); simpl; done.
Qed.

Lemma set_same_name v w :
  tag_name (manager w) = parsed_tag_name tag_options v →
  set v w = (Ok tt, w).
Proof.
  intros Hn. unfold SingleTagManager.set. unfold_monad.
  by rewrite decide_True.
Qed.

(** [get] writes neither the table nor the stored primary key. *)
Lemma get_frame w :
  db (get w).2 = db w ∧ attname (instance (get w).2) = attname (instance w).
Proof.
  unfold SingleTagManager.get, get_actual, descriptor__get__. unfold_monad.
  destruct (changed (manager w)).
  - destruct (tag_name (manager w)) as [tn|]; [|done].
    destruct (truthy_name (Some tn)); [|done].
    destruct (lookup_name _ tn (db w)) as [tag|[]]; try done.
    by destruct (tag_cache (manager w)).
  - destruct (attname (instance w)) as [[p|]|] eqn:Ha; [| |done];
      (destruct (cache (instance w)); [done|]); rewrite Ha; [|done].
    by destruct (get_pk p (db w)).
Qed.

(** A pending name with a record: [get] answers the record. *)
Lemma get_found w n tag :
  changed (manager w) = true → tag_name (manager w) = Some n →
  n ≠ EmptyString →
  lookup_name (case_sensitive tag_options) n (db w) = Ok tag →
  get w = (Ok (Some tag), w).
Proof.
  intros Hc Hn Hne Hl. unfold SingleTagManager.get. unfold_monad.
  by rewrite Hc, Hn, (truthy_name_Some _ Hne), Hl.
Qed.

(** A pending name without a record: [get] answers an unsaved tag, which it
    keeps in [tag_cache]. *)
Lemma get_unsaved w n :
  changed (manager w) = true → tag_name (manager w) = Some n →
  n ≠ EmptyString → tag_cache (manager w) = None →
  lookup_name (case_sensitive tag_options) n (db w) = Raise DoesNotExist →
  get w = (Ok (Some (mkTag None n false)),
           set_manager (with_tag_cache (Some (mkTag None n false))) w).
Proof.
  intros Hc Hn Hne Htc Hl. unfold SingleTagManager.get. unfold_monad.
  by rewrite Hc, Hn, (truthy_name_Some _ Hne), Hl, Htc.
Qed.

(** ... and [pre_save_handler] inserts its record, counts it once and
    stores it on the instance. *)
Lemma pre_save_unsaved required w n :
  changed (manager w) = true → tag_name (manager w) = Some n →
  n ≠ EmptyString → tag_cache (manager w) = None →
  lookup_name (case_sensitive tag_options) n (db w) = Raise DoesNotExist →
  (∀ p, attname (instance w) = Some (Some p) → ∃ t, get_pk p (db w) = Ok t) →
  ∃ w', pre_save_handler required w = (Ok tt, w') ∧
        db w' = db w ++ [mkRow (fresh_pk (db w)) n 1 false] ∧
        attname (instance w') = Some (Some (fresh_pk (db w))) ∧
        changed (manager w') = false.
Proof.
  intros Hc Hn Hne Htc Hl Hstored.
  unfold SingleTagManager.pre_save_handler, bind at 1.
  rewrite (get_unsaved w n Hc Hn Hne Htc Hl).
  unfold flush_actual, get_actual, descriptor__get__, set_actual,
    descriptor__set__, save_new_tag, save_tag.
  unfold_monad. rewrite Hc. cbn.
  pose proof (increment_inserted n false (db w)) as Hins.
  unfold insert_row in Hins. cbn in Hins.
  destruct (attname (instance w)) as [[p|]|] eqn:Ha; cbn; rewrite ?Ha.
  - destruct (Hstored p eq_refl) as [t ->]. cbn.
    eexists. split; [done|]. cbn. by rewrite Hins.
  - eexists. split; [done|]. cbn. by rewrite Hins.
  - eexists. split; [done|]. cbn. by rewrite Hins.
Qed.

End SingleFacts.

Lemma pre_save_required_raises_witness :
  SingleTagManager.pre_save_handler sample_options true single_untagged
  = (Raise ValidationError, single_untagged).
Proof.
  apply (pre_save_required_raises sample_options single_untagged single_untagged).
  vm_compute. reflexivity.
Defined.

Lemma post_delete_handler_spec_witness :
  ∃ w', SingleTagManager.post_delete_handler single_tagged_a = (Ok tt, w') ∧
        count_of 1 (SingleTagManager.db w') = Some 0%Z ∧
        SingleTagManager.tag_name (SingleTagManager.manager w') = Some "a".
Proof.
  destruct (post_delete_handler_spec sample_options single_tagged_a) as [H _].
  destruct (H 1%positive (mkTag (Some 1%positive) "a" false))
    as (w' & Hrun & _ & Hcount & _ & _ & Hname & _);
    [reflexivity|reflexivity|].
  exists w'. split; [exact Hrun|]. split.
  - rewrite Hcount. reflexivity.
  - rewrite Hname. reflexivity.
Defined.

(** C6 as stated fails when a change is pending: the manager keeps the
    pending name [b], not the name [a] of the tag that was stored. *)
Lemma post_delete_keeps_pending_name :
  SingleTagManager.get_actual single_a_pending_b
  = (Ok (Some (mkTag (Some 1%positive) "a" false)), single_a_pending_b) ∧
  ∃ w', SingleTagManager.post_delete_handler single_a_pending_b = (Ok tt, w') ∧
        SingleTagManager.tag_name (SingleTagManager.manager w') = Some "b" ∧
        SingleTagManager.tag_name (SingleTagManager.manager w') ≠ Some "a".
Proof.
  split; [reflexivity|].
  eexists. split; [reflexivity|]. split; [reflexivity|]. discriminate.
Qed.

(** C2 fails on the code.  The instance tagged [a] was given the tag [b]
    and saved: [a] went from one use to none, [b] from none to one.  The
    manager keeps [removed_tag], so saving the instance once more, with the
    field unchanged, lowers the count of [a] again. *)
Theorem unchanged_save_decrements_again :
  SingleTagManager.changed (SingleTagManager.manager single_saved_b) = false ∧
  count_of 1 (SingleTagManager.db single_saved_b) = Some 0%Z ∧
  count_of 2 (SingleTagManager.db single_saved_b) = Some 1%Z ∧
  ∃ w', save_instance sample_options false single_saved_b = (Ok tt, w') ∧
        SingleTagManager.instance w' = SingleTagManager.instance single_saved_b ∧
        count_of 1 (SingleTagManager.db w') = Some (-1)%Z ∧
        count_of 2 (SingleTagManager.db w') = Some 1%Z.
Proof.
  split; [reflexivity|]. split; [reflexivity|]. split; [reflexivity|].
  eexists. split; [reflexivity|]. repeat split.
Qed.

(** ** Dictionaries and loops *)

Lemma for_fold_invariant {S A B} (P : S → Prop) (l : list A)
    (body : A → B → M S B) :
  (∀ x acc s, P s → P (body x acc s).2) →
  ∀ acc s, P s → P (for_fold l acc body s).2.
Proof.
  intros Hbody. induction l as [|x l IH]; intros acc s Hs; simpl; [done|].
  unfold bind. specialize (Hbody x acc s Hs).
  destruct (body x acc s) as [[acc'|e] s']; simpl in *; [by apply IH|done].
Qed.

Lemma dict_of_snoc {V} (l : list (string * V)) kv :
  dict_of (l ++ [kv]) = <[kv.1 := kv.2]> (dict_of l).
Proof. unfold dict_of. by rewrite foldl_app. Qed.

(** In a dictionary built from values and their keys, a key holds the last
    value that has it. *)
Lemma dict_of_lookup {V} (key : V → string) (l : list V) k :
  dict_of ((fun x => (key x, x)) <$> l) !! k
  = last (filter (fun x => key x = k) l).
Proof.
  induction l as [|x l IH] using rev_ind; [done|].
  rewrite fmap_app. simpl. rewrite dict_of_snoc, filter_app. simpl.
  rewrite filter_cons, filter_nil.
  destruct (decide (key x = k)) as [->|Hk].
  - by rewrite lookup_insert_eq, last_snoc.
  - by rewrite lookup_insert_ne, app_nil_r.
Qed.

Lemma dict_of_dom {V} (key : V → string) (l : list V) :
  dom (dict_of ((fun x => (key x, x)) <$> l)) = list_to_set (key <$> l).
Proof.
  induction l as [|x l IH] using rev_ind; [apply dom_empty_L|].
  rewrite !fmap_app. simpl.
  rewrite dict_of_snoc, dom_insert_L, IH, list_to_set_app_L.
  simpl. set_solver.
Qed.

Lemma dict_of_lookup_key {V} (key : V → string) (l : list V) k x :
  dict_of ((fun x => (key x, x)) <$> l) !! k = Some x → key x = k ∧ x ∈ l.
Proof.
  rewrite dict_of_lookup. intros Hlast.
  assert (x ∈ filter (fun x => key x = k) l) as Hin.
  { destruct (filter (fun x => key x = k) l) as [|y l'] using rev_ind;
      [done|].
    rewrite last_snoc in Hlast. injection Hlast as ->.
    apply elem_of_app. right. left. }
  by apply list_elem_of_filter in Hin.
Qed.

(** ** Manager mixin for [TagField] *)

Lemma filter_ext_elem {A} (P Q : A → Prop) `{!∀ x, Decision (P x)}
    `{!∀ x, Decision (Q x)} (l : list A) :
  (∀ x, x ∈ l → P x ↔ Q x) → filter P l = filter Q l.
Proof.
  induction l as [|x l IH]; intros Hl; [done|].
  rewrite !filter_cons.
  rewrite IH by (intros y Hy; apply Hl; by right).
  destruct (decide (P x)) as [HP|HP], (decide (Q x)) as [HQ|HQ]; try done;
    exfalso; [apply HQ|apply HP]; apply (Hl x); by left || done.
Qed.

Lemma or_iff (A A' B B' : Prop) : (A ↔ A') → (B ↔ B') → (A ∨ B ↔ A' ∨ B').
Proof. tauto. Qed.

Lemma lookup_name_cases `{!Folding} cs n t :
  (∃ tag, lookup_name cs n t = Ok tag) ∨
  lookup_name cs n t = Raise DoesNotExist ∨
  lookup_name cs n t = Raise MultipleObjectsReturned.
Proof.
  unfold lookup_name, get_name, get_name__iexact, objects_get.
  destruct cs; destruct (filter _ t) as [|? [|? ?]]; eauto.
Qed.

Section RelatedFacts.

Import RelatedManagerTagMixin.

Context `{!Folding}.
Variable tag_options : Options.

Local Abbreviation cmp := (cmp_name tag_options).
Local Abbreviation find_or_make := (find_or_make tag_options).

(** The first loop of [set_tag_list]: the tags whose key is among the new
    names stay, their keys leave [cmp_new_names], and the manager is marked
    changed when some key is not among them. *)
Lemma see_staying_loop (l : list (string * Tag)) acc (m : gmap string string) w :
  NoDup l.*1 →
  for_fold l (acc, m) see_staying w =
  (Ok (acc ++ (filter (fun kv => kv.1 ∈ dom m) l).*2,
       foldl (fun m k => delete k m) m l.*1),
   if decide (Forall (fun kv => kv.1 ∈ dom m) l) then w else mark_changed w).
Proof.
  revert acc m w. induction l as [|[k t] l IH]; intros acc m w Hnd.
  - rewrite decide_True by constructor. simpl. unfold ret.
    by rewrite app_nil_r.
  - rewrite fmap_cons in Hnd. apply NoDup_cons in Hnd as [Hk Hnd].
    simpl. unfold bind at 1. unfold see_staying.
    rewrite filter_cons. simpl.
    destruct (decide (k ∈ dom m)) as [Hin|Hout].
    + unfold ret at 1. rewrite IH by done.
      assert (Hl : ∀ kv, kv ∈ l → kv.1 ∈ dom (delete k m) ↔ kv.1 ∈ dom m).
      { intros kv Hkv. rewrite dom_delete_L.
        assert (kv.1 ≠ k); [|set_solver].
        intros Heq. apply Hk. simpl. rewrite <- Heq.
        apply list_elem_of_fmap. eauto. }
      rewrite (filter_ext_elem _ (fun kv => kv.1 ∈ dom m)) by done.
      rewrite <- app_assoc. simpl. f_equal.
      destruct (decide (Forall _ l)) as [Hall|Hall];
        destruct (decide (Forall _ ((k, t) :: l))) as [Hall'|Hall'];
        [done| | |done].
      * exfalso. apply Hall'. constructor; [done|].
        rewrite Forall_forall in Hall |- *. intros kv Hkv.
        apply Hl; auto.
      * exfalso. apply Hall. apply Forall_cons in Hall' as [_ Hall'].
        rewrite Forall_forall in Hall' |- *. intros kv Hkv.
        apply Hl; auto.
    + unfold_monad. rewrite IH by done.
      rewrite (delete_id m k) by by apply not_elem_of_dom.
      f_equal.
      destruct (decide (Forall _ ((k, t) :: l))) as [[? _]%Forall_cons|_];
        [done|].
      by destruct (decide (Forall _ l)).
Qed.

(** The second loop: each name left is resolved, and the manager is marked
    changed when there is one. *)
Lemma find_or_make_loop (ns : list string) acc w :
  (∀ n, n ∈ ns → unambiguous tag_options (db w) n) →
  for_fold ns acc find_or_make w =
  (Ok (acc ++ (resolved tag_options (db w) <$> ns)),
   match ns with [] => w | _ => mark_changed w end).
Proof.
  revert acc w. induction ns as [|n ns IH]; intros acc w Hun.
  - simpl. unfold ret. by rewrite app_nil_r.
  - assert (Hn : unambiguous tag_options (db w) n) by (apply Hun; left).
    assert (Hstep : RelatedManagerTagMixin.find_or_make tag_options n acc w
                    = (Ok (acc ++ [resolved tag_options (db w) n]),
                       mark_changed w)).
    { unfold RelatedManagerTagMixin.find_or_make, resolved, unambiguous in *.
      unfold_monad.
      destruct (lookup_name_cases (case_sensitive tag_options) n (db w))
        as [[tag Hl]|[Hl|Hl]]; rewrite Hl in *; done. }
    simpl. unfold bind at 1. rewrite Hstep, IH.
    + rewrite <- app_assoc. simpl. f_equal. by destruct ns.
    + intros n' Hn'. apply Hun. by right.
Qed.

Lemma lookup_foldl_delete {V} (m : gmap string V) (ks : list string) k :
  foldl (fun m k => delete k m) m ks !! k
  = if decide (k ∈ ks) then None else m !! k.
Proof.
  revert m. induction ks as [|k' ks IH]; intros m.
  - destruct (decide (k ∈ [])) as [?%elem_of_nil|]; done.
  - simpl. rewrite IH. destruct (decide (k ∈ ks)) as [Hin|Hout].
    + rewrite decide_True; [done|by right].
    + destruct (decide (k = k')) as [->|Hne].
      * rewrite lookup_delete_eq, decide_True; [done|left].
      * rewrite lookup_delete_ne by done.
        rewrite decide_False; [done|].
        by intros [?|?]%elem_of_cons.
Qed.

(** A run of [set_tag_list] that raises nothing. *)
Lemma set_tag_list_run tag_names w :
  instance (manager w) = true →
  (max_count tag_options = 0 ∨
   Z.of_nat (List.length tag_names) ≤ max_count tag_options)%Z →
  (∀ n, n ∈ (map_to_list (names_left tag_options w tag_names)).*2 →
        unambiguous tag_options (db w) n) →
  ∃ w', set_tag_list tag_options tag_names w = (Ok tt, w') ∧
    db w' = db w ∧ rel w' = rel w ∧
    instance (manager w') = instance (manager w) ∧
    tags (manager w') =
      (filter (fun kv => kv.1 ∈ dom (cmp_new_names_of tag_options tag_names))
              (map_to_list (old_tags_of tag_options w))).*2
      ++ (resolved tag_options (db w)
            <$> (map_to_list (names_left tag_options w tag_names)).*2) ∧
    changed (manager w') =
      (if decide (Forall (fun kv => kv.1 ∈ dom (cmp_new_names_of tag_options tag_names))
                         (map_to_list (old_tags_of tag_options w))
                  ∧ (map_to_list (names_left tag_options w tag_names)).*2 = [])
       then changed (manager w) else true).
Proof.
  intros Hi Hmax Hun. unfold set_tag_list.
  unfold bind at 1, gets at 1. rewrite Hi. simpl.
  assert (bool_decide (max_count tag_options ≠ 0%Z)
          && bool_decide (max_count tag_options
                          < Z.of_nat (List.length tag_names))%Z = false)
    as ->.
  { apply andb_false_iff. destruct Hmax as [Hz|Hle].
    - left. apply bool_decide_eq_false. tauto.
    - right. apply bool_decide_eq_false. lia. }
  unfold bind at 1, gets at 1.
  fold (normalized tag_options tag_names).
  fold (old_tags_of tag_options w). fold (cmp_new_names_of tag_options tag_names).
  unfold bind at 1.
  rewrite see_staying_loop by apply NoDup_fst_map_to_list.
  fold (names_left tag_options w tag_names). simpl.
  set (w1 := if decide _ then w else mark_changed w).
  assert (Hdb1 : db w1 = db w) by (subst w1; by destruct (decide _)).
  unfold bind at 1.
  rewrite find_or_make_loop by (intros n Hn; rewrite Hdb1; by apply Hun).
  unfold modify. rewrite Hdb1.
  eexists. split; [done|].
  subst w1. simpl.
  destruct (decide (Forall _ (map_to_list (old_tags_of tag_options w)))) as [Hall|Hall];
    destruct ((map_to_list (names_left tag_options w tag_names)).*2) as [|n ns] eqn:Hleft;
    simpl; repeat split; try done.
  - by rewrite decide_True.
  - rewrite decide_False; [done|]. by intros [_ ?].
  - rewrite decide_False; [done|]. by intros [? _].
  - rewrite decide_False; [done|]. by intros [? _].
Qed.

Lemma cmp_resolved t n :
  lookup_agrees tag_options t n →
  cmp (name (resolved tag_options t n)) = cmp n.
Proof.
  intros Hag. unfold resolved.
  destruct (lookup_name _ n t) as [tag|e] eqn:Hl; [|done].
  by apply Hag.
Qed.

Lemma lookup_agrees_case_sensitive t n :
  case_sensitive tag_options = true → lookup_agrees tag_options t n.
Proof.
  intros Hcs tag Hl. rewrite Hcs in Hl.
  apply lookup_name_found in Hl as (r & _ & -> & Hr). simpl in *.
  by rewrite Hr.
Qed.

Lemma elem_of_fst_map_to_list {V} (m : gmap string V) k :
  k ∈ (map_to_list m).*1 ↔ k ∈ dom m.
Proof.
  rewrite list_elem_of_fmap, elem_of_dom. split.
  - intros ([k' v] & -> & Hkv%elem_of_map_to_list). by exists v.
  - intros [v Hv]. exists (k, v). split; [done|].
    by apply elem_of_map_to_list.
Qed.

Lemma old_tags_lookup w k :
  old_tags_of tag_options w !! k = last_tag_named tag_options k (tags (manager w)).
Proof. apply (dict_of_lookup (fun tag => cmp (name tag))). Qed.

Lemma old_tags_dom w :
  dom (old_tags_of tag_options w) = list_to_set (cmp_names tag_options (tags (manager w))).
Proof. apply (dict_of_dom (fun tag => cmp (name tag))). Qed.

Lemma cmp_new_names_lookup ns k :
  cmp_new_names_of tag_options ns !! k
  = last_name_like tag_options k (normalized tag_options ns).
Proof. apply (dict_of_lookup cmp). Qed.

Lemma cmp_new_names_dom ns :
  dom (cmp_new_names_of tag_options ns)
  = list_to_set (cmp <$> normalized tag_options ns).
Proof. apply (dict_of_dom cmp). Qed.

Lemma names_left_lookup w ns k :
  names_left tag_options w ns !! k
  = if decide (k ∈ dom (old_tags_of tag_options w)) then None
    else cmp_new_names_of tag_options ns !! k.
Proof.
  unfold names_left. rewrite lookup_foldl_delete.
  destruct (decide (k ∈ (map_to_list (old_tags_of tag_options w)).*1))
    as [Hin|Hout]; rewrite elem_of_fst_map_to_list in *.
  - by rewrite decide_True.
  - by rewrite decide_False.
Qed.

Lemma names_left_elem w ns n :
  n ∈ (map_to_list (names_left tag_options w ns)).*2 →
  n ∈ normalized tag_options ns.
Proof.
  intros ([k n'] & -> & Hkv%elem_of_map_to_list)%list_elem_of_fmap.
  rewrite names_left_lookup in Hkv.
  destruct (decide _); [done|].
  by apply (dict_of_lookup_key cmp) in Hkv as [_ ?].
Qed.

(** The names that are left for a lookup: for each comparison name among
    the new names that no current tag has, the last new name of that
    comparison name. *)
Lemma names_left_spec w ns n :
  n ∈ (map_to_list (names_left tag_options w ns)).*2 ↔
  ∃ k, last_name_like tag_options k (normalized tag_options ns) = Some n ∧
       k ∉ cmp_names tag_options (tags (manager w)).
Proof.
  rewrite list_elem_of_fmap. split.
  - intros ([k n'] & -> & Hkv%elem_of_map_to_list).
    rewrite names_left_lookup in Hkv.
    destruct (decide (k ∈ dom (old_tags_of tag_options w))) as [|Hout]; [done|].
    exists k. rewrite <- cmp_new_names_lookup. split; [done|].
    by rewrite old_tags_dom, elem_of_list_to_set in Hout.
  - intros (k & Hlast & Hk). exists (k, n). split; [done|].
    apply elem_of_map_to_list. rewrite names_left_lookup, decide_False.
    + by rewrite cmp_new_names_lookup.
    + by rewrite old_tags_dom, elem_of_list_to_set.
Qed.

(** The comparison names of the tags that [set_tag_list] stores: those of
    the items that stay, then those of the names that were left. *)
Lemma cmp_names_stored w ns :
  (∀ n, n ∈ (map_to_list (names_left tag_options w ns)).*2 →
        lookup_agrees tag_options (db w) n) →
  cmp_names tag_options
    ((filter (fun kv => kv.1 ∈ dom (cmp_new_names_of tag_options ns))
             (map_to_list (old_tags_of tag_options w))).*2
     ++ (resolved tag_options (db w)
           <$> (map_to_list (names_left tag_options w ns)).*2))
  = (filter (fun kv => kv.1 ∈ dom (cmp_new_names_of tag_options ns))
            (map_to_list (old_tags_of tag_options w))).*1
    ++ (map_to_list (names_left tag_options w ns)).*1.
Proof.
  intros Hag.
  unfold cmp_names. rewrite fmap_app, <- !list_fmap_compose. f_equal.
  - apply list_fmap_ext. intros i [k tag] Hi%list_elem_of_lookup_2.
    apply list_elem_of_filter in Hi as [_ Hi%elem_of_map_to_list].
    simpl. by apply (dict_of_lookup_key (fun tag => cmp (name tag))) in Hi as [? _].
  - apply list_fmap_ext. intros i [k n] Hi%list_elem_of_lookup_2.
    assert (Hn : n ∈ (map_to_list (names_left tag_options w ns)).*2).
    { apply list_elem_of_fmap. by exists (k, n). }
    apply elem_of_map_to_list in Hi. simpl. rewrite cmp_resolved by by apply Hag.
    rewrite names_left_lookup in Hi. destruct (decide _); [done|].
    by apply (dict_of_lookup_key cmp) in Hi as [? _].
Qed.

(** C4, as the code has it.  [set_tag_list] keeps, for every comparison
    name that occurs among the new names, the last current tag of that
    name, as it is and without a lookup; every other new comparison name
    gives one tag, the record that the lookup of its last name finds or an
    unsaved tag of that name, and only these lookups must not be ambiguous;
    there are as many tags in the end as comparison names among the new
    names; where the lookups agree with the comparison, the tags stored
    have exactly these comparison names, each once; the manager is marked
    changed when the comparison names of the current tags and those of the
    new names differ, and [changed] is left as it was when they are the
    same. *)
Theorem set_tag_list_reconciles tag_names w :
  instance (manager w) = true →
  (max_count tag_options = 0 ∨
   Z.of_nat (List.length tag_names) ≤ max_count tag_options)%Z →
  (∀ k n, last_name_like tag_options k (normalized tag_options tag_names)
          = Some n →
          k ∉ cmp_names tag_options (tags (manager w)) →
          unambiguous tag_options (db w) n) →
  ∃ w', set_tag_list tag_options tag_names w = (Ok tt, w') ∧
    db w' = db w ∧ rel w' = rel w ∧
    (∀ tag, tag ∈ tags (manager w') ↔
       (∃ k, last_tag_named tag_options k (tags (manager w)) = Some tag ∧
             k ∈ cmp <$> normalized tag_options tag_names) ∨
       (∃ k n, last_name_like tag_options k (normalized tag_options tag_names)
               = Some n ∧
               k ∉ cmp_names tag_options (tags (manager w)) ∧
               tag = resolved tag_options (db w) n)) ∧
    List.length (tags (manager w'))
    = size (list_to_set (cmp <$> normalized tag_options tag_names)
              : gset string) ∧
    ((∀ k n, last_name_like tag_options k (normalized tag_options tag_names)
             = Some n →
             k ∉ cmp_names tag_options (tags (manager w)) →
             lookup_agrees tag_options (db w) n) →
     NoDup (cmp_names tag_options (tags (manager w'))) ∧
     (∀ k, k ∈ cmp_names tag_options (tags (manager w')) ↔
           k ∈ cmp <$> normalized tag_options tag_names)) ∧
    ((∀ k, k ∈ cmp_names tag_options (tags (manager w)) ↔
           k ∈ cmp <$> normalized tag_options tag_names) →
     changed (manager w') = changed (manager w)) ∧
    (¬ (∀ k, k ∈ cmp_names tag_options (tags (manager w)) ↔
             k ∈ cmp <$> normalized tag_options tag_names) →
     changed (manager w') = true).
Proof.
  intros Hi Hmax Hun.
  destruct (set_tag_list_run tag_names w Hi Hmax)
    as (w' & Hrun & Hdb & Hrel & _ & Htags & Hch).
  { intros n (k & Hlast & Hk)%names_left_spec. by apply (Hun k). }
  exists w'. split; [done|]. split; [done|]. split; [done|].
  assert (Hold : ∀ k, k ∈ dom (old_tags_of tag_options w) ↔
                      k ∈ cmp_names tag_options (tags (manager w))).
  { intros k. by rewrite old_tags_dom, elem_of_list_to_set. }
  assert (Hnew : ∀ k, k ∈ dom (cmp_new_names_of tag_options tag_names) ↔
                      k ∈ cmp <$> normalized tag_options tag_names).
  { intros k. by rewrite cmp_new_names_dom, elem_of_list_to_set. }
  assert (Hleft : ∀ k, k ∈ (map_to_list (names_left tag_options w tag_names)).*1 ↔
      k ∈ dom (cmp_new_names_of tag_options tag_names) ∧
      k ∉ dom (old_tags_of tag_options w)).
  { intros k. rewrite elem_of_fst_map_to_list, !elem_of_dom, names_left_lookup.
    destruct (decide (k ∈ dom (old_tags_of tag_options w))) as [Hin|Hout].
    - split; [by intros [? ?]|]. intros [_ Hn]. destruct Hn.
      by apply elem_of_dom.
    - split; [|by intros [? _]]. intros ?. split; [done|].
      by rewrite <- elem_of_dom. }
  assert (Hkept : ∀ k,
      k ∈ (filter (fun kv => kv.1 ∈ dom (cmp_new_names_of tag_options tag_names))
             (map_to_list (old_tags_of tag_options w))).*1 ↔
      k ∈ dom (cmp_new_names_of tag_options tag_names) ∧
      k ∈ dom (old_tags_of tag_options w)).
  { intros k. rewrite list_elem_of_fmap. split.
    - intros ([k' t] & -> & [Hk Hin%elem_of_map_to_list]%list_elem_of_filter).
      split; [done|]. apply elem_of_dom. by eexists.
    - intros [Hk [t Ht]%elem_of_dom]. exists (k, t). split; [done|].
      apply list_elem_of_filter. split; [done|]. by apply elem_of_map_to_list. }
  split; [|split; [|split; [|split]]].
  - intros tag. rewrite Htags, elem_of_app. apply or_iff.
    + rewrite list_elem_of_fmap. split.
      * intros ([k t] & -> & [Hk Hin%elem_of_map_to_list]%list_elem_of_filter).
        exists k. rewrite <- old_tags_lookup. split; [done|]. by apply Hnew.
      * intros (k & Hlast & Hk). rewrite <- old_tags_lookup in Hlast.
        exists (k, tag). split; [done|]. apply list_elem_of_filter.
        split; [by apply Hnew|]. by apply elem_of_map_to_list.
    + rewrite <- list_fmap_compose, list_elem_of_fmap. split.
      * intros ([k n] & -> & Hin%elem_of_map_to_list).
        rewrite names_left_lookup in Hin.
        destruct (decide (k ∈ dom (old_tags_of tag_options w))) as [|Hout]; [done|].
        exists k, n. rewrite <- cmp_new_names_lookup.
        split; [done|]. split; [|done]. by rewrite <- Hold.
      * intros (k & n & Hlast & Hk & ->).
        rewrite <- cmp_new_names_lookup in Hlast.
        exists (k, n). split; [done|]. apply elem_of_map_to_list.
        rewrite names_left_lookup, decide_False; [done|]. by rewrite Hold.
  - rewrite Htags, length_app, !length_fmap.
    set (kept := filter (fun kv : string * Tag =>
                   kv.1 ∈ dom (cmp_new_names_of tag_options tag_names))
                   (map_to_list (old_tags_of tag_options w))) in *.
    set (left := map_to_list (names_left tag_options w tag_names)) in *.
    assert (Hnd : NoDup (kept.*1 ++ left.*1)).
    { apply NoDup_app. split; [|split].
      - eapply sublist_NoDup;
          [apply (NoDup_fst_map_to_list (old_tags_of tag_options w))|].
        apply fmap_sublist, sublist_filter.
      - intros k [_ Hk]%Hkept [_ Hk']%Hleft. done.
      - apply NoDup_fst_map_to_list. }
    transitivity (List.length (kept.*1 ++ left.*1));
      [by rewrite length_app, !length_fmap|].
    rewrite <- (size_list_to_set (C := gset string) _ Hnd). f_equal.
    apply set_eq. intros k.
    rewrite !elem_of_list_to_set, elem_of_app, Hkept, Hleft, <- Hnew.
    destruct (decide (k ∈ dom (old_tags_of tag_options w))); tauto.
  - intros Hag.
    assert (Hag' : ∀ n,
      n ∈ (map_to_list (names_left tag_options w tag_names)).*2 →
      lookup_agrees tag_options (db w) n).
    { intros n (k & Hlast & Hk)%names_left_spec. by apply (Hag k). }
    split.
    + rewrite Htags, cmp_names_stored by done.
      apply NoDup_app. split; [|split].
      * eapply sublist_NoDup;
          [apply (NoDup_fst_map_to_list (old_tags_of tag_options w))|].
        apply fmap_sublist, sublist_filter.
      * intros k [_ Hk]%Hkept [_ Hk']%Hleft. done.
      * apply NoDup_fst_map_to_list.
    + intros k.
      rewrite Htags, cmp_names_stored, elem_of_app, Hkept, Hleft, <- Hnew
        by done.
      destruct (decide (k ∈ dom (old_tags_of tag_options w))); tauto.
  - intros Hsame. rewrite Hch. rewrite decide_True; [done|]. split.
    + apply Forall_forall. intros [k t] Hin%elem_of_map_to_list. simpl.
      apply Hnew, Hsame, Hold, elem_of_dom. by eexists.
    + destruct ((map_to_list _).*2) as [|n l] eqn:Hl; [done|].
      exfalso.
      destruct (map_to_list (names_left tag_options w tag_names))
        as [|[k n'] l'] eqn:Hm; [done|].
      assert (k ∈ dom (cmp_new_names_of tag_options tag_names) ∧
              k ∉ dom (old_tags_of tag_options w)) as [Hk Hk']
        by (apply Hleft; rewrite fmap_cons; left).
      apply Hk', Hold, Hsame, Hnew, Hk.
  - intros Hdiff. rewrite Hch. rewrite decide_False; [done|].
    intros [Hall Hnil]. apply Hdiff. intros k. rewrite <- Hold, <- Hnew. split.
    + intros [t Ht]%elem_of_dom.
      rewrite Forall_forall in Hall.
      apply (Hall (k, t)). by apply elem_of_map_to_list.
    + intros Hk. destruct (decide (k ∈ dom (old_tags_of tag_options w)))
        as [|Hout]; [done|].
      exfalso.
      assert (k ∈ (map_to_list (names_left tag_options w tag_names)).*1) as Hin
        by by apply Hleft.
      apply (f_equal List.length) in Hnil. rewrite length_fmap in Hnil.
      destruct (map_to_list (names_left tag_options w tag_names)); [|done].
      by apply elem_of_nil in Hin.
Qed.

End RelatedFacts.

Lemma set_tag_list_reconciles_witness :
  ¬ unambiguous sample_options (RelatedManagerTagMixin.db related_Foo_foo) "foo" ∧
  ∃ w', RelatedManagerTagMixin.set_tag_list sample_options ["foo"; "new"]
          related_Foo_foo = (Ok tt, w') ∧
        RelatedManagerTagMixin.db w' = RelatedManagerTagMixin.db related_Foo_foo ∧
        List.length (RelatedManagerTagMixin.tags (RelatedManagerTagMixin.manager w'))
        = 2%nat ∧
        RelatedManagerTagMixin.changed (RelatedManagerTagMixin.manager w') = true.
Proof.
  split; [intros Hun; by apply Hun|].
  destruct (set_tag_list_reconciles sample_options ["foo"; "new"] related_Foo_foo)
    as (w' & Hrun & Hdb & _ & _ & Hlen & _ & _ & Hch).
  - reflexivity.
  - left. reflexivity.
  - intros k n Hlast Hk.
    apply last_Some in Hlast as [l Hl].
    assert (Hn : n ∈ filter
              (fun n => RelatedManagerTagMixin.cmp_name sample_options n = k)
              (normalized sample_options ["foo"; "new"]))
      by (rewrite Hl; apply elem_of_app; right; left).
    apply list_elem_of_filter in Hn as [Hkn Hn].
    apply list_elem_of_In in Hn. destruct Hn as [<-|[<-|[]]].
    + exfalso. apply Hk. rewrite <- Hkn. apply list_elem_of_In.
      vm_compute. tauto.
    + vm_compute. discriminate.
  - exists w'. split; [exact Hrun|]. split; [exact Hdb|].
    split; [rewrite Hlen; vm_compute; reflexivity|].
    apply Hch. intros Hsame.
    assert (Hnew : "new" ∈ cmp_names sample_options
              (RelatedManagerTagMixin.tags
                 (RelatedManagerTagMixin.manager related_Foo_foo))).
    { apply Hsame. apply list_elem_of_In. vm_compute. tauto. }
    apply list_elem_of_In in Hnew. vm_compute in Hnew.
    destruct Hnew as [Hnew|[Hnew|[]]]; discriminate Hnew.
Defined.

(** C4 as stated fails when two current tags have one comparison name:
    [Foo] is a current tag whose comparison name occurs among the new names,
    yet it is dropped, and [changed] is not set. *)
Lemma set_tag_list_drops_colliding_tag :
  mkTag (Some 1%positive) "Foo" false
    ∈ RelatedManagerTagMixin.tags (RelatedManagerTagMixin.manager related_Foo_foo) ∧
  RelatedManagerTagMixin.cmp_name sample_options "Foo"
    ∈ RelatedManagerTagMixin.cmp_name sample_options <$> ["foo"] ∧
  RelatedManagerTagMixin.changed (RelatedManagerTagMixin.manager related_Foo_foo)
    = false ∧
  ∃ w', RelatedManagerTagMixin.set_tag_list sample_options ["foo"]
          related_Foo_foo = (Ok tt, w') ∧
        mkTag (Some 1%positive) "Foo" false
          ∉ RelatedManagerTagMixin.tags (RelatedManagerTagMixin.manager w') ∧
        RelatedManagerTagMixin.changed (RelatedManagerTagMixin.manager w') = false.
Proof.
  split; [apply list_elem_of_In; vm_compute; tauto|].
  split; [apply list_elem_of_In; vm_compute; tauto|].
  split; [reflexivity|].
  eexists. split; [vm_compute; reflexivity|]. split; [|reflexivity].
  intros Hin%list_elem_of_In. vm_compute in Hin.
  destruct Hin as [Hin|[]]. discriminate Hin.
Qed.

(** ** Writing the relation *)

Arguments table_pks : simpl never.

Lemma fresh_pk_notin (t : table) : fresh_pk t ∉ table_pks t.
Proof.
  unfold table_pks. rewrite elem_of_list_to_set, list_elem_of_fmap.
  intros (r & Hr & Hin%fresh_pk_gt). lia.
Qed.

Lemma table_pks_app (t1 t2 : table) :
  table_pks (t1 ++ t2) = table_pks t1 ∪ table_pks t2.
Proof. unfold table_pks. by rewrite fmap_app, list_to_set_app_L. Qed.

Lemma count_of_app_l p (t1 t2 : table) :
  is_Some (count_of p t1) → count_of p (t1 ++ t2) = count_of p t1.
Proof.
  unfold count_of. rewrite filter_app.
  by destruct (filter (fun r => row_pk r = p) t1); [intros [? [=]]|].
Qed.

Section RelatedWrites.

Import RelatedManagerTagMixin.

Context `{!Folding}.
Variable tag_options : Options.

Lemma world_eta w : mkWorld (db w) (rel w) (manager w) = w.
Proof. by destruct w. Qed.

(** The first loop of [_add] appends rows with count zero and new primary
    keys to the table, and touches nothing else. *)
Lemma to_new_tag_loop objs acc w :
  ∃ new created,
    for_fold objs acc to_new_tag w
    = (Ok (acc ++ new), mkWorld (db w ++ created) (rel w) (manager w)) ∧
    List.length new = List.length objs ∧
    Forall (fun r => row_count r = 0%Z ∧ row_pk r ∉ table_pks (db w)) created.
Proof.
  revert acc w. induction objs as [|[s|t] objs IH]; intros acc w.
  - exists [], []. simpl. unfold ret.
    by rewrite !app_nil_r, world_eta.
  - destruct (IH (acc ++ [(insert_row s false (db w)).1])
                (set_db (fun _ => (insert_row s false (db w)).2) w))
      as (new & created & Hrun & Hlen & Hcr).
    exists ((insert_row s false (db w)).1 :: new),
      (mkRow (fresh_pk (db w)) s 0 false :: created).
    rewrite for_fold_cons.
    assert (to_new_tag (AStr s) acc w
            = (Ok (acc ++ [(insert_row s false (db w)).1]),
               set_db (fun _ => (insert_row s false (db w)).2) w)) as ->
      by reflexivity.
    rewrite Hrun. unfold insert_row in *. cbn in *.
    rewrite <- !app_assoc. simpl. split; [done|].
    split; [by rewrite Hlen|]. constructor.
    + split; [done|apply fresh_pk_notin].
    + eapply Forall_impl; [exact Hcr|]. intros r [? Hr]. split; [done|].
      rewrite table_pks_app in Hr. set_solver.
  - destruct (IH (acc ++ [t]) w) as (new & created & Hrun & Hlen & Hcr).
    exists (t :: new), created.
    rewrite for_fold_cons.
    assert (to_new_tag (ATag t) acc w = (Ok (acc ++ [t]), w)) as ->
      by reflexivity.
    rewrite Hrun, <- app_assoc. simpl. split; [done|].
    split; [by rewrite Hlen|done].
Qed.

Lemma all_app_created w created m :
  wf_rel w →
  Forall (fun r => row_count r = 0%Z ∧ row_pk r ∉ table_pks (db w)) created →
  all (mkWorld (db w ++ created) (rel w) m) = all w.
Proof.
  intros Hwf Hcr. unfold all. simpl. rewrite filter_app.
  assert (filter (fun r => row_pk r ∈ rel w) created = []) as ->;
    [|by rewrite app_nil_r].
  induction Hcr as [|r l [_ Hr] _ IH]; [done|].
  rewrite filter_cons, decide_False; [done|].
  intros Hin. apply Hr. by apply Hwf.
Qed.

(** [set_tag_list] with more names than [max_count] allows. *)
Lemma set_tag_list_too_many tag_names w :
  instance (manager w) = true →
  max_count tag_options ≠ 0%Z →
  (max_count tag_options < Z.of_nat (List.length tag_names))%Z →
  set_tag_list tag_options tag_names w = (Raise ValueError, w).
Proof.
  intros Hi Hz Hlt. unfold set_tag_list. unfold_monad. rewrite Hi. simpl.
  by rewrite !bool_decide_eq_true_2.
Qed.

(** [_add] with more tags than [max_count] leaves room for. *)
Lemma add_too_many objs w :
  wf_rel w →
  max_count tag_options ≠ 0%Z →
  (max_count tag_options
   < Z.of_nat (List.length (all w)) + Z.of_nat (List.length objs))%Z →
  ∃ w' created,
    _add tag_options objs w = (Raise ValueError, w') ∧
    rel w' = rel w ∧ db w' = db w ++ created ∧
    Forall (fun r => row_count r = 0%Z) created ∧
    (∀ p, is_Some (count_of p (db w)) →
          count_of p (db w') = count_of p (db w)).
Proof.
  intros Hwf Hz Hlt.
  destruct (to_new_tag_loop objs [] w) as (new & created & Hrun & Hlen & Hcr).
  eexists _, created. unfold _add. unfold bind at 1. rewrite Hrun.
  unfold reload. unfold_monad.
  rewrite (all_app_created w created _ Hwf Hcr), Hlen.
  rewrite !bool_decide_eq_true_2 by done. simpl.
  split; [done|]. split; [done|]. split; [done|]. split.
  - eapply Forall_impl; [exact Hcr|]. by intros r [? _].
  - intros p Hp. by apply count_of_app_l.
Qed.

(** C8. With [max_count] set, [set_tag_list] raises [ValueError] on more
    than [max_count] names and leaves the state as it was; [_add] raises
    [ValueError] when the tags of the relation and the tags given are more
    than [max_count], and then the relation is as it was and no count has
    changed: the table has at most gained records with count zero. *)
Theorem max_count_enforced tag_names objs w :
  max_count tag_options ≠ 0%Z →
  (instance (manager w) = true →
   (max_count tag_options < Z.of_nat (List.length tag_names))%Z →
   set_tag_list tag_options tag_names w = (Raise ValueError, w)) ∧
  (wf_rel w →
   (max_count tag_options
    < Z.of_nat (List.length (all w)) + Z.of_nat (List.length objs))%Z →
   ∃ w' created,
     _add tag_options objs w = (Raise ValueError, w') ∧
     rel w' = rel w ∧ db w' = db w ++ created ∧
     Forall (fun r => row_count r = 0%Z) created ∧
     (∀ p, is_Some (count_of p (db w)) →
           count_of p (db w') = count_of p (db w))).
Proof.
  intros Hz. split.
  - intros Hi Hlt. by apply set_tag_list_too_many.
  - intros Hwf Hlt. by apply add_too_many.
Qed.

End RelatedWrites.

Lemma max_count_enforced_witness :
  RelatedManagerTagMixin.set_tag_list single_tag_options ["bar"; "new"] related_Foo
  = (Raise ValueError, related_Foo) ∧
  ∃ w' created,
    RelatedManagerTagMixin._add single_tag_options [AStr "new"] related_Foo
    = (Raise ValueError, w') ∧
    RelatedManagerTagMixin.rel w' = RelatedManagerTagMixin.rel related_Foo ∧
    RelatedManagerTagMixin.db w' = RelatedManagerTagMixin.db related_Foo ++ created.
Proof.
  destruct (max_count_enforced single_tag_options ["bar"; "new"] [AStr "new"]
              related_Foo) as [Hset Hadd]; [discriminate|].
  split.
  - apply Hset; reflexivity.
  - destruct Hadd as (w' & created & Hrun & Hrel & Hdb & _).
    + unfold wf_rel. apply (bool_decide_unpack _). vm_compute. exact I.
    + reflexivity.
    + exists w', created. auto.
Defined.

(** ** Saving the tags of a [TagField] *)

Lemma filter_none {A} (P : A → Prop) `{!∀ x, Decision (P x)} (l : list A) :
  (∀ x, x ∈ l → ¬ P x) → filter P l = [].
Proof.
  induction l as [|x l IH]; intros Hl; [done|].
  rewrite filter_cons, decide_False by (apply Hl; left).
  apply IH. intros y Hy. apply Hl. by right.
Qed.

Lemma filter_key_unique {A B} `{EqDecision B} (f : A → B) (y : B) (l : list A) :
  NoDup (f <$> l) → (List.length (filter (fun x => f x = y) l) ≤ 1)%nat.
Proof.
  induction l as [|x l IH]; [simpl; lia|].
  rewrite fmap_cons, NoDup_cons. intros [Hx Hnd].
  rewrite filter_cons. destruct (decide (f x = y)) as [<-|]; [|by apply IH].
  assert (filter (fun x0 => f x0 = f x) l = []) as ->; [|simpl; lia].
  apply filter_none. intros z Hz Heq.
  apply Hx. rewrite <- Heq. apply list_elem_of_fmap. eauto.
Qed.

Lemma names_unique_unambiguous `{!Folding} cs t n :
  names_unique cs t → lookup_name cs n t ≠ Raise MultipleObjectsReturned.
Proof.
  unfold names_unique, lookup_name, get_name, get_name__iexact, objects_get.
  intros Hnd. destruct cs.
  - pose proof (filter_key_unique row_name n t Hnd) as Hlen.
    destruct (filter _ t) as [|? [|? ?]]; try done. simpl in Hlen. lia.
  - pose proof (filter_key_unique (fun r => iexact_key (row_name r))
                 (iexact_key n) t Hnd)
      as Hlen.
    destruct (filter _ t) as [|? [|? ?]]; try done. simpl in Hlen. lia.
Qed.

Lemma tag_in_pks t p ts :
  pk t = Some p → (tag_in t ts = true ↔ p ∈ pks ts).
Proof.
  intros Hp. unfold tag_in, pks, tag_eqb.
  rewrite existsb_exists, elem_of_list_to_set, list_elem_of_omap, Hp.
  split.
  - intros (x & Hx%list_elem_of_In & Heq). exists x. split; [done|].
    destruct (pk x) as [q|]; [|done]. by apply bool_decide_eq_true in Heq as ->.
  - intros (x & Hx & Heq). exists x. split; [by apply list_elem_of_In|].
    rewrite Heq. by apply bool_decide_eq_true.
Qed.

Lemma pks_cons t ts :
  pks (t :: ts) = (match pk t with Some p => {[p]} | None => ∅ end) ∪ pks ts.
Proof.
  unfold pks. simpl. destruct (pk t); simpl; [done|]. set_solver.
Qed.

Lemma pks_app ts1 ts2 : pks (ts1 ++ ts2) = pks ts1 ∪ pks ts2.
Proof. unfold pks. by rewrite omap_app, list_to_set_app_L. Qed.

Lemma table_pks_change_count delta p t :
  table_pks (change_count delta p t) = table_pks t.
Proof.
  unfold table_pks, change_count. rewrite <- list_fmap_compose.
  f_equal. apply list_fmap_ext. intros _ r _. simpl.
  by destruct (decide (row_pk r = p)).
Qed.

Lemma wf_table_change_count delta p t :
  wf_table t → wf_table (change_count delta p t).
Proof.
  unfold wf_table, change_count. rewrite <- list_fmap_compose.
  intros Hnd. erewrite list_fmap_ext; [exact Hnd|].
  intros _ r _. simpl. by destruct (decide (row_pk r = p)).
Qed.

Lemma wf_table_insert n prot (t : table) :
  wf_table t → wf_table (insert_row n prot t).2.
Proof.
  unfold wf_table, insert_row. simpl. rewrite fmap_app. simpl.
  intros Hnd. apply NoDup_app. split; [done|]. split; [|apply NoDup_singleton].
  intros p Hp ->%list_elem_of_singleton.
  apply (fresh_pk_notin t). unfold table_pks. by apply elem_of_list_to_set.
Qed.

Lemma lookup_name_missing `{!Folding} cs n (t : table) r :
  lookup_name cs n t = Raise DoesNotExist → r ∈ t →
  (if cs then row_name r else iexact_key (row_name r))
  ≠ (if cs then n else iexact_key n).
Proof.
  unfold lookup_name, get_name, get_name__iexact, objects_get.
  intros Hl Hr Heq. destruct cs.
  - destruct (filter _ t) as [|? [|? ?]] eqn:Hf; try done.
    by pose proof (filter_nil_not_elem_of (fun r => row_name r = n) t r Hf Heq).
  - destruct (filter _ t) as [|? [|? ?]] eqn:Hf; try done.
    by pose proof (filter_nil_not_elem_of
                     (fun r => iexact_key (row_name r) = iexact_key n) t r Hf Heq).
Qed.

Lemma names_unique_insert `{!Folding} cs n prot (t : table) :
  names_unique cs t → lookup_name cs n t = Raise DoesNotExist →
  names_unique cs (insert_row n prot t).2.
Proof.
  unfold names_unique, insert_row. simpl. rewrite fmap_app. simpl.
  intros Hnd Hl. apply NoDup_app. split; [done|]. split; [|apply NoDup_singleton].
  intros k (r & -> & Hr)%list_elem_of_fmap Heq%list_elem_of_singleton.
  by apply (lookup_name_missing cs n t r Hl Hr).
Qed.

Section SaveFacts.

Import RelatedManagerTagMixin.

Context `{!Folding}.
Variable tag_options : Options.

Local Abbreviation ensure := (_ensure_tags_db tag_options).

(** Tags that have a primary key are taken as they are. *)
Lemma ensure_saved ts w :
  Forall (fun t => is_Some (pk t)) ts → ensure ts w = (Ok ts, w).
Proof.
  induction 1 as [|t ts [p Hp] _ IH]; [done|].
  simpl. unfold bind at 1. rewrite Hp. unfold ret at 1.
  unfold bind. by rewrite IH.
Qed.

(** When no two records have one name, [_ensure_tags_db] returns. *)
Lemma ensure_total ts w :
  names_unique (case_sensitive tag_options) (db w) →
  ∃ res w1, ensure ts w = (Ok res, w1).
Proof.
  revert w. induction ts as [|t ts IH]; intros w Hnu; [by eexists _, _|].
  simpl. unfold bind at 1. destruct (pk t) as [p|].
  - unfold ret at 1. destruct (IH w Hnu) as (res & w1 & Hrun).
    unfold bind. rewrite Hrun. by eexists _, _.
  - unfold bind at 1, gets at 1.
    pose proof (names_unique_unambiguous _ _ (name t) Hnu) as Hun.
    destruct (lookup_name_cases (case_sensitive tag_options) (name t) (db w))
      as [[tag Hl]|[Hl|Hl]]; [| |done]; rewrite Hl.
    + unfold ret at 1. destruct (IH w Hnu) as (res & w1 & Hrun).
      unfold bind. rewrite Hrun. by eexists _, _.
    + unfold create.
      destruct (IH (set_db (fun _ => (insert_row (name t) false (db w)).2) w))
        as (res & w1 & Hrun); [by apply names_unique_insert|].
      unfold insert_row in *. simpl in *.
      unfold bind. rewrite Hrun. by eexists _, _.
Qed.

(** What [_ensure_tags_db] has done when it returns: the table has gained
    records with new primary keys and count zero, and every tag returned
    has a record. *)
Lemma ensure_ok ts w res w1 :
  ensure ts w = (Ok res, w1) →
  Forall (fun t => ∀ p, pk t = Some p → p ∈ table_pks (db w)) ts →
  ∃ created,
    w1 = mkWorld (db w ++ created) (rel w) (manager w) ∧
    Forall (fun r => row_count r = 0%Z ∧ row_pk r ∉ table_pks (db w)) created ∧
    (wf_table (db w) → wf_table (db w1)) ∧
    Forall (fun t => ∃ p, pk t = Some p ∧ p ∈ table_pks (db w1)) res.
Proof.
  revert w res w1. induction ts as [|t ts IH]; intros w res w1 Hrun Hts.
  - injection Hrun as <- <-. exists []. rewrite app_nil_r.
    by destruct w.
  - apply Forall_cons in Hts as [Ht Hts].
    simpl in Hrun. unfold bind at 1 in Hrun.
    destruct (pk t) as [p|] eqn:Hp.
    + unfold ret at 1 in Hrun. unfold bind in Hrun.
      destruct (ensure ts w) as [[res'|e] w'] eqn:Hrest; [|done].
      injection Hrun as <- <-.
      destruct (IH _ _ _ Hrest Hts) as (created & -> & Hcr & Hwf & Hres).
      exists created. split; [done|]. split; [done|]. split; [done|].
      constructor; [|done]. exists p. split; [done|]. simpl.
      rewrite table_pks_app. apply elem_of_union_l. by apply Ht.
    + unfold bind at 1, gets at 1 in Hrun.
      destruct (lookup_name (case_sensitive tag_options) (name t) (db w))
        as [tag|e] eqn:Hl.
      * unfold ret at 1 in Hrun. unfold bind in Hrun.
        destruct (ensure ts w) as [[res'|e] w'] eqn:Hrest; [|done].
        injection Hrun as <- <-.
        destruct (IH _ _ _ Hrest Hts) as (created & -> & Hcr & Hwf & Hres).
        exists created. split; [done|]. split; [done|]. split; [done|].
        constructor; [|done].
        apply lookup_name_found in Hl as (r & Hr & -> & _).
        exists (row_pk r). split; [done|]. simpl.
        rewrite table_pks_app. apply elem_of_union_l.
        unfold table_pks. apply elem_of_list_to_set, list_elem_of_fmap. eauto.
      * destruct e; try done. unfold create in Hrun.
        unfold insert_row in Hrun. simpl in Hrun. unfold bind in Hrun.
        remember (set_db (fun _ => db w ++
               [mkRow (fresh_pk (db w)) (name t) 0 false]) w) as w_mid
          eqn:Hw_mid.
        assert (Hmid : db w_mid = db w ++ [mkRow (fresh_pk (db w)) (name t) 0 false])
          by by subst.
        assert (Hmid_rel : rel w_mid = rel w) by by subst.
        assert (Hmid_man : manager w_mid = manager w) by by subst.
        clear Hw_mid.
        destruct (ensure ts w_mid) as [[res'|e] w'] eqn:Hrest; [|done].
        injection Hrun as <- <-.
        destruct (IH _ _ _ Hrest) as (created & -> & Hcr & Hwf & Hres).
        { eapply Forall_impl; [exact Hts|]. intros t' Ht' p Hp'.
          rewrite Hmid, table_pks_app. apply elem_of_union_l. by apply Ht'. }
        exists (mkRow (fresh_pk (db w)) (name t) 0 false :: created).
        simpl in Hwf, Hres |- *.
        rewrite Hmid, Hmid_rel, Hmid_man, <- app_assoc in *. simpl in *.
        split; [done|]. split; [|split].
        -- constructor; [split; [done|apply fresh_pk_notin]|].
           eapply Forall_impl; [exact Hcr|]. intros r [? Hr]. split; [done|].
           rewrite table_pks_app in Hr. set_solver.
        -- intros Hwf0. apply Hwf. by apply (wf_table_insert (name t) false).
        -- constructor; [|done]. exists (fresh_pk (db w)). split; [done|].
           rewrite table_pks_app. apply elem_of_union_r.
           unfold table_pks. rewrite fmap_cons. simpl. set_solver.
Qed.

Lemma omap_pk_of_row (l : list TagRow) : omap pk (of_row <$> l) = row_pk <$> l.
Proof.
  induction l as [|r l IH]; [done|].
  rewrite !fmap_cons. simpl. f_equal. exact IH.
Qed.

(** The tags of the relation are the rows whose primary key it holds. *)
Lemma all_pks w : wf_rel w → pks (all w) = rel w.
Proof.
  intros Hwf. unfold pks, all. apply set_eq. intros p.
  rewrite elem_of_list_to_set, list_elem_of_omap. split.
  - intros (t & (r & -> & [Hr _]%list_elem_of_filter)%list_elem_of_fmap & Hp).
    simpl in Hp. by injection Hp as <-.
  - intros Hp. pose proof (Hwf p Hp) as Hin.
    unfold table_pks in Hin.
    apply elem_of_list_to_set, list_elem_of_fmap in Hin as (r & -> & Hr).
    exists (of_row r). split; [|done].
    apply list_elem_of_fmap. exists r. split; [done|].
    by apply list_elem_of_filter.
Qed.

Lemma all_length w :
  wf_table (db w) → wf_rel w → List.length (all w) = size (rel w).
Proof.
  intros Hnd Hwf. rewrite <- (all_pks w Hwf). unfold pks, all.
  rewrite omap_pk_of_row, size_list_to_set.
  - by rewrite !length_fmap.
  - eapply sublist_NoDup; [exact Hnd|].
    apply fmap_sublist, sublist_filter.
Qed.

Lemma all_change_count delta p d r m m' :
  all (mkWorld (change_count delta p d) r m) = all (mkWorld d r m').
Proof.
  unfold all, change_count. simpl.
  rewrite filter_fmap_stable
    by (intros x; by destruct (decide (row_pk x = p))).
  rewrite <- list_fmap_compose. apply list_fmap_ext.
  intros _ x _. simpl. by destruct (decide (row_pk x = p)).
Qed.

(** Adding one saved tag through [_add]. *)
Lemma add_one w t p :
  pk t = Some p →
  (max_count tag_options = 0 ∨
   Z.of_nat (List.length (all w)) + 1 ≤ max_count tag_options)%Z →
  _add tag_options [ATag t] w =
  (Ok tt,
   mkWorld (change_count 1 p (db w)) (rel w ∪ {[p]})
     (mkManager (instance (manager w)) (all w ++ [t]) false)).
Proof.
  intros Hp Hmax. unfold _add.
  unfold bind at 1.
  assert (for_fold [ATag t] [] to_new_tag w = (Ok [t], w)) as -> by reflexivity.
  unfold reload. unfold bind at 1, modify at 1.
  unfold bind at 1, gets at 1.
  match goal with
  | |- context [bool_decide ?P && bool_decide ?Q] =>
      assert (bool_decide P && bool_decide Q = false) as ->
  end.
  { apply andb_false_iff. destruct Hmax as [Hz|Hle].
    - left. apply bool_decide_eq_false. tauto.
    - right. apply bool_decide_eq_false. simpl. lia. }
  unfold bind at 1.
  rewrite ensure_saved by (constructor; [by eexists|done]).
  unfold _old_add, increment. unfold_monad. rewrite Hp. simpl.
  unfold bind, ret, set_db, set_rel, set_manager. simpl.
  by rewrite union_empty_r_L.
Qed.

Lemma rm_filter t p (l : list TagRow) :
  pk t = Some p →
  List.filter (fun tag => tag_in tag [t]) (of_row <$> l)
  = of_row <$> filter (fun r => row_pk r = p) l.
Proof.
  intros Hp. induction l as [|r l IH]; [done|].
  rewrite fmap_cons, filter_cons. cbn [List.filter]. rewrite IH.
  unfold tag_in, tag_eqb. cbn [existsb pk of_row]. rewrite Hp.
  destruct (decide (row_pk r = p)) as [Heq|Hne].
  - by rewrite bool_decide_eq_true_2.
  - by rewrite bool_decide_eq_false_2.
Qed.

(** Removing one saved tag through [_remove]: when the relation holds it,
    it leaves the relation and its count goes down by one. *)
Lemma remove_one w t p :
  pk t = Some p → wf_table (db w) → wf_rel w →
  ∃ w', _remove tag_options [ATag t] w = (Ok tt, w') ∧
        rel w' = rel w ∖ {[p]} ∧
        db w' = (if decide (p ∈ rel w) then change_count (-1) p (db w)
                 else db w) ∧
        instance (manager w') = instance (manager w).
Proof.
  intros Hp Hnd Hwf. unfold _remove.
  unfold bind at 1.
  assert (for_fold [ATag t] [] to_rm_tag w = (Ok [t], w)) as -> by reflexivity.
  unfold reload. unfold bind at 1, modify at 1.
  unfold bind at 1, gets at 1.
  cbn [tags manager set_manager with_tags with_changed].
  remember (filter (fun r => row_pk r = p)
              (filter (fun r => row_pk r ∈ rel w) (db w))) as R eqn:HRe.
  assert (Hrm : List.filter (fun tag => tag_in tag [t]) (all w) = of_row <$> R).
  { subst R. unfold all. by apply rm_filter. }
  rewrite !Hrm.
  assert (HR : ∀ r, r ∈ R ↔ r ∈ db w ∧ row_pk r ∈ rel w ∧ row_pk r = p).
  { intros r. subst R. rewrite !list_elem_of_filter. tauto. }
  assert (Hlen : (List.length R ≤ 1)%nat).
  { subst R. apply (filter_key_unique row_pk).
    eapply sublist_NoDup; [exact Hnd|]. apply fmap_sublist, sublist_filter. }
  clear HRe Hrm.
  destruct R as [|r [|r' R']]; [| |simpl in Hlen; lia].
  - assert (Hout : p ∉ rel w).
    { intros Hin. pose proof (Hwf p Hin) as Hp'. unfold table_pks in Hp'.
      apply elem_of_list_to_set, list_elem_of_fmap in Hp' as (r & -> & Hr).
      assert (r ∈ []) as ?%elem_of_nil by by apply HR. done. }
    unfold _old_remove. unfold_monad.
    eexists. split; [done|]. simpl. rewrite decide_False by done.
    split; [set_solver|done].
  - assert (r ∈ [r]) as (_ & Hin & Hr)%HR by left.
    unfold _old_remove, decrement. unfold_monad. unfold bind, ret.
    eexists. split; [done|]. simpl. rewrite Hr, decide_True by by rewrite <- Hr.
    split; [set_solver|done].
Qed.

(** The first loop of [save]: the tags that the relation lacks are added,
    each once, and counted. *)
Lemma add_loop ts w :
  save_inv w →
  Forall (fun t => ∃ p, pk t = Some p ∧ p ∈ table_pks (db w)) ts →
  (max_count tag_options = 0 ∨
   Z.of_nat (size (rel w ∪ pks ts)) ≤ max_count tag_options)%Z →
  ∃ w', for_each ts (add_if_new tag_options) w = (Ok tt, w') ∧
    save_inv w' ∧
    rel w' = rel w ∪ pks ts ∧
    table_pks (db w') = table_pks (db w) ∧
    instance (manager w') = instance (manager w) ∧
    (∀ q, count_of q (db w') =
          (fun c => if decide (q ∈ pks ts ∖ rel w) then (c + 1)%Z else c)
            <$> count_of q (db w)).
Proof.
  revert w.
  induction ts as [|t ts IH]; intros w (Hnd & Hwf & Htags & Hsaved) Hts Hmax.
  - exists w. split; [done|]. split; [done|].
    split; [unfold pks; simpl; set_solver|]. split; [done|]. split; [done|].
    intros q. destruct (count_of q (db w)); simpl; [|done].
    rewrite decide_False; [done|]. unfold pks. simpl. set_solver.
  - apply Forall_cons in Hts as [(p & Hp & Hpt) Hts].
    rewrite for_each_cons. unfold add_if_new at 1.
    unfold bind at 1, gets at 1.
    rewrite pks_cons, Hp in Hmax |- *.
    destruct (tag_in t (tags (manager w))) eqn:Hin; simpl.
    + apply (tag_in_pks t p _ Hp) in Hin. rewrite Htags in Hin.
      destruct (IH w) as (w' & Hrun & Hinv & Hrel & Htp & Hi & Hc); [done|done| |].
      { replace (rel w ∪ pks ts) with (rel w ∪ ({[p]} ∪ pks ts)) by set_solver.
        done. }
      exists w'. split; [done|]. split; [done|].
      split; [rewrite Hrel; set_solver|]. split; [done|]. split; [done|].
      intros q. rewrite Hc. destruct (count_of q (db w)); simpl; [|done].
      destruct (decide (q ∈ pks ts ∖ rel w)), (decide (q ∈ ({[p]} ∪ pks ts) ∖ rel w));
        try done; exfalso; set_solver.
    + assert (Hout : p ∉ rel w).
      { intros Hc. rewrite <- Htags in Hc.
        apply (tag_in_pks t p _ Hp) in Hc. congruence. }
      assert (Hsize : (size (rel w) + 1 ≤ size (rel w ∪ ({[p]} ∪ pks ts)))%nat).
      { etrans; [|apply (subseteq_size (rel w ∪ {[p]})); set_solver].
        rewrite size_union by set_solver. rewrite size_singleton. lia. }
      rewrite (add_one w t p Hp).
      2:{ destruct Hmax as [?|Hle]; [by left|right].
          rewrite (all_length w Hnd Hwf). lia. }
      set (w1 := mkWorld (change_count 1 p (db w)) (rel w ∪ {[p]})
                   (mkManager (instance (manager w)) (all w ++ [t]) false)).
      destruct (IH w1) as (w' & Hrun & Hinv & Hrel & Htp & Hi & Hc).
      { split; [by apply wf_table_change_count|]. split.
        - unfold wf_rel. simpl. rewrite table_pks_change_count.
          intros q [Hq| ->%elem_of_singleton]%elem_of_union; [by apply Hwf|done].
        - simpl. split.
          + rewrite pks_app, (all_pks w Hwf), pks_cons, Hp.
            unfold pks. simpl. set_solver.
          + apply Forall_app. split; [|constructor; [by eexists|done]].
            unfold all. apply Forall_fmap, Forall_forall. by eexists. }
      { simpl. rewrite table_pks_change_count. done. }
      { simpl. replace (rel w ∪ {[p]} ∪ pks ts) with (rel w ∪ ({[p]} ∪ pks ts))
          by set_solver. done. }
      exists w'. split; [done|]. split; [done|].
      split; [rewrite Hrel; simpl; set_solver|].
      split; [rewrite Htp; simpl; apply table_pks_change_count|].
      split; [done|].
      intros q. rewrite Hc. simpl. rewrite count_of_change_count.
      destruct (count_of q (db w)); simpl; [|done]. f_equal.
      destruct (decide (q = p)) as [->|Hne].
      * rewrite decide_False by set_solver. rewrite decide_True by set_solver.
        done.
      * destruct (decide (q ∈ pks ts ∖ (rel w ∪ {[p]}))),
          (decide (q ∈ ({[p]} ∪ pks ts) ∖ rel w)); try done; exfalso; set_solver.
Qed.

(** The second loop of [save]: the tags that are not among the new ones
    leave the relation, each once, and are counted down. *)
Lemma remove_loop new_tags olds w :
  wf_table (db w) → wf_rel w →
  Forall (fun t => is_Some (pk t)) olds →
  Forall (fun t => is_Some (pk t)) new_tags →
  ∃ w', for_each olds (remove_if_old tag_options new_tags) w = (Ok tt, w') ∧
    wf_table (db w') ∧ wf_rel w' ∧
    rel w' = rel w ∖ (pks olds ∖ pks new_tags) ∧
    table_pks (db w') = table_pks (db w) ∧
    instance (manager w') = instance (manager w) ∧
    (∀ q, count_of q (db w') =
          (fun c => if decide (q ∈ (pks olds ∖ pks new_tags) ∩ rel w)
                    then (c + -1)%Z else c)
            <$> count_of q (db w)).
Proof.
  intros Hnd Hwf Holds Hnew. revert w Hnd Hwf.
  induction Holds as [|t olds [p Hp] _ IH]; intros w Hnd Hwf.
  - exists w. split; [done|]. split; [done|]. split; [done|].
    split; [unfold pks; simpl; set_solver|]. split; [done|]. split; [done|].
    intros q. destruct (count_of q (db w)); simpl; [|done].
    rewrite decide_False; [done|]. unfold pks. simpl. set_solver.
  - rewrite for_each_cons. unfold remove_if_old at 1.
    rewrite pks_cons, Hp.
    destruct (tag_in t new_tags) eqn:Hin; simpl.
    + apply (tag_in_pks t p _ Hp) in Hin.
      destruct (IH w Hnd Hwf) as (w' & Hrun & Hnd' & Hwf' & Hrel & Htp & Hi & Hc).
      exists w'. split; [done|]. split; [done|]. split; [done|].
      split; [rewrite Hrel; set_solver|]. split; [done|]. split; [done|].
      intros q. rewrite Hc. destruct (count_of q (db w)); simpl; [|done].
      destruct (decide (q ∈ (pks olds ∖ pks new_tags) ∩ rel w)),
        (decide (q ∈ (({[p]} ∪ pks olds) ∖ pks new_tags) ∩ rel w));
        try done; exfalso; set_solver.
    + assert (Hout : p ∉ pks new_tags).
      { intros Hc. apply (tag_in_pks t p _ Hp) in Hc. congruence. }
      destruct (remove_one w t p Hp Hnd Hwf) as (w1 & -> & Hrel1 & Hdb1 & Hi1).
      assert (Htp1 : table_pks (db w1) = table_pks (db w)).
      { rewrite Hdb1. destruct (decide (p ∈ rel w)); [|done].
        apply table_pks_change_count. }
      destruct (IH w1) as (w' & Hrun & Hnd' & Hwf' & Hrel & Htp & Hi & Hc).
      { rewrite Hdb1. destruct (decide (p ∈ rel w)); [|done].
        by apply wf_table_change_count. }
      { unfold wf_rel. rewrite Hrel1, Htp1. intros q Hq. apply Hwf. set_solver. }
      exists w'. split; [done|]. split; [done|]. split; [done|].
      split; [rewrite Hrel, Hrel1; set_solver|].
      split; [by rewrite Htp|]. split; [by rewrite Hi|].
      intros q. rewrite Hc, Hrel1, Hdb1.
      destruct (decide (p ∈ rel w)) as [Hpr|Hpr].
      * rewrite count_of_change_count.
        destruct (count_of q (db w)); simpl; [|done]. f_equal.
        destruct (decide (q = p)) as [->|Hne].
        -- rewrite decide_False by set_solver. rewrite decide_True by set_solver.
           done.
        -- destruct (decide (q ∈ (pks olds ∖ pks new_tags) ∩ (rel w ∖ {[p]}))),
             (decide (q ∈ (({[p]} ∪ pks olds) ∖ pks new_tags) ∩ rel w));
             try done; exfalso; set_solver.
      * destruct (count_of q (db w)); simpl; [|done]. f_equal.
        destruct (decide (q ∈ (pks olds ∖ pks new_tags) ∩ (rel w ∖ {[p]}))),
          (decide (q ∈ (({[p]} ∪ pks olds) ∖ pks new_tags) ∩ rel w));
          try done; exfalso; set_solver.
Qed.

(** [save] has nothing to do when nothing changed and it is not forced. *)
Lemma save_unchanged w :
  changed (manager w) = false → save tag_options false w = (Ok tt, w).
Proof. intros Hc. unfold save. unfold_monad. by rewrite Hc. Qed.

(** A run of [save] once the desired tags are in the table. *)
Lemma save_run force w new_tags w1 :
  changed (manager w) = true ∨ force = true →
  wf_table (db w) → wf_rel w →
  Forall (fun t => ∀ p, pk t = Some p → p ∈ table_pks (db w)) (tags (manager w)) →
  ensure (tags (manager w)) w = (Ok new_tags, w1) →
  (max_count tag_options = 0 ∨
   Z.of_nat (size (rel w ∪ pks new_tags)) ≤ max_count tag_options)%Z →
  ∃ w', save tag_options force w = (Ok tt, w') ∧
    rel w' = pks new_tags ∧
    (∀ q, count_of q (db w') =
          (fun c => if decide (q ∈ pks new_tags ∖ rel w) then (c + 1)%Z
                    else if decide (q ∈ rel w ∖ pks new_tags) then (c + -1)%Z
                    else c) <$> count_of q (db w1)) ∧
    tags (manager w') = new_tags ∧
    changed (manager w') = false.
Proof.
  intros Hgo Hnd Hwf Hcur Hens Hmax.
  destruct (ensure_ok _ _ _ _ Hens Hcur) as (created & Hw1 & Hcr & Hnd1 & Hnew).
  specialize (Hnd1 Hnd).
  assert (Hrel1 : rel w1 = rel w) by by subst w1.
  assert (Hwf1 : wf_rel w1).
  { unfold wf_rel. rewrite Hrel1. subst w1. simpl. rewrite table_pks_app.
    intros q Hq. apply elem_of_union_l. by apply Hwf. }
  set (w2 := set_manager (fun m => with_changed false (with_tags (all w1) m)) w1).
  destruct (add_loop new_tags w2) as (w3 & Hadd & Hinv3 & Hrel3 & Htp3 & Hi3 & Hc3).
  { split; [done|]. split; [done|]. split; [exact (all_pks w1 Hwf1)|].
    simpl. unfold all. apply Forall_fmap, Forall_forall. by eexists. }
  { done. }
  { simpl. by rewrite Hrel1. }
  destruct Hinv3 as (Hnd3 & Hwf3 & Htags3 & Hsaved3).
  destruct (remove_loop new_tags (tags (manager w3)) w3 Hnd3 Hwf3 Hsaved3)
    as (w4 & Hrem & _ & _ & Hrel4 & _ & _ & Hc4).
  { eapply Forall_impl; [exact Hnew|]. intros t (p & Hp & _). by eexists. }
  exists (set_manager (with_changed false) (set_manager (with_tags new_tags) w4)).
  split.
  - unfold save. unfold bind at 1, gets at 1.
    assert (negb (changed (manager w)) && negb force = false) as ->.
    { destruct Hgo as [-> | ->]; [done|]. apply andb_false_r. }
    unfold bind at 1, gets at 1. unfold bind at 1. rewrite Hens.
    unfold bind at 1, reload, modify at 1. fold w2.
    unfold bind at 1. rewrite Hadd.
    unfold bind at 1, gets at 1. unfold bind at 1. rewrite Hrem.
    reflexivity.
  - assert (Hrel2 : rel w2 = rel w) by exact Hrel1.
    assert (Hdb2 : db w2 = db w1) by reflexivity.
    rewrite Hrel2 in Hrel3, Hc3. rewrite Hdb2 in Hc3.
    rewrite Htags3, Hrel3 in Hrel4, Hc4.
    clearbody w2. clear Hadd Hrem Hens Hmax Hcur Hnew Hcr Hsaved3 Htags3.
    cbn [rel db manager tags changed set_manager with_changed with_tags].
    split.
    { rewrite Hrel4. clear. apply set_eq. intros x.
      rewrite !elem_of_difference, !elem_of_union.
      destruct (decide (x ∈ pks new_tags)); tauto. }
    split; [|done].
    intros q. rewrite Hc4, Hc3.
    destruct (count_of q (db w1)); [|done].
    cbn [fmap option_fmap option_map]. f_equal.
    destruct (decide (q ∈ pks new_tags ∖ rel w)) as [H1|H1].
    + rewrite decide_False; [done|]. clear -H1.
      rewrite elem_of_intersection, !elem_of_difference, !elem_of_union in *.
      tauto.
    + destruct (decide (q ∈ rel w ∖ pks new_tags)) as [H2|H2].
      * rewrite decide_True; [done|]. clear -H2.
        rewrite elem_of_intersection, !elem_of_difference, !elem_of_union in *.
        tauto.
      * rewrite decide_False; [done|]. clear -H1 H2.
        rewrite elem_of_intersection, !elem_of_difference, !elem_of_union in *.
        tauto.
Qed.

(** The runs of [save] in which the guard of [_add] does not fire.
    Unchanged and not forced, [save] returns at once and touches nothing.
    Otherwise it first runs [_ensure_tags_db] on the tags of the manager;
    then, when [max_count] is not set or the tags of the relation and those
    returned together are not more than [max_count], it adds to the relation
    the returned tags that it lacks and counts each of them up once, removes
    from it the tags that were not returned and counts each of them down
    once, and leaves the manager with the returned tags and [changed]
    cleared. *)
Lemma save_reconciles force w :
  (changed (manager w) = false → force = false →
   save tag_options force w = (Ok tt, w)) ∧
  (changed (manager w) = true ∨ force = true →
   wf_table (db w) → wf_rel w →
   Forall (fun t => ∀ p, pk t = Some p → p ∈ table_pks (db w))
     (tags (manager w)) →
   names_unique (case_sensitive tag_options) (db w) →
   ∃ new_tags w1,
     ensure (tags (manager w)) w = (Ok new_tags, w1) ∧
     Forall (fun t => ∃ p, pk t = Some p ∧ p ∈ table_pks (db w1)) new_tags ∧
     ((max_count tag_options = 0 ∨
       Z.of_nat (size (rel w ∪ pks new_tags)) ≤ max_count tag_options)%Z →
      ∃ w', save tag_options force w = (Ok tt, w') ∧
        rel w' = pks new_tags ∧
        (∀ q, count_of q (db w') =
              (fun c => if decide (q ∈ pks new_tags ∖ rel w) then (c + 1)%Z
                        else if decide (q ∈ rel w ∖ pks new_tags) then (c + -1)%Z
                        else c) <$> count_of q (db w1)) ∧
        tags (manager w') = new_tags ∧
        changed (manager w') = false)).
Proof.
  split.
  - intros Hc ->. by apply save_unchanged.
  - intros Hgo Hnd Hwf Hcur Hnu.
    destruct (ensure_total (tags (manager w)) w Hnu) as (new_tags & w1 & Hens).
    exists new_tags, w1. split; [done|]. split.
    + by destruct (ensure_ok _ _ _ _ Hens Hcur) as (_ & _ & _ & _ & ?).
    + intros Hmax. by apply (save_run force w new_tags w1).
Qed.

End SaveFacts.

Lemma save_reconciles_witness :
  ∃ w', RelatedManagerTagMixin.save cased_options false related_wants_bar_new
        = (Ok tt, w') ∧
        RelatedManagerTagMixin.rel w'
        = pks (RelatedManagerTagMixin.tags (RelatedManagerTagMixin.manager w')) ∧
        RelatedManagerTagMixin.changed (RelatedManagerTagMixin.manager w') = false.
Proof.
  destruct (save_reconciles cased_options false related_wants_bar_new)
    as [_ Hsave].
  destruct Hsave as (new_tags & w1 & _ & _ & Hrun).
  - left. reflexivity.
  - unfold wf_table. apply (bool_decide_unpack _). vm_compute. exact I.
  - unfold wf_rel. apply (bool_decide_unpack _). vm_compute. exact I.
  - repeat constructor; intros p [= <-];
      apply (bool_decide_unpack _); vm_compute; exact I.
  - unfold names_unique. apply (bool_decide_unpack _). vm_compute. exact I.
  - destruct Hrun as (w' & Hrun & Hrel & _ & Htags & Hch); [left; reflexivity|].
    exists w'. split; [exact Hrun|]. split; [|exact Hch].
    rewrite Htags. exact Hrel.
Defined.

(** C1. [save] does not bring the relation to the tags that [set_tag_list]
    took. On a field that takes one tag the instance is tagged [Foo];
    [set_tag_list] takes the one name [bar], which is within [max_count],
    and leaves the manager changed with the tag [bar]. [save] then adds
    before it removes: [_add] reloads the tags, finds the field full and
    raises [ValueError]. The relation still holds [Foo] and no count has
    moved, the manager is back to the tag [Foo] with [changed] cleared, so
    the change is lost, and saving again does nothing. *)
Theorem save_raises_on_replacement :
  max_count single_tag_options = 1%Z ∧
  RelatedManagerTagMixin.rel related_Foo = {[1%positive]} ∧
  RelatedManagerTagMixin.set_tag_list single_tag_options ["bar"] related_Foo
  = (Ok tt, related_wants_bar) ∧
  RelatedManagerTagMixin.changed (RelatedManagerTagMixin.manager related_wants_bar)
  = true ∧
  RelatedManagerTagMixin.tags (RelatedManagerTagMixin.manager related_wants_bar)
  = [mkTag (Some 3%positive) "bar" false] ∧
  ∃ w', RelatedManagerTagMixin.save single_tag_options false related_wants_bar
        = (Raise ValueError, w') ∧
        RelatedManagerTagMixin.rel w' = {[1%positive]} ∧
        RelatedManagerTagMixin.db w' = RelatedManagerTagMixin.db related_Foo ∧
        RelatedManagerTagMixin.tags (RelatedManagerTagMixin.manager w')
        = [mkTag (Some 1%positive) "Foo" false] ∧
        RelatedManagerTagMixin.changed (RelatedManagerTagMixin.manager w')
        = false ∧
        RelatedManagerTagMixin.save single_tag_options false w' = (Ok tt, w').
Proof.
  split; [reflexivity|]. split; [reflexivity|].
  split; [vm_compute; reflexivity|].
  split; [reflexivity|]. split; [vm_compute; reflexivity|].
  eexists. split; [vm_compute; reflexivity|].
  split; [reflexivity|]. split; [reflexivity|]. split; [reflexivity|].
  split; reflexivity.
Qed.

(** * Part III: further properties of the managers and the options *)

(** ** Names stored by [SingleTagManager.set] *)

Lemma remove_quotes_no_quote s c :
  c ∈ list_ascii_of_string (remove_quotes s) → c ≠ quote_char.
Proof.
  induction s as [|a s IH]; simpl; [by intros ?%elem_of_nil|].
  destruct (decide (a = quote_char)); [done|].
  simpl. intros [->|Hc]%elem_of_cons; [done|by apply IH].
Qed.

Lemma lower_remove_quotes `{!Folding} s :
  lower (remove_quotes (lower s)) = remove_quotes (lower s).
Proof. by rewrite lower_quotes, lower_idemp. Qed.

Section SingleExtras.

Import SingleTagManager.

Context `{!Folding}.
Variable tag_options : Options.

(** The name that a string stands for has no double-quote character, and
    is in lower case when [force_lowercase] is set. *)
Lemma parsed_string_clean s n :
  parsed_tag_name tag_options (SStr s) = Some n →
  (∀ c, c ∈ list_ascii_of_string n → c ≠ quote_char) ∧
  (force_lowercase tag_options = true → lower n = n).
Proof.
  unfold parsed_tag_name. destruct s as [|a s].
  { intros [= <-]. split; [by intros c ?%elem_of_nil|].
    intros _. by apply lower_empty. }
  destruct (force_lowercase tag_options) eqn:Hfl.
  - destruct (remove_quotes (lower (String a s))) as [|b r] eqn:Hr; [done|].
    intros [= <-]. rewrite <- Hr. split.
    + intros c. apply remove_quotes_no_quote.
    + intros _. apply lower_remove_quotes.
  - destruct (remove_quotes (String a s)) as [|b r] eqn:Hr; [done|].
    intros [= <-]. rewrite <- Hr. split; [|done].
    intros c. apply remove_quotes_no_quote.
Qed.

(** Under [force_lowercase] a string stands for the name that the string
    in lower case stands for. *)
Lemma parsed_lower s :
  force_lowercase tag_options = true →
  parsed_tag_name tag_options (SStr s)
  = parsed_tag_name tag_options (SStr (lower s)).
Proof.
  intros Hfl.
  assert (Hne : ∀ s', s' ≠ EmptyString →
    parsed_tag_name tag_options (SStr s')
    = match remove_quotes (lower s') with
      | EmptyString => None
      | String c r => Some (String c r)
      end).
  { intros [|c r] Hs'; [done|]. unfold parsed_tag_name. by rewrite Hfl. }
  destruct s as [|a s].
  - assert (lower EmptyString = EmptyString) as -> by by apply lower_empty.
    done.
  - assert (Hl : lower (String a s) ≠ EmptyString).
    { intros E. by apply (proj1 (lower_empty _)) in E. }
    rewrite (Hne _ Hl), lower_idemp. by apply Hne.
Qed.

(** X1. [set] with a string never raises and writes the manager only; the
    name it leaves in [tag_name] holds no double-quote character, and is in
    lower case when [force_lowercase] is set. *)
Theorem set_string_stores_clean_name s w :
  ∃ w', set tag_options (SStr s) w = (Ok tt, w') ∧
    db w' = db w ∧ instance w' = instance w ∧
    ∀ n, tag_name (manager w') = Some n →
      (∀ c, c ∈ list_ascii_of_string n → c ≠ quote_char) ∧
      (force_lowercase tag_options = true → lower n = n).
Proof.
  destruct (set_spec tag_options (SStr s) w) as (w' & Hrun & Hdb & Hi & Hn).
  exists w'. split; [done|]. split; [done|]. split; [done|].
  intros n. rewrite Hn. apply parsed_string_clean.
Qed.

(** X2. With [force_lowercase], [set] does with a string what it does with
    the string in lower case. *)
Theorem set_string_lowercases s w :
  force_lowercase tag_options = true →
  set tag_options (SStr s) w = set tag_options (SStr (lower s)) w.
Proof.
  intros Hfl. unfold set. by rewrite (parsed_lower s Hfl).
Qed.

(** X3. A manager made for an instance without a tag starts unchanged, with
    no tag name; [set] with an empty value then marks it changed all the
    same, since the empty name it stores is not [None], and [get] still
    answers no tag. *)
Theorem set_empty_marks_untagged_changed d a :
  a = None ∨ a = Some None →
  ∃ w, __init__ d (mkInstance a None) = (Ok tt, w) ∧
    changed (manager w) = false ∧ tag_name (manager w) = None ∧
    ∃ w', set tag_options SNone w = (Ok tt, w') ∧
      changed (manager w') = true ∧
      tag_name (manager w') = Some EmptyString ∧
      get tag_options w' = (Ok None, w').
Proof.
  intros [-> | ->]; (eexists; split; [reflexivity|]);
    (split; [done|]); (split; [done|]);
    (eexists; split; [reflexivity|]); done.
Qed.

(** X4. A changed manager whose pending name has no record: [get] answers
    an unsaved tag of that name, not protected, and writes neither the table
    nor the instance; [pre_save_handler] then inserts the record, counts it
    once and stores its primary key on the instance. *)
Theorem pending_tag_saved_on_pre_save required w n :
  changed (manager w) = true → tag_name (manager w) = Some n →
  n ≠ EmptyString → tag_cache (manager w) = None →
  lookup_name (case_sensitive tag_options) n (db w) = Raise DoesNotExist →
  (∀ p, attname (instance w) = Some (Some p) → ∃ t, get_pk p (db w) = Ok t) →
  (∃ w1, get tag_options w = (Ok (Some (mkTag None n false)), w1) ∧
         db w1 = db w ∧ instance w1 = instance w) ∧
  (∃ w', pre_save_handler tag_options required w = (Ok tt, w') ∧
         db w' = db w ++ [mkRow (fresh_pk (db w)) n 1 false] ∧
         attname (instance w') = Some (Some (fresh_pk (db w))) ∧
         changed (manager w') = false).
Proof.
  intros Hc Hn Hne Htc Hl Hst. split.
  - eexists. split; [by apply get_unsaved|done].
  - by apply pre_save_unsaved.
Qed.

(** X5. Saving an instance whose pending name has a record, while another
    tag is stored: the new tag is counted up once, the old one down once,
    and the instance holds the new tag. *)
Theorem changed_save_moves_one_count required w n tag p q old :
  changed (manager w) = true → tag_name (manager w) = Some n →
  n ≠ EmptyString →
  lookup_name (case_sensitive tag_options) n (db w) = Ok tag →
  pk tag = Some p →
  attname (instance w) = Some (Some q) →
  get_pk q (db w) = Ok old →
  ∃ w', save_instance tag_options required w = (Ok tt, w') ∧
    db w' = change_count (-1) q (change_count 1 p (db w)) ∧
    attname (instance w') = Some (Some p) ∧
    changed (manager w') = false ∧
    (∀ r, count_of r (db w') =
          (fun c => if decide (r = q) then
                      ((if decide (r = p) then c + 1 else c) + -1)%Z
                    else if decide (r = p) then (c + 1)%Z else c)
            <$> count_of r (db w)).
Proof.
  intros Hc Hn Hne Hl Hp Ha Hq.
  pose proof (get_pk_found _ _ _ Hq) as Hqk.
  assert (Hrun : save_instance tag_options required w =
    (Ok tt,
     mkWorld (change_count (-1) q (change_count 1 p (db w)))
       (mkInstance (Some (Some p)) (Some (Some tag)))
       (mkManager false (Some n) (tag_cache (manager w)) (Some old)))).
  { unfold save_instance, pre_save_handler. unfold bind at 1. unfold bind at 1.
    rewrite (get_found tag_options w n tag Hc Hn Hne Hl).
    unfold flush_actual, get_actual, descriptor__get__, set_actual,
      descriptor__set__, post_save_handler, increment, decrement.
    unfold_monad. rewrite Hc. cbn. rewrite Ha. cbn. rewrite Ha, Hq. cbn.
    rewrite Hp. cbn. rewrite Hp. cbn. rewrite Hqk.
    unfold set_db, set_manager, set_instance, with_changed, with_removed_tag.
    cbn. by rewrite Hn. }
  eexists. split; [exact Hrun|]. simpl. repeat split; try done.
  intros r. rewrite !count_of_change_count.
  destruct (count_of r (db w)); simpl; [|done].
  by destruct (decide (r = q)), (decide (r = p)).
Qed.

End SingleExtras.

Lemma pending_tag_saved_on_pre_save_witness :
  ∃ w', SingleTagManager.pre_save_handler sample_options false
          (SingleTagManager.set sample_options (SStr "c") single_tagged_a).2
        = (Ok tt, w') ∧
        SingleTagManager.attname (SingleTagManager.instance w')
        = Some (Some 3%positive).
Proof.
  destruct (pending_tag_saved_on_pre_save sample_options false
              (SingleTagManager.set sample_options (SStr "c") single_tagged_a).2
              "c") as [_ (w' & Hrun & _ & Ha & _)];
    [reflexivity|reflexivity|discriminate|reflexivity|reflexivity| |].
  - intros p [= <-]. eexists. reflexivity.
  - exists w'. split; [exact Hrun|exact Ha].
Defined.

Lemma set_string_lowercases_witness :
  SingleTagManager.set (mkOptions false true 0) (SStr "Red") single_tagged_a
  = SingleTagManager.set (mkOptions false true 0) (SStr "red") single_tagged_a.
Proof.
  exact (set_string_lowercases (mkOptions false true 0) "Red" single_tagged_a
           eq_refl).
Defined.

Lemma set_empty_marks_untagged_changed_witness :
  ∃ w, SingleTagManager.__init__ sample_table
         (SingleTagManager.mkInstance (Some None) None) = (Ok tt, w) ∧
       SingleTagManager.changed (SingleTagManager.manager w) = false.
Proof.
  destruct (set_empty_marks_untagged_changed sample_options sample_table
              (Some None)) as (w & Hrun & Hc & _); [by right|].
  exists w. split; [exact Hrun|exact Hc].
Defined.

Lemma changed_save_moves_one_count_witness :
  ∃ w', save_instance sample_options false single_a_pending_b = (Ok tt, w') ∧
        count_of 1 (SingleTagManager.db w') = Some 0%Z ∧
        count_of 2 (SingleTagManager.db w') = Some 1%Z.
Proof.
  destruct (changed_save_moves_one_count sample_options false single_a_pending_b
              "b" (mkTag (Some 2%positive) "b" false) 2%positive 1%positive
              (mkTag (Some 1%positive) "a" false))
    as (w' & Hrun & _ & _ & _ & Hcount);
    [reflexivity|reflexivity|discriminate|reflexivity|reflexivity|reflexivity
    |reflexivity|].
  exists w'. split; [exact Hrun|]. split; rewrite Hcount; reflexivity.
Defined.

(** ** The single tag manager between two saves *)

Section SingleLifecycle.

Import SingleTagManager.

Context `{!Folding}.
Variable tag_options : Options.

(** X6. [set] is idempotent: giving the same value a second time leaves the
    whole state as the first call left it. *)
Theorem set_idempotent v w :
  set tag_options v (set tag_options v w).2
  = (Ok tt, (set tag_options v w).2).
Proof.
  destruct (set_spec tag_options v w) as (w' & Hrun & _ & _ & Hn).
  rewrite Hrun. cbn [snd]. by apply set_same_name.
Qed.

(** X7. A manager made for an instance that stores a tag starts unchanged
    with the name of that tag; [get] answers the stored tag, and assigning
    that tag again changes nothing. *)
Theorem set_stored_tag_noop d i p t :
  attname i = Some (Some p) → cache i = None → get_pk p d = Ok t →
  ∃ w, __init__ d i = (Ok tt, w) ∧
    db w = d ∧ attname (instance w) = Some (Some p) ∧
    changed (manager w) = false ∧ tag_name (manager w) = Some (name t) ∧
    get tag_options w = (Ok (Some t), w) ∧
    set tag_options (STag t) w = (Ok tt, w).
Proof.
  intros Ha Hc Hq.
  unfold __init__, get_actual, descriptor__get__. unfold_monad.
  rewrite Ha. cbn. rewrite Hc, Ha, Hq. cbn.
  eexists. split; [reflexivity|]. cbn. rewrite Ha. repeat split; try done.
  unfold set. unfold_monad. by rewrite decide_True.
Qed.

(** X8. Whatever [get] answers, it writes neither the table nor the stored
    primary key, and it leaves [changed], [tag_name] and [removed_tag] as
    they are: only the two caches may be filled. *)
Theorem get_writes_caches_only w :
  db (get tag_options w).2 = db w ∧
  attname (instance (get tag_options w).2) = attname (instance w) ∧
  changed (manager (get tag_options w).2) = changed (manager w) ∧
  tag_name (manager (get tag_options w).2) = tag_name (manager w) ∧
  removed_tag (manager (get tag_options w).2) = removed_tag (manager w).
Proof.
  unfold get, get_actual, descriptor__get__. unfold_monad.
  destruct (changed (manager w)) eqn:Hc.
  - destruct (tag_name (manager w)) as [tn|] eqn:Hn;
      [|cbn; by rewrite ?Hc, ?Hn].
    destruct (truthy_name (Some tn)); [|cbn; by rewrite ?Hc, ?Hn].
    destruct (lookup_name _ tn (db w)) as [tag|[]];
      cbn; rewrite ?Hc, ?Hn; try done.
    destruct (tag_cache (manager w)); cbn; by rewrite ?Hc, ?Hn.
  - destruct (attname (instance w)) as [[p|]|] eqn:Ha;
      [| |cbn; by rewrite ?Hc, ?Ha];
      (destruct (cache (instance w)); [cbn; by rewrite ?Hc, ?Ha|]);
      rewrite ?Ha; [|cbn; by rewrite ?Hc, ?Ha].
    destruct (get_pk p (db w)); cbn; by rewrite ?Hc, ?Ha.
Qed.

(** X9. What [get] answers after [set] gave the field another name: nothing
    for an empty name, else the record the name looks up under the case rule
    of the field, else a tag without primary key, not protected, when there
    is no record; an ambiguous name raises. The table is not written. *)
Theorem get_after_set v w :
  tag_name (manager w) ≠ parsed_tag_name tag_options v →
  (get tag_options (set tag_options v w).2).1 =
    match parsed_tag_name tag_options v with
    | Some n =>
        if truthy_name (Some n) then
          match lookup_name (case_sensitive tag_options) n (db w) with
          | Ok tag => Ok (Some tag)
          | Raise DoesNotExist => Ok (Some (mkTag None n false))
          | Raise e => Raise e
          end
        else Ok None
    | None => Ok None
    end ∧
  db (get tag_options (set tag_options v w).2).2 = db w.
Proof.
  intros Hne. unfold set. unfold_monad. rewrite decide_False by done.
  cbn [snd]. unfold get. unfold_monad.
  destruct (parsed_tag_name tag_options v) as [n|]; [|done].
  destruct (truthy_name (Some n)); [|done].
  cbn [db set_manager].
  destruct (lookup_name _ n (db w)) as [tag|[]]; done.
Qed.

(** X10. On an unchanged manager [pre_save_handler] writes neither the
    table, nor the stored primary key, nor the manager, whether it returns
    or raises. *)
Theorem pre_save_unchanged_writes_nothing required w :
  changed (manager w) = false →
  db (pre_save_handler tag_options required w).2 = db w ∧
  attname (instance (pre_save_handler tag_options required w).2)
  = attname (instance w) ∧
  manager (pre_save_handler tag_options required w).2 = manager w.
Proof.
  intros Hc. unfold pre_save_handler, get, get_actual, descriptor__get__.
  unfold_monad. rewrite Hc.
  destruct (attname (instance w)) as [[p|]|] eqn:Ha.
  - destruct (cache (instance w)) as [r|].
    + destruct (bool_decide (r = None) && required); [done|]. cbn. by rewrite Hc.
    + rewrite Ha. destruct (get_pk p (db w)) as [t|e]; [|done].
      destruct (bool_decide (Some t = None) && required); [done|].
      cbn. by rewrite Hc.
  - destruct (cache (instance w)) as [r|].
    + destruct (bool_decide (r = None) && required); [done|]. cbn. by rewrite Hc.
    + rewrite Ha.
      destruct (bool_decide (@None Tag = None) && required); [done|].
      cbn. by rewrite Hc.
  - destruct (bool_decide (@None Tag = None) && required); [done|].
    cbn. by rewrite Hc.
Qed.

(** X11. [post_delete_handler] counts the stored tag down once: run again
    on the state it left, it finds no stored tag and changes nothing. *)
Theorem post_delete_decrements_once w p t :
  attname (instance w) = Some (Some p) → get_pk p (db w) = Ok t →
  ∃ w', post_delete_handler w = (Ok tt, w') ∧
        db w' = change_count (-1) p (db w) ∧
        post_delete_handler w' = (Ok tt, w').
Proof.
  intros Ha Hq. rewrite (post_delete_stored w p t Ha Hq).
  eexists. split; [reflexivity|]. split.
  - cbn. unfold decrement. by rewrite (get_pk_found _ _ _ Hq).
  - reflexivity.
Qed.

End SingleLifecycle.

Lemma set_stored_tag_noop_witness :
  ∃ w, SingleTagManager.__init__ sample_table
         (SingleTagManager.mkInstance (Some (Some 1%positive)) None) = (Ok tt, w) ∧
       SingleTagManager.set sample_options (STag (mkTag (Some 1%positive) "a" false)) w
       = (Ok tt, w).
Proof.
  destruct (set_stored_tag_noop sample_options sample_table
              (SingleTagManager.mkInstance (Some (Some 1%positive)) None)
              1%positive (mkTag (Some 1%positive) "a" false))
    as (w & Hrun & _ & _ & _ & _ & _ & Hset);
    [reflexivity|reflexivity|reflexivity|].
  exists w. split; [exact Hrun|exact Hset].
Defined.

Lemma get_after_set_witness :
  (SingleTagManager.get sample_options
     (SingleTagManager.set sample_options (SStr "B") single_tagged_a).2).1
  = Ok (Some (mkTag (Some 2%positive) "b" false)).
Proof.
  destruct (get_after_set sample_options (SStr "B") single_tagged_a) as [H _];
    [discriminate|].
  rewrite H. reflexivity.
Defined.

Lemma pre_save_unchanged_writes_nothing_witness :
  SingleTagManager.manager
    (SingleTagManager.pre_save_handler sample_options true single_tagged_a).2
  = SingleTagManager.manager single_tagged_a.
Proof.
  destruct (pre_save_unchanged_writes_nothing sample_options true single_tagged_a)
    as (_ & _ & H); [reflexivity|exact H].
Defined.

Lemma post_delete_decrements_once_witness :
  ∃ w', SingleTagManager.post_delete_handler single_tagged_a = (Ok tt, w') ∧
        SingleTagManager.post_delete_handler w' = (Ok tt, w').
Proof.
  destruct (post_delete_decrements_once single_tagged_a 1%positive
              (mkTag (Some 1%positive) "a" false))
    as (w' & Hrun & _ & Hagain); [reflexivity|reflexivity|].
  exists w'. split; [exact Hrun|exact Hagain].
Defined.

(** ** The setters of the related manager *)

Lemma bind_invariant {S A B} (P : S → Prop) (m : M S A) (k : A → M S B) :
  (∀ s, P s → P (m s).2) → (∀ a s, P s → P (k a s).2) →
  ∀ s, P s → P (bind m k s).2.
Proof.
  intros Hm Hk s Hs. unfold bind. specialize (Hm s Hs).
  destruct (m s) as [[a|e] s']; [by apply Hk|done].
Qed.

Section RelatedSetters.

Import RelatedManagerTagMixin.

Context `{!Folding}.
Variable tag_options : Options.
Variable parse_tags : string → list string.

(** [set_tag_list] keeps the table and the relation, whatever its outcome. *)
Lemma set_tag_list_frame ns w0 w :
  db w0 = db w ∧ rel w0 = rel w →
  db (set_tag_list tag_options ns w0).2 = db w ∧
  rel (set_tag_list tag_options ns w0).2 = rel w.
Proof.
  revert w0. unfold set_tag_list.
  apply (bind_invariant (fun s => db s = db w ∧ rel s = rel w)); [done|].
  intros i s Hs. destruct (negb i); [done|].
  destruct (_ && _); [done|]. revert s Hs.
  apply (bind_invariant (fun s => db s = db w ∧ rel s = rel w)); [done|].
  intros cur.
  apply (bind_invariant (fun s => db s = db w ∧ rel s = rel w)).
  - apply (for_fold_invariant (fun s => db s = db w ∧ rel s = rel w)).
    intros [k t] [acc m] s Hs. unfold see_staying.
    by destruct (decide (k ∈ dom m)).
  - intros staying.
    apply (bind_invariant (fun s => db s = db w ∧ rel s = rel w)); [|done].
    apply (for_fold_invariant (fun s => db s = db w ∧ rel s = rel w)).
    intros n acc s Hs. unfold find_or_make. unfold_monad.
    by destruct (lookup_name _ n (db s)) as [tag|[]].
Qed.

Lemma set_tag_string_frame tag_string w :
  db (set_tag_string tag_options parse_tags tag_string w).2 = db w ∧
  rel (set_tag_string tag_options parse_tags tag_string w).2 = rel w.
Proof.
  unfold set_tag_string, bind, gets.
  destruct (negb (instance (manager w))); [done|].
  by apply set_tag_list_frame.
Qed.

(** X12. [set_tag_list] and [set_tag_string] write the manager only:
    whether they return or raise, the tag table and the relation of the
    instance are as before. *)
Theorem set_tag_list_writes_manager_only tag_names tag_string w :
  db (set_tag_list tag_options tag_names w).2 = db w ∧
  rel (set_tag_list tag_options tag_names w).2 = rel w ∧
  db (set_tag_string tag_options parse_tags tag_string w).2 = db w ∧
  rel (set_tag_string tag_options parse_tags tag_string w).2 = rel w.
Proof.
  destruct (set_tag_list_frame tag_names w w) as [H1 H2]; [done|].
  destruct (set_tag_string_frame tag_string w) as [H3 H4].
  done.
Qed.

(** X13. Under [force_lowercase], [set_tag_list] does with a list of names
    what it does with the names in lower case. *)
Theorem set_tag_list_lowercases tag_names w :
  force_lowercase tag_options = true →
  set_tag_list tag_options tag_names w
  = set_tag_list tag_options (lower <$> tag_names) w.
Proof.
  intros Hfl.
  assert (E : lower <$> (lower <$> tag_names) = lower <$> tag_names).
  { rewrite <- list_fmap_compose. apply list_fmap_ext.
    intros _ n _. apply lower_idemp. }
  unfold set_tag_list. rewrite Hfl, length_fmap. cbv beta iota zeta.
  by rewrite E.
Qed.

(** X14. On a manager that is not bound to an instance, [get_tag_list],
    [set_tag_list], [set_tag_string], and with them [__eq__] and [__ne__],
    raise [AttributeError] and write nothing. *)
Theorem tag_methods_need_instance tag_names s w :
  instance (manager w) = false →
  (∃ m, get_tag_list w = (Raise (AttributeError m), w)) ∧
  (∃ m, set_tag_list tag_options tag_names w = (Raise (AttributeError m), w)) ∧
  (∃ m, set_tag_string tag_options parse_tags s w
        = (Raise (AttributeError m), w)) ∧
  (∃ m, __eq__ tag_options parse_tags s w = (Raise (AttributeError m), w)) ∧
  (∃ m, __ne__ tag_options parse_tags s w = (Raise (AttributeError m), w)).
Proof.
  intros Hi.
  unfold __ne__, __eq__, set_tag_string, set_tag_list, get_tag_list.
  unfold bind, gets, raise. rewrite Hi. cbn.
  repeat split; by eexists.
Qed.

(** X15. [set_tag_list] with no name empties the tags of the manager; it
    marks the manager changed exactly when there was a tag to drop. *)
Theorem set_tag_list_empty_clears w :
  instance (manager w) = true → (0 ≤ max_count tag_options)%Z →
  ∃ w', set_tag_list tag_options [] w = (Ok tt, w') ∧
    db w' = db w ∧ rel w' = rel w ∧
    tags (manager w') = [] ∧
    changed (manager w') =
      match tags (manager w) with
      | [] => changed (manager w)
      | _ :: _ => true
      end.
Proof.
  intros Hi Hmax.
  destruct (set_tag_list_run tag_options [] w Hi) as
    (w' & Hrun & Hdb & Hrel & _ & Htags & Hch).
  { right. simpl. lia. }
  { intros n Hn. apply names_left_elem in Hn.
    unfold normalized in Hn. destruct (force_lowercase tag_options);
      by apply elem_of_nil in Hn. }
  assert (Hnew : cmp_new_names_of tag_options [] = ∅).
  { unfold cmp_new_names_of, normalized.
    by destruct (force_lowercase tag_options). }
  assert (Hleft : (map_to_list (names_left tag_options w [])).*2 = []).
  { destruct ((map_to_list (names_left tag_options w [])).*2) as [|n l] eqn:E;
      [done|].
    assert (Hn : n ∈ normalized tag_options []).
    { apply (names_left_elem tag_options w). rewrite E. left. }
    unfold normalized in Hn. destruct (force_lowercase tag_options);
      by apply elem_of_nil in Hn. }
  exists w'. split; [done|]. split; [done|]. split; [done|].
  rewrite Hnew, dom_empty_L in Htags, Hch. rewrite Hleft in Htags, Hch.
  split.
  - rewrite Htags, app_nil_r.
    rewrite (filter_none _ (map_to_list (old_tags_of tag_options w))); [done|].
    intros kv _ Hkv. by apply elem_of_empty in Hkv.
  - rewrite Hch. destruct (tags (manager w)) as [|t ts] eqn:Ht.
    + rewrite decide_True; [done|]. split; [|done].
      unfold old_tags_of. rewrite Ht. cbn. unfold dict_of. cbn.
      rewrite map_to_list_empty. constructor.
    + rewrite decide_False; [done|]. intros [Hall _].
      assert (Hk : cmp_name tag_options (name t)
                   ∈ dom (old_tags_of tag_options w)).
      { rewrite old_tags_dom, Ht. apply elem_of_list_to_set.
        unfold cmp_names. cbn. left. }
      apply elem_of_dom in Hk as [x Hx].
      apply elem_of_map_to_list in Hx.
      rewrite Forall_forall in Hall. specialize (Hall _ Hx).
      by apply elem_of_empty in Hall.
Qed.

End RelatedSetters.

Lemma set_tag_list_lowercases_witness :
  RelatedManagerTagMixin.set_tag_list (mkOptions false true 0) ["Bar"; "NEW"]
    related_Foo
  = RelatedManagerTagMixin.set_tag_list (mkOptions false true 0)
      (lower <$> ["Bar"; "NEW"]) related_Foo.
Proof.
  apply (set_tag_list_lowercases (mkOptions false true 0) ["Bar"; "NEW"]
           related_Foo).
  reflexivity.
Defined.

Lemma tag_methods_need_instance_witness :
  ∃ m, RelatedManagerTagMixin.set_tag_list sample_options ["bar"]
         (RelatedManagerTagMixin.__init_tagulous__ cased_table ∅ false).2
       = (Raise (AttributeError m),
          (RelatedManagerTagMixin.__init_tagulous__ cased_table ∅ false).2).
Proof.
  destruct (tag_methods_need_instance sample_options (fun s => [s]) ["bar"]
              "bar"
              (RelatedManagerTagMixin.__init_tagulous__ cased_table ∅ false).2)
    as (_ & H & _); [reflexivity|exact H].
Defined.

Lemma set_tag_list_empty_clears_witness :
  ∃ w', RelatedManagerTagMixin.set_tag_list sample_options [] related_Foo
        = (Ok tt, w') ∧
        RelatedManagerTagMixin.tags (RelatedManagerTagMixin.manager w') = [] ∧
        RelatedManagerTagMixin.changed (RelatedManagerTagMixin.manager w') = true.
Proof.
  destruct (set_tag_list_empty_clears sample_options related_Foo)
    as (w' & Hrun & _ & _ & Ht & Hc); [reflexivity|simpl; lia|].
  exists w'. split; [exact Hrun|]. split; [exact Ht|]. rewrite Hc.
  vm_compute. reflexivity.
Defined.

(** ** Records made by [_ensure_tags_db] *)

Section EnsureFacts.

Import RelatedManagerTagMixin.

Context `{!Folding}.
Variable tag_options : Options.

(** X16. Whether it returns or raises, [_ensure_tags_db] writes nothing but
    new records: the table grows at its end by records of count zero under
    primary keys that were not in use, at most one for each tag that has no
    primary key; the relation and the manager stay as they are. *)
Theorem ensure_tags_db_only_adds_records ts w :
  ∃ created,
    (_ensure_tags_db tag_options ts w).2
    = mkWorld (db w ++ created) (rel w) (manager w) ∧
    Forall (fun r => row_count r = 0%Z ∧ row_pk r ∉ table_pks (db w)) created ∧
    (List.length created
     ≤ List.length (filter (fun t => pk t = None) ts))%nat.
Proof.
  revert w. induction ts as [|t ts IH]; intros w.
  - exists []. cbn. rewrite app_nil_r. split; [by destruct w|]. split; [done|lia].
  - cbn [_ensure_tags_db]. unfold bind at 1.
    destruct (pk t) as [p|] eqn:Hp.
    + unfold ret at 1. destruct (IH w) as (created & Hw & Hcr & Hlen).
      exists created. rewrite filter_cons_False by by rewrite Hp.
      split; [|done]. unfold bind.
      by destruct (_ensure_tags_db tag_options ts w) as [[res|e] w'].
    + rewrite filter_cons_True by done. unfold bind at 1, gets at 1.
      destruct (lookup_name (case_sensitive tag_options) (name t) (db w))
        as [tag|e] eqn:Hl.
      * unfold ret at 1. destruct (IH w) as (created & Hw & Hcr & Hlen).
        exists created. split; [|split; [done|simpl; lia]]. unfold bind.
        by destruct (_ensure_tags_db tag_options ts w) as [[res|e] w'].
      * destruct e;
          try (exists []; rewrite app_nil_r; split; [by destruct w|];
               split; [done|simpl; lia]).
        unfold create, insert_row. cbn [fst snd].
        remember (set_db (fun _ => db w ++
               [mkRow (fresh_pk (db w)) (name t) 0 false]) w) as w_mid
          eqn:Hw_mid.
        destruct (IH w_mid) as (created & Hw & Hcr & Hlen).
        exists (mkRow (fresh_pk (db w)) (name t) 0 false :: created).
        split; [|split].
        -- unfold bind.
           destruct (_ensure_tags_db tag_options ts w_mid) as [[res|e] w'];
             cbn [snd] in *; rewrite Hw; subst w_mid; cbn;
             by rewrite <- app_assoc.
        -- constructor; [split; [done|apply fresh_pk_notin]|].
           eapply Forall_impl; [exact Hcr|]. intros r [? Hr]. split; [done|].
           subst w_mid. cbn in Hr. rewrite table_pks_app in Hr.
           intros Hin. apply Hr. by apply elem_of_union_l.
        -- simpl. lia.
Qed.

(** X17. The tags that [_ensure_tags_db] returns all have a primary key, so
    that running it again on its own result returns the same tags and writes
    nothing. *)
Theorem ensure_tags_db_idempotent ts w res w1 :
  _ensure_tags_db tag_options ts w = (Ok res, w1) →
  Forall (fun t => is_Some (pk t)) res ∧
  List.length res = List.length ts ∧
  _ensure_tags_db tag_options res w1 = (Ok res, w1).
Proof.
  intros Hrun.
  assert (Hres : Forall (fun t => is_Some (pk t)) res
                 ∧ List.length res = List.length ts).
  { revert w res w1 Hrun. induction ts as [|t ts IH]; intros w res w1 Hrun.
    - by injection Hrun as <- <-.
    - cbn [_ensure_tags_db] in Hrun. unfold bind at 1 in Hrun.
      destruct (pk t) as [p|] eqn:Hp.
      + unfold ret at 1 in Hrun. unfold bind in Hrun.
        destruct (_ensure_tags_db tag_options ts w) as [[res'|e] w'] eqn:Hrest;
          [|done].
        injection Hrun as <- <-. destruct (IH _ _ _ Hrest) as [IH1 IH2].
        split; [constructor; [by eexists|done]|simpl; by rewrite IH2].
      + unfold bind at 1, gets at 1 in Hrun.
        destruct (lookup_name (case_sensitive tag_options) (name t) (db w))
          as [tag|e] eqn:Hl.
        * unfold ret at 1 in Hrun. unfold bind in Hrun.
          destruct (_ensure_tags_db tag_options ts w) as [[res'|e] w'] eqn:Hrest;
            [|done].
          injection Hrun as <- <-. destruct (IH _ _ _ Hrest) as [IH1 IH2].
          split; [|simpl; by rewrite IH2].
          constructor; [|done]. by eapply lookup_name_pk.
        * destruct e; try done. unfold create, insert_row in Hrun.
          cbn [fst snd] in Hrun. unfold bind in Hrun.
          destruct (_ensure_tags_db tag_options ts _) as [[res'|e] w'] eqn:Hrest;
            [|done].
          injection Hrun as <- <-. destruct (IH _ _ _ Hrest) as [IH1 IH2].
          split; [constructor; [by eexists|done]|simpl; by rewrite IH2]. }
  destruct Hres as [Hsaved Hlen].
  split; [done|]. split; [done|]. by apply ensure_saved.
Qed.

End EnsureFacts.

Lemma ensure_tags_db_idempotent_witness :
  ∃ res w1,
    RelatedManagerTagMixin._ensure_tags_db cased_options
      [mkTag None "bar" false; mkTag None "new" false] related_Foo = (Ok res, w1) ∧
    RelatedManagerTagMixin._ensure_tags_db cased_options res w1 = (Ok res, w1).
Proof.
  eexists _, _. split; [reflexivity|].
  eapply (ensure_tags_db_idempotent cased_options
            [mkTag None "bar" false; mkTag None "new" false] related_Foo).
  reflexivity.
Defined.

(** ** The counting [add], [remove] and [clear] of the related manager *)

Lemma filter_never {A} (l : list A) : List.filter (fun _ => false) l = [].
Proof. induction l; [done|]. simpl. done. Qed.

Lemma filter_always {A} (l : list A) : List.filter (fun _ => true) l = l.
Proof. induction l as [|x l IH]; [done|]. simpl. by rewrite IH. Qed.

Lemma count_of_decrement_all (rows : list TagRow) q (d : table) :
  NoDup (row_pk <$> rows) →
  count_of q (foldl (fun d tag => decrement tag d) d (of_row <$> rows))
  = (fun c => if decide (q ∈ row_pk <$> rows) then (c + -1)%Z else c)
      <$> count_of q d.
Proof.
  revert d. induction rows as [|r rows IH]; intros d Hnd.
  - cbn. destruct (count_of q d); [|done]. cbn.
    rewrite decide_False; [done|]. by intros ?%elem_of_nil.
  - rewrite fmap_cons in Hnd. apply NoDup_cons in Hnd as [Hr Hnd].
    rewrite fmap_cons. cbn [foldl]. rewrite IH by done.
    unfold decrement. cbn [pk of_row]. rewrite count_of_change_count.
    destruct (count_of q d) as [c|]; [|done].
    cbn [fmap option_fmap option_map]. f_equal.
    rewrite fmap_cons.
    destruct (decide (q = row_pk r)) as [->|Hq].
    + rewrite decide_False by done. rewrite decide_True; [done|]. left.
    + destruct (decide (q ∈ row_pk <$> rows)) as [Hin|Hout].
      * rewrite decide_True; [done|]. by right.
      * rewrite decide_False; [done|].
        intros [?|?]%elem_of_cons; done.
Qed.

Section RelatedCounting.

Import RelatedManagerTagMixin.

Context `{!Folding}.
Variable tag_options : Options.

Lemma decrement_each ts w :
  for_each ts (fun tag => modify (set_db (decrement tag))) w
  = (Ok tt, set_db (fun d => foldl (fun d tag => decrement tag d) d ts) w).
Proof.
  revert w. induction ts as [|t ts IH]; intros w; [by destruct w|].
  rewrite for_each_cons. unfold modify at 1. rewrite IH.
  by destruct w.
Qed.

(** X18. [_add] with a tag that is related already counts it again: the
    relation stays as it is, the count of the tag goes up by one, and the
    tag is appended to the tags of the manager. *)
Theorem add_related_tag_counts_again w t p :
  pk t = Some p → p ∈ rel w →
  (max_count tag_options = 0 ∨
   Z.of_nat (List.length (all w)) + 1 ≤ max_count tag_options)%Z →
  ∃ w', _add tag_options [ATag t] w = (Ok tt, w') ∧
    rel w' = rel w ∧
    (∀ q, count_of q (db w') =
          (fun c => if decide (q = p) then (c + 1)%Z else c)
            <$> count_of q (db w)) ∧
    tags (manager w') = all w ++ [t] ∧
    changed (manager w') = false.
Proof.
  intros Hp Hin Hmax. rewrite (add_one tag_options w t p Hp Hmax).
  eexists. split; [reflexivity|]. cbn. split; [|split; [|done]].
  - apply set_eq. intros x. rewrite elem_of_union, elem_of_singleton.
    split; [by intros [?| ->]|by left].
  - intros q. apply count_of_change_count.
Qed.

(** X19. [_remove] with a saved tag, on a well formed table: the tag leaves
    the relation, and its count goes down by one only if it was related;
    removing a tag that is not related writes nothing to the table. *)
Theorem remove_saved_tag w t p :
  pk t = Some p → wf_table (db w) → wf_rel w →
  ∃ w', _remove tag_options [ATag t] w = (Ok tt, w') ∧
    rel w' = rel w ∖ {[p]} ∧
    (p ∉ rel w → db w' = db w ∧ rel w' = rel w) ∧
    (∀ q, count_of q (db w') =
          (fun c => if decide (q = p ∧ p ∈ rel w) then (c + -1)%Z else c)
            <$> count_of q (db w)).
Proof.
  intros Hp Hnd Hwf.
  destruct (remove_one tag_options w t p Hp Hnd Hwf)
    as (w' & Hrun & Hrel & Hdb & _).
  exists w'. split; [done|]. split; [done|]. split.
  - intros Hout. rewrite decide_False in Hdb by done. split; [done|].
    rewrite Hrel. apply set_eq. intros x.
    rewrite elem_of_difference, elem_of_singleton.
    split; [by intros [? _]|]. intros Hx. split; [done|]. by intros ->.
  - intros q. rewrite Hdb. destruct (decide (p ∈ rel w)) as [Hin|Hout].
    + rewrite count_of_change_count.
      destruct (count_of q (db w)) as [c|]; [|done]. cbn. f_equal.
      destruct (decide (q = p)) as [->|Hq].
      * by rewrite decide_True.
      * rewrite decide_False; [done|]. by intros [? _].
    + destruct (count_of q (db w)) as [c|]; [|done]. cbn. f_equal.
      rewrite decide_False; [done|]. by intros [_ ?].
Qed.

(** X20. [_remove] with a string looks for a record of exactly that name,
    whatever the case rule of the field; when there is none the string is
    skipped: nothing is written, but the manager has reloaded its tags from
    the relation and is unchanged. *)
Theorem remove_unknown_name_skipped w s :
  get_name s (db w) = Raise DoesNotExist →
  ∃ w', _remove tag_options [AStr s] w = (Ok tt, w') ∧
    db w' = db w ∧ rel w' = rel w ∧
    tags (manager w') = all w ∧ changed (manager w') = false.
Proof.
  intros Hg. unfold _remove. unfold bind at 1.
  assert (for_fold [AStr s] [] to_rm_tag w = (Ok [], w)) as ->.
  { rewrite for_fold_cons. unfold to_rm_tag, bind, gets. by rewrite Hg. }
  unfold reload. unfold bind at 1, modify at 1.
  unfold bind at 1, gets at 1.
  cbn [tags manager set_manager with_tags with_changed tag_in existsb].
  rewrite filter_never. cbn [tag_in existsb negb]. rewrite filter_always.
  unfold _old_remove. unfold_monad.
  eexists. split; [reflexivity|]. cbn. repeat split; try done.
  apply set_eq. intros x. rewrite elem_of_difference.
  split; [by intros [? _]|]. intros Hx. split; [done|].
  by intros ?%elem_of_empty.
Qed.

(** X21. [_add] with a string makes a record of that name without looking
    for one: the record gets a new primary key, is related to the instance
    and counted once, and its tag is appended to the reloaded tags. *)
Theorem add_name_creates_record w s :
  wf_rel w →
  (max_count tag_options = 0 ∨
   Z.of_nat (List.length (all w)) + 1 ≤ max_count tag_options)%Z →
  ∃ w' r, _add tag_options [AStr s] w = (Ok tt, w') ∧
    db w' = db w ++ [r] ∧
    row_pk r = fresh_pk (db w) ∧ row_name r = s ∧ row_count r = 1%Z ∧
    rel w' = rel w ∪ {[fresh_pk (db w)]} ∧
    fresh_pk (db w) ∉ rel w ∧
    tags (manager w') = all w ++ [of_row r] ∧
    changed (manager w') = false.
Proof.
  intros Hwf Hmax. unfold _add. unfold bind at 1.
  assert (for_fold [AStr s] [] to_new_tag w
          = (Ok [mkTag (Some (fresh_pk (db w))) s false],
             mkWorld (db w ++ [mkRow (fresh_pk (db w)) s 0 false])
               (rel w) (manager w))) as -> by reflexivity.
  unfold reload. unfold bind at 1, modify at 1.
  unfold bind at 1, gets at 1.
  cbn [tags manager set_manager with_tags with_changed db rel].
  rewrite (all_app_created w [mkRow (fresh_pk (db w)) s 0 false] (manager w) Hwf)
    by (constructor; [split; [done|apply fresh_pk_notin]|done]).
  match goal with
  | |- context [bool_decide ?P && bool_decide ?Q] =>
      assert (bool_decide P && bool_decide Q = false) as ->
  end.
  { apply andb_false_iff. destruct Hmax as [Hz|Hle].
    - left. apply bool_decide_eq_false. tauto.
    - right. apply bool_decide_eq_false. simpl. lia. }
  unfold bind at 1.
  rewrite ensure_saved by (constructor; [by eexists|done]).
  pose proof (increment_inserted s false (db w)) as Hins.
  unfold insert_row in Hins. cbn [fst snd] in Hins.
  unfold _old_add. unfold_monad.
  unfold bind, ret, set_db, set_rel, set_manager. cbn.
  unfold increment in Hins. cbn [pk] in Hins. rewrite Hins.
  eexists _, (mkRow (fresh_pk (db w)) s 1 false).
  split; [reflexivity|]. cbn. repeat split; try done.
  - by rewrite union_empty_r_L.
  - intros Hin. apply (fresh_pk_notin (db w)). by apply Hwf.
Qed.

(** X22. [_clear] on a well formed table and relation: the relation is
    emptied, every tag that was related is counted down once and no other
    count moves, and the manager is left without tags, unchanged. *)
Theorem clear_decrements_related w :
  wf_table (db w) → wf_rel w →
  ∃ w', _clear w = (Ok tt, w') ∧
    rel w' = ∅ ∧ tags (manager w') = [] ∧ changed (manager w') = false ∧
    (∀ q, count_of q (db w') =
          (fun c => if decide (q ∈ rel w) then (c + -1)%Z else c)
            <$> count_of q (db w)).
Proof.
  intros Hnd Hwf. unfold _clear, reload, _old_clear.
  unfold bind at 1, modify at 1. unfold bind at 1, modify at 1.
  unfold bind at 1, gets at 1. unfold bind at 1.
  rewrite decrement_each. unfold modify.
  eexists. split; [reflexivity|]. cbn. split; [done|]. split; [done|].
  split; [done|]. intros q. unfold all.
  rewrite count_of_decrement_all.
  2: { eapply sublist_NoDup; [exact Hnd|]. apply fmap_sublist, sublist_filter. }
  destruct (count_of q (db w)) as [c|]; [|done]. cbn. f_equal.
  destruct (decide (q ∈ rel w)) as [Hin|Hout].
  - rewrite decide_True; [done|].
    pose proof (Hwf q Hin) as Hq. unfold table_pks in Hq.
    apply elem_of_list_to_set, list_elem_of_fmap in Hq as (r & -> & Hr).
    apply list_elem_of_fmap. exists r. split; [done|].
    by apply list_elem_of_filter.
  - rewrite decide_False; [done|].
    intros (r & -> & Hr)%list_elem_of_fmap.
    by apply list_elem_of_filter in Hr as [? _].
Qed.

End RelatedCounting.

Lemma add_related_tag_counts_again_witness :
  ∃ w', RelatedManagerTagMixin._add sample_options
          [ATag (mkTag (Some 1%positive) "Foo" false)] related_Foo = (Ok tt, w') ∧
        RelatedManagerTagMixin.rel w' = RelatedManagerTagMixin.rel related_Foo ∧
        count_of 1 (RelatedManagerTagMixin.db w') = Some 2%Z.
Proof.
  destruct (add_related_tag_counts_again sample_options related_Foo
              (mkTag (Some 1%positive) "Foo" false) 1%positive)
    as (w' & Hrun & Hrel & Hcount & _);
    [reflexivity|vm_compute; reflexivity|by left|].
  exists w'. split; [exact Hrun|]. split; [exact Hrel|].
  rewrite Hcount. reflexivity.
Defined.

Lemma remove_saved_tag_witness :
  ∃ w', RelatedManagerTagMixin._remove sample_options
          [ATag (mkTag (Some 1%positive) "Foo" false)] related_Foo = (Ok tt, w') ∧
        RelatedManagerTagMixin.rel w' = {[1%positive]} ∖ {[1%positive]} ∧
        count_of 1 (RelatedManagerTagMixin.db w') = Some 0%Z.
Proof.
  destruct (remove_saved_tag sample_options related_Foo
              (mkTag (Some 1%positive) "Foo" false) 1%positive)
    as (w' & Hrun & Hrel & _ & Hcount).
  - reflexivity.
  - unfold wf_table. apply (bool_decide_unpack _). vm_compute. exact I.
  - unfold wf_rel. apply (bool_decide_unpack _). vm_compute. exact I.
  - exists w'. split; [exact Hrun|]. split; [exact Hrel|].
    rewrite Hcount. reflexivity.
Defined.

Lemma remove_unknown_name_skipped_witness :
  ∃ w', RelatedManagerTagMixin._remove sample_options [AStr "FOO"] related_Foo
        = (Ok tt, w') ∧
        RelatedManagerTagMixin.db w' = cased_table ∧
        RelatedManagerTagMixin.rel w' = RelatedManagerTagMixin.rel related_Foo.
Proof.
  destruct (remove_unknown_name_skipped sample_options related_Foo "FOO")
    as (w' & Hrun & Hdb & Hrel & _); [reflexivity|].
  exists w'. split; [exact Hrun|]. split; [exact Hdb|exact Hrel].
Defined.

Lemma add_name_creates_record_witness :
  ∃ w' r, RelatedManagerTagMixin._add sample_options [AStr "new"] related_Foo
          = (Ok tt, w') ∧
          RelatedManagerTagMixin.db w' = cased_table ++ [r] ∧
          row_pk r = 4%positive ∧ row_count r = 1%Z.
Proof.
  destruct (add_name_creates_record sample_options related_Foo "new")
    as (w' & r & Hrun & Hdb & Hpk & _ & Hcount & _).
  - unfold wf_rel. apply (bool_decide_unpack _). vm_compute. exact I.
  - by left.
  - exists w', r. split; [exact Hrun|]. split; [exact Hdb|].
    split; [exact Hpk|exact Hcount].
Defined.

Lemma clear_decrements_related_witness :
  ∃ w', RelatedManagerTagMixin._clear related_Foo_foo = (Ok tt, w') ∧
        RelatedManagerTagMixin.rel w' = ∅ ∧
        count_of 1 (RelatedManagerTagMixin.db w') = Some 0%Z ∧
        count_of 3 (RelatedManagerTagMixin.db w') = Some 0%Z.
Proof.
  destruct (clear_decrements_related related_Foo_foo)
    as (w' & Hrun & Hrel & _ & _ & Hcount).
  - unfold wf_table. apply (bool_decide_unpack _). vm_compute. exact I.
  - unfold wf_rel. apply (bool_decide_unpack _). vm_compute. exact I.
  - exists w'. split; [exact Hrun|]. split; [exact Hrel|].
    split; rewrite Hcount; reflexivity.
Defined.

(** ** Saving twice, comparing, and loading *)

Lemma bind_Ok {S A B} (m : M S A) (k : A → M S B) s b s' :
  bind m k s = (Ok b, s') → ∃ a s1, m s = (Ok a, s1) ∧ k a s1 = (Ok b, s').
Proof.
  unfold bind. destruct (m s) as [[a|e] s1]; [|done]. by exists a, s1.
Qed.

Section RelatedSaved.

Import RelatedManagerTagMixin.

Context `{!Folding}.
Variable tag_options : Options.
Variable parse_tags : string → list string.

(** The case folding of [__eq__]. *)
Local Abbreviation folded := (fun n : string =>
  if force_lowercase tag_options || negb (case_sensitive tag_options)
  then lower n else n).

(** X23. Whenever [save] returns, it leaves the manager unchanged, so that a
    second [save] without [force] returns at once and writes nothing. *)
Theorem save_twice force w w' :
  save tag_options force w = (Ok tt, w') →
  changed (manager w') = false ∧
  save tag_options false w' = (Ok tt, w').
Proof.
  intros Hrun.
  assert (Hc : changed (manager w') = false).
  { unfold save in Hrun.
    apply bind_Ok in Hrun as (c & s1 & Hg & Hrun). injection Hg as <- <-.
    destruct (negb (changed (manager w)) && negb force) eqn:Hskip.
    - injection Hrun as <-.
      apply andb_true_iff in Hskip as [Hs _].
      by apply negb_true_iff in Hs.
    - do 7 (apply bind_Ok in Hrun as (? & ? & _ & Hrun)).
      by injection Hrun as <-. }
  split; [done|]. by apply save_unchanged.
Qed.

(** X24. [__eq__] on a manager whose tags have distinct names after the
    case folding: it answers true exactly when those names are, in some
    order, the tags that the other string parses to; [__ne__] answers the
    opposite; neither writes anything. *)
Theorem eq_compares_as_sets other w :
  instance (manager w) = true →
  NoDup (folded <$> (name <$> tags (manager w))) →
  ∃ b, __eq__ tag_options parse_tags other w = (Ok b, w) ∧
       __ne__ tag_options parse_tags other w = (Ok (negb b), w) ∧
       (b = true ↔
        folded <$> (name <$> tags (manager w))
        ≡ₚ parse_tags (folded other)).
Proof.
  intros Hi Hnd. unfold __ne__, __eq__, get_tag_list.
  unfold bind, gets, ret. rewrite Hi. cbn [negb]. cbv beta.
  set (self_tags := name <$> tags (manager w)) in *.
  set (other_tags := parse_tags
         (if force_lowercase tag_options || negb (case_sensitive tag_options)
          then lower other else other)).
  destruct (bool_decide (List.length other_tags ≠ List.length self_tags))
    eqn:Hlen.
  - exists false. split; [done|]. split; [done|].
    split; [done|]. intros Hperm. apply bool_decide_eq_true in Hlen.
    apply Permutation_length in Hperm. rewrite length_fmap in Hperm.
    by rewrite Hperm in Hlen.
  - apply bool_decide_eq_false in Hlen.
    assert (Hlen' : List.length other_tags = List.length self_tags).
    { destruct (decide (List.length other_tags = List.length self_tags));
        [done|by exfalso; apply Hlen]. }
    eexists. split; [reflexivity|]. split; [reflexivity|].
    rewrite forallb_forall. split.
    + intros Hall. apply submseteq_length_Permutation.
      * apply NoDup_submseteq; [done|].
        intros x (n & -> & Hn)%list_elem_of_fmap.
        apply list_elem_of_In in Hn. apply Hall in Hn.
        by apply bool_decide_eq_true in Hn.
      * rewrite length_fmap. lia.
    + intros Hperm n Hn. apply bool_decide_eq_true.
      rewrite <- Hperm. apply list_elem_of_fmap. exists n.
      split; [done|]. by apply list_elem_of_In.
Qed.

(** X25. [__init_tagulous__] loads the tags of the relation: on a well
    formed table, the manager starts unchanged with one saved tag for each
    related primary key, and the table and the relation are not written. *)
Theorem init_tagulous_loads_relation d r inst :
  wf_table d → r ⊆ table_pks d →
  ∃ w, __init_tagulous__ d r inst = (Ok tt, w) ∧
    db w = d ∧ rel w = r ∧
    instance (manager w) = inst ∧ changed (manager w) = false ∧
    pks (tags (manager w)) = r ∧
    List.length (tags (manager w)) = size r ∧
    Forall (fun t => ∃ row, row ∈ d ∧ t = of_row row) (tags (manager w)).
Proof.
  intros Hnd Hwf. eexists. split; [reflexivity|]. cbn.
  split; [done|]. split; [done|]. split; [done|]. split; [done|].
  split; [|split].
  - by apply (all_pks (mkWorld d r (mkManager inst [] false))).
  - by apply (all_length (mkWorld d r (mkManager inst [] false))).
  - unfold all. cbn. apply Forall_forall.
    intros t (row & -> & Hrow)%list_elem_of_fmap.
    apply list_elem_of_filter in Hrow as [_ Hrow]. by exists row.
Qed.

End RelatedSaved.

Lemma save_twice_witness :
  ∃ w', RelatedManagerTagMixin.save cased_options false related_wants_bar_new
        = (Ok tt, w') ∧
        RelatedManagerTagMixin.save cased_options false w' = (Ok tt, w').
Proof.
  eexists. split; [reflexivity|].
  eapply (save_twice cased_options false related_wants_bar_new).
  reflexivity.
Defined.

Lemma eq_compares_as_sets_witness :
  RelatedManagerTagMixin.__eq__ sample_options (fun s => [s]) "FOO" related_Foo
  = (Ok true, related_Foo).
Proof.
  destruct (eq_compares_as_sets sample_options (fun s => [s]) "FOO" related_Foo)
    as (b & Hrun & _ & Hb).
  - reflexivity.
  - apply (bool_decide_unpack _). vm_compute. exact I.
  - rewrite Hrun. f_equal. f_equal. apply Hb. reflexivity.
Defined.

Lemma init_tagulous_loads_relation_witness :
  ∃ w, RelatedManagerTagMixin.__init_tagulous__ cased_table
         {[1%positive; 2%positive]} true = (Ok tt, w) ∧
       pks (RelatedManagerTagMixin.tags (RelatedManagerTagMixin.manager w))
       = {[1%positive; 2%positive]}.
Proof.
  destruct (init_tagulous_loads_relation cased_table {[1%positive; 2%positive]}
              true) as (w & Hrun & _ & _ & _ & _ & Hpks & _).
  - unfold wf_table. apply (bool_decide_unpack _). vm_compute. exact I.
  - apply (bool_decide_unpack _). vm_compute. exact I.
  - exists w. split; [exact Hrun|exact Hpks].
Defined.

(** ** Reading and combining tag options *)

Lemma option_union_None_l {A} (x : option A) : None ∪ x = x.
Proof. by destruct x. Qed.

Lemma option_union_None_r {A} (x : option A) : x ∪ None = x.
Proof. by destruct x. Qed.

Section OptionsExtras.

Import TagOptions.

Variable OPTION_DEFAULTS : gmap string value.
Variable parse_tags : string → list string.
Variable render_tags : value → outcome string.

Local Abbreviation setattr := (__setattr__ OPTION_DEFAULTS parse_tags render_tags).
Local Abbreviation init := (__init__ OPTION_DEFAULTS parse_tags render_tags).
Local Abbreviation add := (__add__ OPTION_DEFAULTS parse_tags render_tags).
Local Abbreviation getattr := (getattr OPTION_DEFAULTS).

(** What [__setattr__] makes of a value given for [initial]: the list of
    tags, and the tag string, for which a value that is not a string goes
    through [render_tags]. *)
Local Abbreviation as_list := (fun v : value =>
  match v with VStr s => VList (parse_tags s) | _ => v end).
Local Abbreviation string_of := (fun v : value =>
  match v with VStr s => Ok s | _ => render_tags v end).
Local Abbreviation as_string := (fun v : value =>
  match string_of v with Ok s => Some (VStr s) | Raise _ => None end).

Lemma setattr_initial v d s :
  string_of v = Ok s →
  setattr "initial" v d
  = (Ok tt, <["initial" := as_list v]> (<["initial_string" := VStr s]> d)).
Proof.
  intros Hs. unfold __setattr__. rewrite decide_True by done.
  destruct v; simplify_eq; try done; by rewrite Hs.
Qed.

Lemma setattr_initial_raises v d e :
  string_of v = Raise e → setattr "initial" v d = (Raise e, d).
Proof.
  intros Hs. unfold __setattr__. rewrite decide_True by done.
  destruct v; simplify_eq; by rewrite Hs.
Qed.

Lemma setattr_option n v d :
  n ∈ dom OPTION_DEFAULTS → n ≠ "initial" →
  setattr n v d = (Ok tt, <[n := v]> d).
Proof.
  intros Hn Hi. unfold __setattr__.
  rewrite decide_False by done. by rewrite decide_True.
Qed.

(** The loop of [__init__] over keyword arguments that are all options. *)
Lemma setattr_each (l : list (string * value)) d0 :
  NoDup l.*1 →
  (∀ k, k ∈ l.*1 → k ∈ dom OPTION_DEFAULTS ∨ k = "initial") →
  OPTION_DEFAULTS !! "initial_string" = None →
  (∀ v, (list_to_map l : gmap string value) !! "initial" = Some v →
        ∃ s, string_of v = Ok s) →
  ∃ d, for_each l (fun kv => setattr kv.1 kv.2) d0 = (Ok tt, d) ∧
    (∀ n, n ≠ "initial" → n ≠ "initial_string" →
       d !! n = (list_to_map l : gmap string value) !! n ∪ d0 !! n) ∧
    d !! "initial"
    = (as_list <$> (list_to_map l : gmap string value) !! "initial")
      ∪ d0 !! "initial" ∧
    d !! "initial_string"
    = ((list_to_map l : gmap string value) !! "initial" ≫= as_string)
      ∪ d0 !! "initial_string".
Proof.
  intros Hnd Hkeys Hstr. revert d0 Hnd Hkeys.
  induction l as [|[k v] l IH]; intros d0 Hnd Hkeys Hrender.
  - exists d0. split; [done|].
    change (list_to_map [] : gmap string value) with (∅ : gmap string value).
    rewrite !lookup_empty. cbn [fmap option_fmap option_map mbind option_bind].
    repeat split; intros; by rewrite ?lookup_empty, option_union_None_l.
  - cbn in Hnd. apply NoDup_cons in Hnd as [Hk Hnd].
    assert (Hl : (list_to_map l : gmap string value) !! k = None)
      by by apply not_elem_of_list_to_map_1.
    assert (Hkeys' : ∀ k', k' ∈ l.*1 → k' ∈ dom OPTION_DEFAULTS ∨ k' = "initial").
    { intros k' Hk'. apply Hkeys. cbn. by right. }
    assert (Hkstr : k ≠ "initial_string").
    { intros ->. destruct (Hkeys "initial_string") as [Hin|?]; [cbn; left| |done].
      apply elem_of_dom in Hin as [x Hx]. congruence. }
    rewrite for_each_cons. cbn [fst snd].
    rewrite list_to_map_cons in Hrender |- *.
    destruct (decide (k = "initial")) as [->|Hki].
    + destruct (Hrender v) as [sv Hsv]; [by rewrite lookup_insert_eq|].
      rewrite (setattr_initial v d0 sv Hsv).
      destruct (IH (<["initial" := as_list v]>
                      (<["initial_string" := VStr sv]> d0)) Hnd Hkeys')
        as (d & Hrun & Hother & Hini & Hs); [intros v'; by rewrite Hl|].
      exists d. split; [done|]. split; [|split].
      * intros n Hn1 Hn2. rewrite (Hother n Hn1 Hn2).
        by rewrite !lookup_insert_ne by done.
      * rewrite Hini, Hl, lookup_insert_eq, lookup_insert_eq.
        cbn [fmap option_fmap option_map].
        by rewrite option_union_None_l, union_Some_l.
      * rewrite Hs, Hl, lookup_insert_eq.
        rewrite (lookup_insert_ne _ "initial" "initial_string") by done.
        rewrite lookup_insert_eq. cbn [mbind option_bind]. rewrite Hsv.
        by rewrite option_union_None_l, union_Some_l.
    + rewrite setattr_option;
        [|destruct (Hkeys k) as [?|?]; [cbn; left|done|done]|done].
      destruct (IH (<[k := v]> d0) Hnd Hkeys')
        as (d & Hrun & Hother & Hini & Hs).
      { intros v' Hv'. apply Hrender. by rewrite lookup_insert_ne. }
      exists d. split; [done|]. split; [|split].
      * intros n Hn1 Hn2. rewrite (Hother n Hn1 Hn2).
        destruct (decide (k = n)) as [->|Hkn].
        -- rewrite Hl, !lookup_insert_eq.
           by rewrite option_union_None_l, union_Some_l.
        -- by rewrite !lookup_insert_ne by done.
      * rewrite Hini. by rewrite !lookup_insert_ne by done.
      * rewrite Hs. by rewrite !lookup_insert_ne by done.
Qed.

Lemma init_lookup (kwargs : gmap string value) :
  (∀ k, k ∈ dom kwargs → k ∈ dom OPTION_DEFAULTS ∨ k = "initial") →
  OPTION_DEFAULTS !! "initial_string" = None →
  (∀ v, kwargs !! "initial" = Some v → ∃ s, string_of v = Ok s) →
  ∃ d, init kwargs = (Ok tt, d) ∧
    (∀ n, n ≠ "initial" → n ≠ "initial_string" → d !! n = kwargs !! n) ∧
    d !! "initial" = as_list <$> kwargs !! "initial" ∧
    d !! "initial_string" = kwargs !! "initial" ≫= as_string.
Proof.
  intros Hkeys Hstr Hrender. unfold __init__.
  destruct (setattr_each (map_to_list kwargs) ∅) as (d & Hrun & Hother & Hini & Hs).
  - apply NoDup_fst_map_to_list.
  - intros k (kv & -> & Hkv)%list_elem_of_fmap. apply Hkeys.
    destruct kv as [k v]. apply elem_of_map_to_list in Hkv.
    apply elem_of_dom. by exists v.
  - done.
  - by rewrite list_to_map_to_list.
  - rewrite list_to_map_to_list in Hother, Hini, Hs.
    exists d. split; [done|]. split; [|split].
    + intros n Hn1 Hn2.
      by rewrite (Hother n Hn1 Hn2), lookup_empty, option_union_None_r.
    + by rewrite Hini, lookup_empty, option_union_None_r.
    + by rewrite Hs, lookup_empty, option_union_None_r.
Qed.

Lemma get_items_defaults (l : list string) (d : gmap string value) :
  (∀ k, k ∈ l → is_Some (OPTION_DEFAULTS !! k)) →
  ∃ m : gmap string value,
    foldr (fun name acc =>
             match acc, OPTION_DEFAULTS !! name with
             | Ok m, Some dflt => Ok (<[name := default dflt (d !! name)]> m)
             | Ok _, None => Raise (KeyError name)
             | Raise e, _ => Raise e
             end) (Ok ∅) l = Ok m ∧
    ∀ n, m !! n = if decide (n ∈ l)
                  then (fun dflt => default dflt (d !! n)) <$> OPTION_DEFAULTS !! n
                  else None.
Proof.
  induction l as [|k l IH]; intros Hl.
  - exists ∅. split; [done|]. intros n. rewrite lookup_empty.
    rewrite decide_False; [done|]. by intros ?%elem_of_nil.
  - destruct IH as (m & Hm & Hlook); [intros k' Hk'; apply Hl; by right|].
    destruct (Hl k) as [dflt Hd]; [left|].
    cbn [foldr]. rewrite Hm, Hd. eexists. split; [reflexivity|].
    intros n. destruct (decide (k = n)) as [->|Hkn].
    + rewrite lookup_insert_eq, decide_True by left. by rewrite Hd.
    + rewrite lookup_insert_ne by done. rewrite Hlook.
      destruct (decide (n ∈ l)) as [Hin|Hout].
      * rewrite decide_True; [done|by right].
      * rewrite decide_False; [done|]. by intros [?|?]%elem_of_cons.
Qed.

(** X26. Setting an option other than [initial] and reading it back gives
    the value set; no other name of the object is touched. *)
Theorem option_set_then_read n v d :
  n ∈ dom OPTION_DEFAULTS → n ≠ "initial" →
  ∃ d', setattr n v d = (Ok tt, d') ∧
    getattr n d' = (Ok v, d') ∧
    ∀ k, k ≠ n → d' !! k = d !! k.
Proof.
  intros Hn Hi. rewrite (setattr_option n v d Hn Hi).
  eexists. split; [reflexivity|]. split.
  - unfold TagOptions.getattr. by rewrite lookup_insert_eq.
  - intros k Hk. by rewrite lookup_insert_ne.
Qed.

(** X27. Setting [initial] keeps the value in two forms. A string is kept
    as the tag string and parsed into the list of tags; any other value is
    kept as it is and handed to [render_tags] for the tag string. When
    [render_tags] raises, as it does on a value that cannot be iterated,
    setting [initial] raises the same and stores nothing; otherwise
    [initial] reads as the list, [initial_string] as the tag string, and no
    other name is touched. *)
Theorem initial_keeps_both_forms v d :
  (∀ s, string_of (VStr s) = Ok s) ∧
  match string_of v with
  | Ok s =>
      ∃ d', setattr "initial" v d = (Ok tt, d') ∧
        getattr "initial" d' = (Ok (as_list v), d') ∧
        getattr "initial_string" d' = (Ok (VStr s), d') ∧
        ∀ k, k ≠ "initial" → k ≠ "initial_string" → d' !! k = d !! k
  | Raise e => setattr "initial" v d = (Raise e, d)
  end.
Proof.
  split; [done|].
  destruct (string_of v) as [s|e] eqn:Hs;
    [|by apply setattr_initial_raises].
  rewrite (setattr_initial v d s Hs). eexists. split; [reflexivity|].
  unfold TagOptions.getattr. split; [by rewrite lookup_insert_eq|]. split.
  - rewrite (lookup_insert_ne _ "initial" "initial_string") by done.
    by rewrite lookup_insert_eq.
  - intros k Hk1 Hk2. by rewrite !lookup_insert_ne.
Qed.

(** X28. An object made from keyword arguments that are options, [initial]
    not among them, holds exactly these arguments; reading
    [initial_string] from it raises [KeyError], whereas every option reads
    as the argument given or, when none was given, as its default (as the
    attribute of the class, should the option have the name of one). *)
Theorem initial_string_needs_initial (kwargs : gmap string value) :
  (∀ k, k ∈ dom kwargs → k ∈ dom OPTION_DEFAULTS) →
  kwargs !! "initial" = None →
  Forall (fun p => OPTION_DEFAULTS !! p = None) PROPERTIES →
  ∃ d, init kwargs = (Ok tt, d) ∧ d = kwargs ∧
    getattr "initial_string" d = (Raise (KeyError "initial_string"), d) ∧
    ∀ n dflt, OPTION_DEFAULTS !! n = Some dflt →
      getattr n d
      = (Ok (default (if decide (n ∈ CLASS_ATTRIBUTES ++ OBJECT_ATTRIBUTES)
                      then VAttr n else dflt) (kwargs !! n)), d).
Proof.
  intros Hkeys Hini Hprops.
  assert (Hstr : OPTION_DEFAULTS !! "initial_string" = None).
  { rewrite Forall_forall in Hprops. apply Hprops. unfold PROPERTIES.
    apply list_elem_of_In. simpl. tauto. }
  assert (Hnostr : kwargs !! "initial_string" = None).
  { destruct (kwargs !! "initial_string") as [x|] eqn:E; [|done].
    assert (Hin : "initial_string" ∈ dom OPTION_DEFAULTS).
    { apply Hkeys. apply elem_of_dom. by exists x. }
    apply elem_of_dom in Hin as [y Hy]. congruence. }
  destruct (init_lookup kwargs) as (d & Hrun & Hother & Hi & Hs);
    [intros k Hk; left; by apply Hkeys|done|intros v; by rewrite Hini|].
  assert (Hd : d = kwargs).
  { apply map_eq. intros n.
    destruct (decide (n = "initial")) as [->|Hn1]; [by rewrite Hi, Hini|].
    destruct (decide (n = "initial_string")) as [->|Hn2];
      [by rewrite Hs, Hini, Hnostr|].
    by apply Hother. }
  exists d. split; [done|]. split; [done|]. subst d. split.
  - unfold TagOptions.getattr, __getattr__. rewrite Hnostr.
    rewrite (decide_False (P := _ ∈ CLASS_ATTRIBUTES ++ OBJECT_ATTRIBUTES))
      by apply initial_string_no_attribute.
    rewrite decide_True; [done|].
    unfold PROPERTIES. apply list_elem_of_In. simpl. tauto.
  - intros n dflt Hn. unfold TagOptions.getattr.
    destruct (kwargs !! n) as [v|] eqn:Hv; [done|].
    destruct (decide (n ∈ CLASS_ATTRIBUTES ++ OBJECT_ATTRIBUTES)); [done|].
    unfold __getattr__. destruct (decide (n ∈ PROPERTIES)) as [Hp|_].
    + rewrite Forall_forall in Hprops. apply Hprops in Hp. congruence.
    + by rewrite Hn, Hv.
Qed.

(** X29. [items] with defaults never raises and writes nothing; it answers
    a dictionary with exactly the options as its keys, each with the value
    of the object or else the default, which is what reading the option
    answers (but for an unset option that has the name of an attribute of
    the class, which reads as that attribute). *)
Theorem items_with_defaults_total d :
  ∃ m, items OPTION_DEFAULTS true d = (Ok m, d) ∧
    dom m = dom OPTION_DEFAULTS ∧
    (∀ n, m !! n
          = (fun dflt => default dflt (d !! n)) <$> OPTION_DEFAULTS !! n) ∧
    (Forall (fun p => OPTION_DEFAULTS !! p = None) PROPERTIES →
     ∀ n v, m !! n = Some v →
       getattr n d
       = (Ok (match d !! n with
              | Some _ => v
              | None => if decide (n ∈ CLASS_ATTRIBUTES ++ OBJECT_ATTRIBUTES)
                        then VAttr n else v
              end), d)).
Proof.
  unfold items, _get_items.
  destruct (get_items_defaults (reverse (map fst (map_to_list OPTION_DEFAULTS))) d)
    as (m & Hm & Hlook).
  { intros k Hk. rewrite elem_of_reverse in Hk.
    change (map fst (map_to_list OPTION_DEFAULTS))
      with ((map_to_list OPTION_DEFAULTS).*1) in Hk.
    apply list_elem_of_fmap in Hk as ([k' x] & -> & Hkv).
    apply elem_of_map_to_list in Hkv. by exists x. }
  assert (Hlook' : ∀ n, m !! n
    = (fun dflt => default dflt (d !! n)) <$> OPTION_DEFAULTS !! n).
  { intros n. rewrite Hlook.
    destruct (decide (n ∈ reverse (map fst (map_to_list OPTION_DEFAULTS))))
      as [Hin|Hout]; [done|].
    destruct (OPTION_DEFAULTS !! n) as [x|] eqn:Hx; [|done].
    exfalso. apply Hout. apply elem_of_reverse.
    change (map fst (map_to_list OPTION_DEFAULTS))
      with ((map_to_list OPTION_DEFAULTS).*1).
    apply list_elem_of_fmap. exists (n, x). split; [done|].
    by apply elem_of_map_to_list. }
  exists m. rewrite Hm. split; [done|]. split; [|split; [done|]].
  - apply set_eq. intros n. rewrite !elem_of_dom, Hlook'.
    by rewrite fmap_is_Some.
  - intros Hprops n v. rewrite Hlook'.
    destruct (OPTION_DEFAULTS !! n) as [dflt|] eqn:Hn; [|done].
    intros [= <-]. unfold TagOptions.getattr.
    destruct (d !! n) as [x|] eqn:Hx; [done|].
    destruct (decide (n ∈ CLASS_ATTRIBUTES ++ OBJECT_ATTRIBUTES)); [done|].
    unfold __getattr__. destruct (decide (n ∈ PROPERTIES)) as [Hp|_].
    + rewrite Forall_forall in Hprops. apply Hprops in Hp. congruence.
    + by rewrite Hn, Hx.
Qed.

(** X30. [__add__], when [initial_string] is no option and the value of
    [initial] that it takes over, if there is one, is a string or a value
    that [render_tags] accepts: it returns, and in the new object every
    option other than [initial] holds the value of the second operand, or
    else that of the first, or else nothing; [initial] is taken the same
    way, and [initial_string] is made anew from it. *)
Theorem add_overrides (a b : gmap string value) :
  OPTION_DEFAULTS !! "initial_string" = None →
  ("initial" ∈ dom OPTION_DEFAULTS →
   ∀ v, b !! "initial" ∪ a !! "initial" = Some v → ∃ s, string_of v = Ok s) →
  ∃ d, add a b = (Ok tt, d) ∧
    (∀ n, n ∈ dom OPTION_DEFAULTS → n ≠ "initial" →
       d !! n = b !! n ∪ a !! n) ∧
    (∀ n, n ∉ dom OPTION_DEFAULTS → n ≠ "initial_string" → d !! n = None) ∧
    ("initial" ∈ dom OPTION_DEFAULTS →
     d !! "initial" = as_list <$> (b !! "initial" ∪ a !! "initial") ∧
     d !! "initial_string" = (b !! "initial" ∪ a !! "initial") ≫= as_string).
Proof.
  intros Hstr Hrender. unfold __add__, items, _get_items.
  set (keys := map fst (map_to_list OPTION_DEFAULTS)).
  assert (Hkeys : ∀ n, n ∈ keys ↔ n ∈ dom OPTION_DEFAULTS).
  { intros n. subst keys.
    change (map fst (map_to_list OPTION_DEFAULTS))
      with ((map_to_list OPTION_DEFAULTS).*1).
    rewrite list_elem_of_fmap, elem_of_dom. split.
    - intros ([k x] & -> & Hkv). apply elem_of_map_to_list in Hkv. by exists x.
    - intros [x Hx]. exists (n, x). split; [done|].
      by apply elem_of_map_to_list. }
  assert (Hfilter : ∀ (x : gmap string value) n,
    filter (fun kv : string * value => kv.1 ∈ keys) x !! n
    = if decide (n ∈ dom OPTION_DEFAULTS) then x !! n else None).
  { intros x n. rewrite map_lookup_filter.
    destruct (x !! n) as [v|]; cbn; [|by destruct (decide _)].
    destruct (decide (n ∈ dom OPTION_DEFAULTS)) as [Hin|Hout].
    - rewrite option_guard_True; [done|]. by apply Hkeys.
    - rewrite option_guard_False; [done|]. cbn. by rewrite Hkeys. }
  set (kwargs := filter (fun kv : string * value => kv.1 ∈ keys) b
                 ∪ filter (fun kv : string * value => kv.1 ∈ keys) a).
  assert (Hkw : ∀ n, kwargs !! n
    = if decide (n ∈ dom OPTION_DEFAULTS) then b !! n ∪ a !! n else None).
  { intros n. subst kwargs. rewrite lookup_union, !Hfilter.
    by destruct (decide (n ∈ dom OPTION_DEFAULTS)). }
  destruct (init_lookup kwargs) as (d & Hrun & Hother & Hi & Hs); [|done| |].
  { intros k [x Hx]%elem_of_dom. left. rewrite Hkw in Hx.
    by destruct (decide (k ∈ dom OPTION_DEFAULTS)). }
  { intros v. rewrite Hkw.
    destruct (decide ("initial" ∈ dom OPTION_DEFAULTS)); [|done].
    by apply Hrender. }
  exists d. split; [done|]. split; [|split].
  - intros n Hn Hni. rewrite Hother, Hkw; [by rewrite decide_True|done|].
    intros ->. apply elem_of_dom in Hn as [x Hx]. congruence.
  - intros n Hn Hns. destruct (decide (n = "initial")) as [->|Hni].
    + by rewrite Hi, Hkw, decide_False.
    + by rewrite Hother, Hkw, decide_False.
  - intros Hin. by rewrite Hi, Hs, Hkw, decide_True.
Qed.

End OptionsExtras.

Lemma option_set_then_read_witness :
  ∃ d', TagOptions.__setattr__ sample_defaults sample_parse_tags sample_render_tags "max_count" (VInt 3) ∅ = (Ok tt, d') ∧
        TagOptions.getattr sample_defaults "max_count" d' = (Ok (VInt 3), d').
Proof.
  destruct (option_set_then_read sample_defaults sample_parse_tags sample_render_tags "max_count" (VInt 3) ∅)
    as (d' & Hset & Hget & _).
  - apply elem_of_dom. eexists. reflexivity.
  - discriminate.
  - exists d'. split; [exact Hset|exact Hget].
Defined.

Lemma initial_string_needs_initial_witness :
  ∃ d, TagOptions.__init__ sample_defaults sample_parse_tags sample_render_tags
         {["max_count" := VInt 3]} = (Ok tt, d) ∧
       TagOptions.getattr sample_defaults "initial_string" d
       = (Raise (KeyError "initial_string"), d).
Proof.
  destruct (initial_string_needs_initial sample_defaults sample_parse_tags sample_render_tags {["max_count" := VInt 3]})
    as (d & Hrun & _ & Hkey & _).
  - intros k Hk. rewrite dom_singleton_L in Hk.
    apply elem_of_singleton in Hk as ->.
    apply elem_of_dom. eexists. reflexivity.
  - reflexivity.
  - repeat constructor.
  - exists d. split; [exact Hrun|exact Hkey].
Defined.

Lemma items_with_defaults_total_witness :
  ∃ m, TagOptions.items sample_defaults true {["max_count" := VInt 3]}
       = (Ok m, {["max_count" := VInt 3]}) ∧
       TagOptions.getattr sample_defaults "max_count" {["max_count" := VInt 3]}
       = (Ok (VInt 3), {["max_count" := VInt 3]}).
Proof.
  destruct (items_with_defaults_total sample_defaults {["max_count" := VInt 3]})
    as (m & Hrun & _ & Hlook & Hget).
  exists m. split; [exact Hrun|].
  assert (Hp : Forall (fun p => sample_defaults !! p = None)
                 TagOptions.PROPERTIES) by repeat constructor.
  assert (Hm : m !! "max_count" = Some (VInt 3))
    by (rewrite Hlook; reflexivity).
  exact (Hget Hp "max_count" (VInt 3) Hm).
Defined.

Lemma add_overrides_witness :
  ∃ d, TagOptions.__add__ sample_defaults sample_parse_tags sample_render_tags
         {["max_count" := VInt 3]}
         (<["max_count" := VInt 5]> {["case_sensitive" := VBool true]})
       = (Ok tt, d) ∧
       d !! "max_count" = Some (VInt 5) ∧
       d !! "case_sensitive" = Some (VBool true).
Proof.
  destruct (add_overrides sample_defaults sample_parse_tags sample_render_tags
              {["max_count" := VInt 3]}
              (<["max_count" := VInt 5]> {["case_sensitive" := VBool true]}))
    as (d & Hrun & Hopt & _); [reflexivity|intros _ v Hv; discriminate Hv|].
  exists d. split; [exact Hrun|]. split.
  - rewrite Hopt; [reflexivity| |discriminate].
    apply elem_of_dom. eexists. reflexivity.
  - rewrite Hopt; [reflexivity| |discriminate].
    apply elem_of_dom. eexists. reflexivity.
Defined.

Lemma initial_keeps_both_forms_witness :
  TagOptions.__setattr__ sample_defaults sample_parse_tags sample_render_tags
    "initial" VNone ∅ = (Raise TypeError, ∅) ∧
  ∃ d', TagOptions.__setattr__ sample_defaults sample_parse_tags
          sample_render_tags "initial" (VList ["a"; "b"]) ∅ = (Ok tt, d') ∧
        TagOptions.getattr sample_defaults "initial_string" d'
        = (Ok (VStr "a, b"), d').
Proof.
  split.
  - exact (proj2 (initial_keeps_both_forms sample_defaults sample_parse_tags
                    sample_render_tags VNone ∅)).
  - destruct (proj2 (initial_keeps_both_forms sample_defaults sample_parse_tags
                       sample_render_tags (VList ["a"; "b"]) ∅))
      as (d' & Hset & _ & Hstr & _).
    exists d'. split; [exact Hset|exact Hstr].
Defined.

Lemma set_string_stores_clean_name_witness :
  ∃ w', SingleTagManager.set (mkOptions false true 0) (SStr "Red") single_tagged_a
        = (Ok tt, w') ∧
        SingleTagManager.tag_name (SingleTagManager.manager w') = Some "red" ∧
        lower "red" = "red".
Proof.
  destruct (set_string_stores_clean_name (mkOptions false true 0) "Red"
              single_tagged_a) as (w' & Hrun & _ & _ & Hname).
  assert (Hn : SingleTagManager.tag_name (SingleTagManager.manager w') = Some "red").
  { injection Hrun as <-. reflexivity. }
  exists w'. split; [exact Hrun|]. split; [exact Hn|].
  destruct (Hname "red" Hn) as [_ Hl]. apply Hl. reflexivity.
Defined.

(** * Part IV: the two managers side by side *)

Section SideBySide.

Context `{!Folding}.
Variable tag_options : Options.
Variable parse_tags : string → list string.

Lemma save_clears_changed force w w' :
  RelatedManagerTagMixin.save tag_options force w = (Ok tt, w') →
  RelatedManagerTagMixin.changed (RelatedManagerTagMixin.manager w') = false.
Proof.
  intros Hrun. unfold RelatedManagerTagMixin.save in Hrun.
  apply bind_Ok in Hrun as (c & s1 & Hg & Hrun). injection Hg as <- <-.
  destruct (negb (RelatedManagerTagMixin.changed
                    (RelatedManagerTagMixin.manager w)) && negb force)
    eqn:Hskip.
  - injection Hrun as <-.
    apply andb_true_iff in Hskip as [Hs _].
    by apply negb_true_iff in Hs.
  - do 7 (apply bind_Ok in Hrun as (? & ? & _ & Hrun)).
    by injection Hrun as <-.
Qed.

(** C7. Applying the current state again does nothing. [set] with a value
    that stands for the name the manager holds returns with the whole state
    as it was, [changed] included. And whenever [save] returns, forced or
    not, it has cleared [changed], so that a second [save] without [force]
    returns at once with the state as it was: no record, no count and no
    row of the relation is read or written. *)
Theorem reapplying_is_noop :
  (∀ v w,
     SingleTagManager.tag_name (SingleTagManager.manager w)
     = SingleTagManager.parsed_tag_name tag_options v →
     SingleTagManager.set tag_options v w = (Ok tt, w)) ∧
  (∀ force w w',
     RelatedManagerTagMixin.save tag_options force w = (Ok tt, w') →
     RelatedManagerTagMixin.changed (RelatedManagerTagMixin.manager w') = false ∧
     RelatedManagerTagMixin.save tag_options false w' = (Ok tt, w')).
Proof.
  split.
  - intros v w Hn. by apply set_same_name.
  - intros force w w' Hrun.
    pose proof (save_clears_changed force w w' Hrun) as Hc.
    split; [done|]. by apply save_unchanged.
Qed.

End SideBySide.

Lemma reapplying_is_noop_witness :
  SingleTagManager.changed (SingleTagManager.manager single_tagged_a) = false ∧
  SingleTagManager.set sample_options (SStr "a") single_tagged_a
  = (Ok tt, single_tagged_a) ∧
  ∃ w', RelatedManagerTagMixin.save cased_options false related_wants_bar_new
        = (Ok tt, w') ∧
        RelatedManagerTagMixin.save cased_options false w' = (Ok tt, w').
Proof.
  destruct (reapplying_is_noop cased_options) as [_ Hsave].
  destruct (reapplying_is_noop sample_options) as [Hset _].
  split; [reflexivity|].
  split; [exact (Hset (SStr "a") single_tagged_a eq_refl)|].
  eexists. split; [reflexivity|].
  eapply (Hsave false related_wants_bar_new). reflexivity.
Defined.

(** ** Where a desired tag gets its record *)




Section Persisting.

Import RelatedManagerTagMixin.

Context `{!Folding}.
Variable tag_options : Options.








End Persisting.

Section MemoryOnly.

Context `{!Folding}.
Variable tag_options : Options.
Variable parse_tags : string → list string.


End MemoryOnly.


(** ** Case and normalisation *)

Section CaseRules.

Context `{!Folding}.
Variable tag_options : Options.

Lemma elem_of_matching n (t : table) r :
  r ∈ matching tag_options n t ↔ r ∈ t ∧ matches tag_options n r.
Proof.
  unfold matching, matches.
  destruct (case_sensitive tag_options); rewrite list_elem_of_filter; tauto.
Qed.

(** The lookup of a name that one record matches finds that record. *)
Lemma lookup_name_one n (t : table) r :
  matching tag_options n t = [r] →
  lookup_name (case_sensitive tag_options) n t = Ok (of_row r).
Proof.
  unfold matching, lookup_name, get_name, get_name__iexact, objects_get.
  by destruct (case_sensitive tag_options); intros ->.
Qed.

Lemma last_elem {A} (l : list A) x : last l = Some x → x ∈ l.
Proof.
  intros [l' ->]%last_Some. apply elem_of_app. right. by apply list_elem_of_singleton.
Qed.

(** A current tag whose comparison name is among those of the new names:
    the last current tag of that comparison name is among the items that
    the first loop of [set_tag_list] keeps. *)
Lemma staying_tag w ns tag n :
  tag ∈ RelatedManagerTagMixin.tags (RelatedManagerTagMixin.manager w) →
  n ∈ normalized tag_options ns →
  RelatedManagerTagMixin.cmp_name tag_options (name tag)
  = RelatedManagerTagMixin.cmp_name tag_options n →
  ∃ tag', tag' ∈ RelatedManagerTagMixin.tags (RelatedManagerTagMixin.manager w) ∧
    RelatedManagerTagMixin.cmp_name tag_options (name tag')
    = RelatedManagerTagMixin.cmp_name tag_options n ∧
    tag' ∈ (filter (fun kv => kv.1 ∈ dom (cmp_new_names_of tag_options ns))
              (map_to_list (old_tags_of tag_options w))).*2.
Proof.
  intros Htag Hn Hcmp.
  set (k := RelatedManagerTagMixin.cmp_name tag_options n) in *.
  destruct (last_tag_named tag_options k
              (RelatedManagerTagMixin.tags (RelatedManagerTagMixin.manager w)))
    as [tag'|] eqn:Hlast.
  - pose proof (last_elem _ _ Hlast) as [Hin Hk]%list_elem_of_filter.
    exists tag'. split; [done|]. split; [done|].
    apply list_elem_of_fmap. exists (k, tag'). split; [done|].
    apply list_elem_of_filter. split.
    + cbn. rewrite cmp_new_names_dom, elem_of_list_to_set.
      apply list_elem_of_fmap. by exists n.
    + apply elem_of_map_to_list. by rewrite old_tags_lookup.
  - unfold last_tag_named in Hlast. apply last_None in Hlast.
    assert (Hin : tag ∈ filter
              (fun tag => RelatedManagerTagMixin.cmp_name tag_options (name tag) = k)
              (RelatedManagerTagMixin.tags (RelatedManagerTagMixin.manager w))).
    { by apply list_elem_of_filter. }
    rewrite Hlast in Hin. by apply elem_of_nil in Hin.
Qed.

(** C5. Names are matched by the case rule of the field. The records that
    match a name are those of that very name when [case_sensitive] is set,
    and else those whose name the database takes for the same without
    regard to case. Where one record matches, [get] with a pending name
    answers its tag, [_ensure_tags_db] gives its tag for an unsaved tag of
    that name, and [set_tag_list] puts its tag among the tags of the manager
    for a name left for lookup. [set_tag_list] matches the current tags to
    the new names by the names themselves when [case_sensitive] is set and
    by the names in lower case otherwise: a current tag that agrees with a
    new name is kept, or a later current tag that agrees with it. Under
    [force_lowercase], [set] does with a string, and [set_tag_list] with its
    names, what it does with them in lower case. The name that [set] stores
    for a string has no double-quote character, and is in lower case under
    [force_lowercase]; the name it stores for a tag object is the name of
    the tag as it is. *)
Theorem names_follow_case_rule :
  (∀ n (t : table) r,
     r ∈ matching tag_options n t ↔
     r ∈ t ∧ if case_sensitive tag_options then row_name r = n
             else iexact_key (row_name r) = iexact_key n) ∧
  (∀ w n r,
     SingleTagManager.changed (SingleTagManager.manager w) = true →
     SingleTagManager.tag_name (SingleTagManager.manager w) = Some n →
     n ≠ EmptyString →
     matching tag_options n (SingleTagManager.db w) = [r] →
     SingleTagManager.get tag_options w = (Ok (Some (of_row r)), w)) ∧
  (∀ t w r,
     pk t = None →
     matching tag_options (name t) (RelatedManagerTagMixin.db w) = [r] →
     RelatedManagerTagMixin._ensure_tags_db tag_options [t] w
     = (Ok [of_row r], w)) ∧
  (∀ tag_names w,
     RelatedManagerTagMixin.instance (RelatedManagerTagMixin.manager w) = true →
     (max_count tag_options = 0 ∨
      Z.of_nat (List.length tag_names) ≤ max_count tag_options)%Z →
     (∀ k n, last_name_like tag_options k (normalized tag_options tag_names)
             = Some n →
             k ∉ cmp_names tag_options
                   (RelatedManagerTagMixin.tags (RelatedManagerTagMixin.manager w)) →
             unambiguous tag_options (RelatedManagerTagMixin.db w) n) →
     ∃ w', RelatedManagerTagMixin.set_tag_list tag_options tag_names w
           = (Ok tt, w') ∧
       (∀ k n r,
          last_name_like tag_options k (normalized tag_options tag_names)
          = Some n →
          k ∉ cmp_names tag_options
                (RelatedManagerTagMixin.tags (RelatedManagerTagMixin.manager w)) →
          matching tag_options n (RelatedManagerTagMixin.db w) = [r] →
          of_row r
          ∈ RelatedManagerTagMixin.tags (RelatedManagerTagMixin.manager w')) ∧
       (∀ tag n,
          tag ∈ RelatedManagerTagMixin.tags (RelatedManagerTagMixin.manager w) →
          n ∈ normalized tag_options tag_names →
          (if case_sensitive tag_options then name tag = n
           else lower (name tag) = lower n) →
          ∃ tag',
            tag' ∈ RelatedManagerTagMixin.tags (RelatedManagerTagMixin.manager w) ∧
            tag' ∈ RelatedManagerTagMixin.tags (RelatedManagerTagMixin.manager w') ∧
            (if case_sensitive tag_options then name tag' = n
             else lower (name tag') = lower n))) ∧
  (force_lowercase tag_options = true →
     (∀ s w, SingleTagManager.set tag_options (SStr s) w
             = SingleTagManager.set tag_options (SStr (lower s)) w) ∧
     (∀ tag_names w,
        RelatedManagerTagMixin.set_tag_list tag_options tag_names w
        = RelatedManagerTagMixin.set_tag_list tag_options
            (lower <$> tag_names) w)) ∧
  (∀ s w, ∃ w',
     SingleTagManager.set tag_options (SStr s) w = (Ok tt, w') ∧
     ∀ n, SingleTagManager.tag_name (SingleTagManager.manager w') = Some n →
       (∀ c, c ∈ list_ascii_of_string n → c ≠ quote_char) ∧
       (force_lowercase tag_options = true → lower n = n)) ∧
  (∀ t w, ∃ w',
     SingleTagManager.set tag_options (STag t) w = (Ok tt, w') ∧
     SingleTagManager.tag_name (SingleTagManager.manager w') = Some (name t)).
Proof.
  split; [|split; [|split; [|split; [|split; [|split]]]]].
  - intros n t r. apply elem_of_matching.
  - intros w n r Hc Hn Hne Hm.
    apply (get_found tag_options w n); try done. by apply lookup_name_one.
  - intros t w r Hpk Hm. cbn [RelatedManagerTagMixin._ensure_tags_db].
    unfold_monad. by rewrite Hpk, (lookup_name_one _ _ _ Hm).
  - intros tag_names w Hi Hmax Hun.
    destruct (set_tag_list_run tag_options tag_names w Hi Hmax)
      as (w' & Hrun & _ & _ & _ & Htags & _).
    { intros n (k & Hlast & Hk)%names_left_spec. by apply (Hun k). }
    exists w'. split; [done|]. split.
    + intros k n r Hlast Hk Hm. rewrite Htags. apply elem_of_app. right.
      apply list_elem_of_fmap. exists n. split.
      * unfold resolved. by rewrite (lookup_name_one _ _ _ Hm).
      * apply names_left_spec. by exists k.
    + intros tag n Htag Hn Hsame.
      destruct (staying_tag w tag_names tag n Htag Hn) as (tag' & ? & Hk & Hin).
      { unfold RelatedManagerTagMixin.cmp_name.
        by destruct (case_sensitive tag_options). }
      exists tag'. split; [done|]. split.
      * rewrite Htags. apply elem_of_app. by left.
      * unfold RelatedManagerTagMixin.cmp_name in Hk.
        by destruct (case_sensitive tag_options).
  - intros Hfl. split.
    + intros s w. unfold SingleTagManager.set.
      by rewrite (parsed_lower tag_options s Hfl).
    + intros tag_names w.
      assert (E : lower <$> (lower <$> tag_names) = lower <$> tag_names).
      { rewrite <- list_fmap_compose. apply list_fmap_ext.
        intros _ n _. apply lower_idemp. }
      unfold RelatedManagerTagMixin.set_tag_list.
      rewrite Hfl, length_fmap. cbv beta iota zeta. by rewrite E.
  - intros s w.
    destruct (set_spec tag_options (SStr s) w) as (w' & Hrun & _ & _ & Hn).
    exists w'. split; [done|]. intros n. rewrite Hn.
    apply parsed_string_clean.
  - intros t w.
    destruct (set_spec tag_options (STag t) w) as (w' & Hrun & _ & _ & Hn).
    by exists w'.
Qed.

End CaseRules.

Lemma names_follow_case_rule_witness :
  SingleTagManager.get sample_options
    (SingleTagManager.set sample_options (SStr "B") single_tagged_a).2
  = (Ok (Some (mkTag (Some 2%positive) "b" false)),
     (SingleTagManager.set sample_options (SStr "B") single_tagged_a).2) ∧
  RelatedManagerTagMixin._ensure_tags_db sample_options
    [mkTag None "BAR" false] related_Foo
  = (Ok [mkTag (Some 3%positive) "bar" false], related_Foo) ∧
  (∃ w', RelatedManagerTagMixin.set_tag_list sample_options ["FOO"; "BAR"]
           related_Foo = (Ok tt, w') ∧
         mkTag (Some 3%positive) "bar" false
           ∈ RelatedManagerTagMixin.tags (RelatedManagerTagMixin.manager w') ∧
         mkTag (Some 1%positive) "Foo" false
           ∈ RelatedManagerTagMixin.tags (RelatedManagerTagMixin.manager w')) ∧
  SingleTagManager.set (mkOptions false true 0) (SStr "Red") single_untagged
  = SingleTagManager.set (mkOptions false true 0) (SStr "red") single_untagged.
Proof.
  destruct (names_follow_case_rule sample_options)
    as (_ & Hget & Hens & Hlist & _).
  destruct (names_follow_case_rule (mkOptions false true 0))
    as (_ & _ & _ & _ & Hlow & _).
  split; [|split; [|split]].
  - exact (Hget (SingleTagManager.set sample_options (SStr "B") single_tagged_a).2
             "B" (mkRow 2 "b" 0 false) eq_refl eq_refl ltac:(discriminate)
             eq_refl).
  - exact (Hens (mkTag None "BAR" false) related_Foo (mkRow 3 "bar" 0 false)
             eq_refl eq_refl).
  - destruct (Hlist ["FOO"; "BAR"] related_Foo) as (w' & Hrun & Hnew & Hold).
    + reflexivity.
    + left. reflexivity.
    + intros k n Hlast Hk.
      apply last_Some in Hlast as [l Hl].
      assert (Hn : n ∈ filter
                (fun n => RelatedManagerTagMixin.cmp_name sample_options n = k)
                (normalized sample_options ["FOO"; "BAR"]))
        by (rewrite Hl; apply elem_of_app; right; left).
      apply list_elem_of_filter in Hn as [Hkn Hn].
      apply list_elem_of_In in Hn. destruct Hn as [<-|[<-|[]]].
      * exfalso. apply Hk. rewrite <- Hkn. apply list_elem_of_In.
        vm_compute. tauto.
      * vm_compute. discriminate.
    + exists w'. split; [exact Hrun|]. split.
      * apply (Hnew "bar" "BAR" (mkRow 3 "bar" 0 false)).
        -- reflexivity.
        -- intros Hin%list_elem_of_In. vm_compute in Hin.
           destruct Hin as [Hin|[]]. discriminate Hin.
        -- reflexivity.
      * destruct (Hold (mkTag (Some 1%positive) "Foo" false) "FOO")
          as (tag' & Hin & Hin' & _).
        -- apply list_elem_of_In. vm_compute. tauto.
        -- apply list_elem_of_In. vm_compute. tauto.
        -- reflexivity.
        -- apply list_elem_of_In in Hin. vm_compute in Hin.
           destruct Hin as [<-|[]]. exact Hin'.
  - exact (proj1 (Hlow eq_refl) "Red" single_untagged).
Defined.

(** C5 as stated fails for a tag object. The field forces lower case and the
    instance is tagged [foo]. [set] with the string of the name [Foo] takes
    it in lower case, finds the name of the manager and changes nothing;
    [set] with the tag [Foo] compares the name as it is, finds it new and
    stores it as it is. *)
Lemma set_keeps_case_of_tag_object :
  force_lowercase (mkOptions false true 0) = true ∧
  SingleTagManager.tag_name
    (SingleTagManager.manager
       (SingleTagManager.__init__ cased_table
          (SingleTagManager.mkInstance (Some (Some 2%positive)) None)).2)
  = Some "foo" ∧
  SingleTagManager.set (mkOptions false true 0) (SStr "Foo")
    (SingleTagManager.__init__ cased_table
       (SingleTagManager.mkInstance (Some (Some 2%positive)) None)).2
  = (Ok tt,
     (SingleTagManager.__init__ cased_table
        (SingleTagManager.mkInstance (Some (Some 2%positive)) None)).2) ∧
  ∃ w', SingleTagManager.set (mkOptions false true 0)
          (STag (mkTag (Some 1%positive) "Foo" false))
          (SingleTagManager.__init__ cased_table
             (SingleTagManager.mkInstance (Some (Some 2%positive)) None)).2
        = (Ok tt, w') ∧
        SingleTagManager.changed (SingleTagManager.manager w') = true ∧
        SingleTagManager.tag_name (SingleTagManager.manager w') = Some "Foo" ∧
        lower "Foo" ≠ "Foo".
Proof.
  split; [reflexivity|]. split; [reflexivity|]. split; [reflexivity|].
  eexists. split; [vm_compute; reflexivity|].
  split; [reflexivity|]. split; [reflexivity|]. discriminate.
Qed.
